(** * Mega.nz download bot: the transfer-and-relay pipeline of [mega.py]

    A shallow embedding of [split_and_upload], [update_progress] and
    [download_file], and of the menu ([start_command] and the callbacks
    of its buttons).  The handlers are sequential programs over a file
    system, the Telegram session, the Mega session and the zip library;
    they are written here in a state-and-exception monad over a [world]
    (a file system and the log of what the job did), with the outside
    parties gathered in an [env] of oracles.  One job is run at a time:
    nothing else touches the file system while a handler runs. *)

From Stdlib Require Import ZArith QArith String Ascii List Lia Bool.
From stdpp Require Import gmap strings list fin_maps.
From Stdlib Require Import Strings.Byte DecimalString.

Import ListNotations.
Local Open Scope string_scope.
Local Open Scope list_scope.
Local Open Scope Z_scope.

(** ** Text *)

Module Text.

(** [str(n)] of a non-negative integer, as an f-string prints it. *)
Definition str_int (n : Z) : string :=
  if n <? 0 then "-" +:+ NilZero.string_of_uint (N.to_uint (Z.to_N (- n)))
  else NilZero.string_of_uint (N.to_uint (Z.to_N n)).

(** [s.startswith(p)], returning what follows the prefix. *)
Fixpoint strip_prefix (p s : string) : option string :=
  match p, s with
  | EmptyString, _ => Some s
  | String a p', String b s' => if Ascii.eqb a b then strip_prefix p' s' else None
  | String _ _, EmptyString => None
  end.

(** [needle in s] *)
Fixpoint contains (needle s : string) : bool :=
  match strip_prefix needle s with
  | Some _ => true
  | None => match s with
            | EmptyString => false
            | String _ s' => contains needle s'
            end
  end.

(** The first [n] characters of [s]. *)
Fixpoint take (n : nat) (s : string) : string :=
  match n, s with
  | S n', String c s' => String c (take n' s')
  | _, _ => EmptyString
  end.

End Text.

(** ** Paths

    Python handles paths as strings; the file system resolves a string to
    the list of its components.  Paths are relative to the working
    directory of the bot, and empty components ([a//b], a trailing [/])
    are dropped as the kernel does. *)

Module Path.

Definition slash : ascii := "/"%char.

(** The pieces of [s] between slashes; never the empty list. *)
Fixpoint pieces (s : string) : list string :=
  match s with
  | EmptyString => [EmptyString]
  | String c s' =>
      if Ascii.eqb c slash then EmptyString :: pieces s'
      else match pieces s' with
           | h :: t => String c h :: t
           | [] => [String c EmptyString]
           end
  end.

Definition nonempty (s : string) : bool :=
  match s with EmptyString => false | _ => true end.

Definition resolve (s : string) : list string :=
  List.filter nonempty (pieces s).

Fixpoint ends_with_slash (s : string) : bool :=
  match s with
  | EmptyString => false
  | String c EmptyString => Ascii.eqb c slash
  | String _ s' => ends_with_slash s'
  end.

Definition starts_with_slash (s : string) : bool :=
  match s with
  | String c _ => Ascii.eqb c slash
  | EmptyString => false
  end.

(** [os.path.join(a, b)] *)
Definition join (a b : string) : string :=
  if starts_with_slash b then b
  else if negb (nonempty a) || ends_with_slash a then a +:+ b
  else a +:+ "/" +:+ b.

(** [os.path.basename(p)]: what follows the last slash. *)
Definition basename (p : string) : string :=
  List.last (pieces p) EmptyString.

(** A name that can stand as one component of a path. *)
Fixpoint slash_free (s : string) : bool :=
  match s with
  | EmptyString => true
  | String c s' => negb (Ascii.eqb c slash) && slash_free s'
  end.

Definition name_ok (s : string) : bool := nonempty s && slash_free s.

End Path.

(** ** Regular expressions

    The fragment of Python's [re] that the link pattern uses: literals,
    character classes, sequence, ordered alternation, a greedy [+] over a
    class and a greedy optional group, matched by backtracking.  The
    matcher is in continuation-passing style: [k] is what remains to be
    matched after [r], and the result is the unread rest of the text. *)

Module Re.

Inductive regex :=
| Lit (s : string)
| Seq (r1 r2 : regex)
| Alt (r1 r2 : regex)
| Plus (cls : ascii -> bool)
| Opt (r : regex).

(** Greedy repetition of a class: the longest run first, then shorter ones. *)
Fixpoint star (cls : ascii -> bool) (s : string)
    (k : string -> option string) : option string :=
  match s with
  | String c s' =>
      if cls c then
        match star cls s' k with
        | Some rest => Some rest
        | None => k s
        end
      else k s
  | EmptyString => k s
  end.

Fixpoint match_re (r : regex) (s : string)
    (k : string -> option string) : option string :=
  match r with
  | Lit l =>
      match Text.strip_prefix l s with
      | Some s' => k s'
      | None => None
      end
  | Seq r1 r2 => match_re r1 s (fun s' => match_re r2 s' k)
  | Alt r1 r2 =>
      match match_re r1 s k with
      | Some rest => Some rest
      | None => match_re r2 s k
      end
  | Plus cls =>
      match s with
      | String c s' => if cls c then star cls s' k else None
      | EmptyString => None
      end
  | Opt r1 =>
      match match_re r1 s k with
      | Some rest => Some rest
      | None => k s
      end
  end.

(** [re.match(r, s)]: the text matched at the start of [s]. *)
Definition match_at (r : regex) (s : string) : option string :=
  match match_re r s Some with
  | Some rest => Some (Text.take (String.length s - String.length rest) s)
  | None => None
  end.

(** [re.search(r, s).group(0)]: the leftmost match. *)
Fixpoint search (r : regex) (s : string) : option string :=
  match match_at r s with
  | Some m => Some m
  | None =>
      match s with
      | String _ s' => search r s'
      | EmptyString => None
      end
  end.

Definition between (lo hi c : ascii) : bool :=
  (nat_of_ascii lo <=? nat_of_ascii c)%nat && (nat_of_ascii c <=? nat_of_ascii hi)%nat.

(** The class [[A-Za-z0-9_-]]. *)
Definition word_or_dash (c : ascii) : bool :=
  between "A" "Z" c || between "a" "z" c || between "0" "9" c
  || Ascii.eqb c "_" || Ascii.eqb c "-".

(** [https://mega\.nz/(file|folder)/[A-Za-z0-9_-]+(?:#[A-Za-z0-9_-]+)?] *)
Definition mega_link : regex :=
  Seq (Lit "https://mega.nz/")
   (Seq (Alt (Lit "file") (Lit "folder"))
    (Seq (Lit "/")
     (Seq (Plus word_or_dash)
          (Opt (Seq (Lit "#") (Plus word_or_dash)))))).

End Re.

(** ** Exceptions, messages and the log of a job *)

Inductive exn :=
| OSError (errno : Z) (strerror filename : string)
| BadZipFile (msg : string)
| MegaError (msg : string)
| TelegramError (msg : string).

(** [str(e)], as the f-string of the failure report prints it. *)
Definition str (e : exn) : string :=
  match e with
  | OSError n s f => "[Errno " +:+ Text.str_int n +:+ "] " +:+ s +:+ ": '" +:+ f +:+ "'"
  | BadZipFile m => m
  | MegaError m => m
  | TelegramError m => m
  end.

Definition ENOENT := OSError 2 "No such file or directory".
Definition EEXIST := OSError 17 "File exists".
Definition ENOTDIR := OSError 20 "Not a directory".
Definition EISDIR := OSError 21 "Is a directory".
Definition EINVAL := OSError 22 "Invalid argument".
Definition ENOTEMPTY := OSError 39 "Directory not empty".

(** The text of a Telegram message.  The two texts that format a float
    with [:.2f] keep the number instead of its digits. *)
Inductive text :=
| Str (s : string)
| Progress (task_type : string) (progress_percentage : Q) (current_mb file_mb : Z)
| TaskCompleted (elapsed_time : Q).

(** The calls made on the Telegram session. *)
Inductive call :=
| reply (t : string)
| edit_text (t : text)
| send_document (document caption : string).

(** What a job did, in the order it did it.  A call on an outside party
    is logged with its failure, if it raised. *)
Inductive event :=
| Tg (c : call) (failure : option exn)
| Fetched (link : string) (failure : option exn)
| Extracted (archive dir : string) (failure : option exn)
| Wrote (path : string) (data : list byte)
| Removed (path : string)
| RemovedDir (path : string)
| Slept (seconds : Z).

(** ** The file system *)

Module FS.

Inductive node :=
| File (data : list byte)
| Dir.

Abbreviation fsmap := (gmap (list string) node).

(** The working directory is the empty path and always a directory. *)
Definition get (m : fsmap) (p : list string) : option node :=
  match p with
  | [] => Some Dir
  | _ => m !! p
  end.

Definition parent (p : list string) : list string := removelast p.

(** [d] followed by one more name. *)
Definition child_name (d p : list string) : option string :=
  match p with
  | [] => None
  | _ => if decide (removelast p = d) then Some (List.last p EmptyString) else None
  end.

(** The entries of directory [d], as [os.scandir] lists them (in the
    order of the directory, which is whatever the map gives). *)
Definition children (m : fsmap) (d : list string) : list (string * node) :=
  omap (fun pn => match child_name d (fst pn) with
                  | Some name => Some (name, snd pn)
                  | None => None
                  end) (map_to_list m).

Definition is_dir (n : string * node) : bool :=
  match snd n with Dir => true | File _ => false end.

(** [open(path, 'wb')] followed by a [write] of [data]. *)
Definition write (m : fsmap) (path : string) (data : list byte) : exn + fsmap :=
  let p := Path.resolve path in
  match get m p with
  | Some Dir => inl (EISDIR path)
  | _ =>
      match get m (parent p) with
      | Some Dir => inr (<[p := File data]> m)
      | Some (File _) => inl (ENOTDIR path)
      | None => inl (ENOENT path)
      end
  end.

(** [os.remove(path)] *)
Definition remove (m : fsmap) (path : string) : exn + fsmap :=
  let p := Path.resolve path in
  match get m p with
  | Some (File _) => inr (delete p m)
  | Some Dir => inl (EISDIR path)
  | None => inl (ENOENT path)
  end.

(** [os.rmdir(path)]: only an empty directory goes. *)
Definition rmdir (m : fsmap) (path : string) : exn + fsmap :=
  let p := Path.resolve path in
  match p with
  | [] => inl (EINVAL path)
  | _ =>
      match m !! p with
      | Some Dir =>
          match children m p with
          | [] => inr (delete p m)
          | _ :: _ => inl (ENOTEMPTY path)
          end
      | Some (File _) => inl (ENOTDIR path)
      | None => inl (ENOENT path)
      end
  end.

(** [os.makedirs(path, exist_ok=True)]: every missing directory on the
    way is created; a file on the way is an error. *)
Fixpoint makedirs_from (path : string) (done todo : list string) (m : fsmap)
    : exn + fsmap :=
  match todo with
  | [] => inr m
  | c :: rest =>
      let p := done ++ [c] in
      match m !! p with
      | None => makedirs_from path p rest (<[p := Dir]> m)
      | Some Dir => makedirs_from path p rest m
      | Some (File _) =>
          inl (match rest with [] => EEXIST path | _ => ENOTDIR path end)
      end
  end.

Definition makedirs (m : fsmap) (path : string) : exn + fsmap :=
  makedirs_from path [] (Path.resolve path) m.

(** The longest path of the map: no directory lies deeper. *)
Definition depth (m : fsmap) : nat :=
  List.fold_right (fun pn d => Nat.max (List.length (fst pn)) d) O (map_to_list m).

End FS.

Import FS.

(** ** The world and the outside parties *)

Record world := World {
  fs : fsmap;
  trace : list event
}.

(** One member of an archive as [extractall] meets it: its name inside
    the archive, and its bytes ([None] for a directory entry). *)
Definition member : Type := string * option (list byte).

(** The sizes and signatures of [zipfile]'s end-of-central-directory record. *)
Definition sizeEndCentDir : Z := 22.

Record env := Env {
  (** the Telegram server: the failure of a call, given what happened so far *)
  telegram : list event -> call -> option exn;
  (** [mega_client.download_url]: the name and the bytes of the object
      behind a link, or a failure *)
  mega : string -> exn + (string * list byte);
  (** [zipfile._EndRecData] on a file of at least 22 bytes: whether an
      end-of-central-directory record is found in its tail *)
  end_record : list byte -> bool;
  (** [ZipFile(...).extractall]: the members written, in order, and the
      failure that stopped the extraction, if any *)
  unzip : list byte -> list member * option exn;
  (** [time.time()] *)
  clock : list event -> Q;
  (** [st_size] of a directory *)
  dir_size : Z
}.

(** ** The monad of the handlers *)

Inductive result (A : Type) :=
| Ok (a : A)
| Raise (e : exn)
| OutOfFuel.

Arguments Ok {A} a.
Arguments Raise {A} e.
Arguments OutOfFuel {A}.

Definition M (A : Type) : Type := world -> result A * world.

Definition ret {A} (a : A) : M A := fun w => (Ok a, w).

Definition bind {A B} (m : M A) (f : A -> M B) : M B :=
  fun w =>
    match m w with
    | (Ok a, w') => f a w'
    | (Raise e, w') => (Raise e, w')
    | (OutOfFuel, w') => (OutOfFuel, w')
    end.

Definition raise {A} (e : exn) : M A := fun w => (Raise e, w).

Definition out_of_fuel {A} : M A := fun w => (OutOfFuel, w).

(** [try: body except Exception as e: handler(e)] *)
Definition try_except {A} (body : M A) (handler : exn -> M A) : M A :=
  fun w =>
    match body w with
    | (Raise e, w') => handler e w'
    | rw => rw
    end.

Notation "x <- m ;; k" := (bind m (fun x => k))
  (at level 100, m at next level, right associativity).
Notation "m ;;; k" := (bind m (fun _ => k))
  (at level 100, right associativity).

(** [for x in l: body(x)] *)
Fixpoint for_each {A} (l : list A) (body : A -> M unit) : M unit :=
  match l with
  | [] => ret tt
  | x :: l' => body x ;;; for_each l' body
  end.

Definition log (e : event) : M unit :=
  fun w => (Ok tt, World (fs w) (trace w ++ [e])).

(** A file-system operation: the new file system, or the error raised. *)
Definition fs_op (op : fsmap -> exn + fsmap) (done : event) : M unit :=
  fun w =>
    match op (fs w) with
    | inr m => (Ok tt, World m (trace w ++ [done]))
    | inl e => (Raise e, w)
    end.

Definition fs_update (op : fsmap -> exn + fsmap) : M unit :=
  fun w =>
    match op (fs w) with
    | inr m => (Ok tt, World m (trace w))
    | inl e => (Raise e, w)
    end.

(** ** The primitives the handlers call *)

Section Handlers.

Variable E : env.

(** A call on the Telegram session: logged, and raised if it failed. *)
Definition tg (c : call) : M unit :=
  fun w =>
    let r := telegram E (trace w) c in
    let w' := World (fs w) (trace w ++ [Tg c r]) in
    match r with
    | None => (Ok tt, w')
    | Some e => (Raise e, w')
    end.

Definition os_makedirs (path : string) : M unit :=
  fs_update (fun m => makedirs m path).

Definition os_remove (path : string) : M unit :=
  fs_op (fun m => remove m path) (Removed path).

Definition os_rmdir (path : string) : M unit :=
  fs_op (fun m => rmdir m path) (RemovedDir path).

Definition write_file (path : string) (data : list byte) : M unit :=
  fs_op (fun m => write m path data) (Wrote path data).

Definition os_path_exists (path : string) : M bool :=
  fun w =>
    match get (fs w) (Path.resolve path) with
    | Some _ => (Ok true, w)
    | None => (Ok false, w)
    end.

Definition os_path_getsize (path : string) : M Z :=
  fun w =>
    match get (fs w) (Path.resolve path) with
    | Some (File data) => (Ok (Z.of_nat (List.length data)), w)
    | Some Dir => (Ok (dir_size E), w)
    | None => (Raise (ENOENT path), w)
    end.

(** [open(path, 'rb')]: the handle is the bytes still to be read. *)
Definition open_rb (path : string) : M (list byte) :=
  fun w =>
    match get (fs w) (Path.resolve path) with
    | Some (File data) => (Ok data, w)
    | Some Dir => (Raise (EISDIR path), w)
    | None => (Raise (ENOENT path), w)
    end.

(** [f.read(n)]: at most [n] bytes, all of them when [n] is negative;
    returns the bytes read and the handle after them. *)
Fixpoint read_bytes (n : Z) (f : list byte) : list byte * list byte :=
  match f with
  | [] => ([], [])
  | b :: f' =>
      if n <=? 0 then ([], f)
      else let (chunk, rest) := read_bytes (n - 1) f' in (b :: chunk, rest)
  end.

Definition read (n : Z) (f : list byte) : list byte * list byte :=
  if n <? 0 then (f, []) else read_bytes n f.

(** [zipfile.is_zipfile(path)]: looks for the end-of-central-directory
    record at the end of the file.  A file too short to hold the record
    fails the seek to 22 bytes before its end and is no archive; a path
    that cannot be opened is no archive either. *)
Definition is_zipfile (path : string) : M bool :=
  fun w =>
    match get (fs w) (Path.resolve path) with
    | Some (File data) =>
        if Z.of_nat (List.length data) <? sizeEndCentDir then (Ok false, w)
        else (Ok (end_record E data), w)
    | _ => (Ok false, w)
    end.

(** [mega_client.download_url(link, dest_path=dest_path)]: the object is
    stored under [dest_path] and its path is returned. *)
Definition download_url (link dest_path : string) : M string :=
  fun w =>
    match mega E link with
    | inl e => (Raise e, World (fs w) (trace w ++ [Fetched link (Some e)]))
    | inr (name, data) =>
        let file_path := dest_path +:+ name in
        match write (fs w) file_path data with
        | inr m => (Ok file_path, World m (trace w ++ [Fetched link None]))
        | inl e => (Raise e, World (fs w) (trace w ++ [Fetched link (Some e)]))
        end
    end.

(** The name [extractall] gives a member below the target directory:
    empty, [.] and [..] parts are dropped. *)
Definition valid_part (s : string) : bool :=
  negb (String.eqb s "" || String.eqb s "." || String.eqb s "..").

Definition arcname (name : string) : string :=
  String.concat "/" (List.filter valid_part (Path.pieces name)).

Definition extract_member (dir : string) (mb : member) (m : fsmap) : exn + fsmap :=
  let target := Path.join dir (arcname (fst mb)) in
  match makedirs_from target [] (parent (Path.resolve target)) m with
  | inl e => inl e
  | inr m1 =>
      match snd mb with
      | Some data => write m1 target data
      | None =>
          match get m1 (Path.resolve target) with
          | Some Dir => inr m1
          | Some (File _) => inl (EEXIST target)
          | None => inr (<[Path.resolve target := Dir]> m1)
          end
      end
  end.

(** The members are written one after the other; what was written
    before a failure stays. *)
Fixpoint extract_members (dir : string) (mbs : list member) (m : fsmap)
    : fsmap * option exn :=
  match mbs with
  | [] => (m, None)
  | mb :: rest =>
      match extract_member dir mb m with
      | inl e => (m, Some e)
      | inr m1 => extract_members dir rest m1
      end
  end.

(** [with zipfile.ZipFile(archive, 'r') as zip_ref: zip_ref.extractall(dir)] *)
Definition extractall (archive dir : string) : M unit :=
  fun w =>
    match get (fs w) (Path.resolve archive) with
    | Some (File data) =>
        let (mbs, failure) := unzip E data in
        let (m, err) := extract_members dir mbs (fs w) in
        let failure' := match err with Some e => Some e | None => failure end in
        let w' := World m (trace w ++ [Extracted archive dir failure']) in
        match failure' with
        | None => (Ok tt, w')
        | Some e => (Raise e, w')
        end
    | Some Dir =>
        (Raise (EISDIR archive),
         World (fs w) (trace w ++ [Extracted archive dir (Some (EISDIR archive))]))
    | None =>
        (Raise (ENOENT archive),
         World (fs w) (trace w ++ [Extracted archive dir (Some (ENOENT archive))]))
    end.

Definition time_time : M Q := fun w => (Ok (clock E (trace w)), w).

Definition asyncio_sleep (seconds : Z) : M unit := log (Slept seconds).

(** One step of [os.walk]: the sub-directories and the files of [root],
    or nothing when [root] cannot be listed. *)
Definition scandir (root : string) : M (option (list string * list string)) :=
  fun w =>
    match get (fs w) (Path.resolve root) with
    | Some Dir =>
        let entries := children (fs w) (Path.resolve root) in
        (Ok (Some (List.map fst (List.filter is_dir entries),
                   List.map fst (List.filter (fun n => negb (is_dir n)) entries))), w)
    | _ => (Ok None, w)
    end.

(** ** [split_and_upload] *)

(** [f"{file_path}.part{chunk_index}"] *)
Definition chunk_path (file_path : string) (chunk_index : Z) : string :=
  file_path +:+ ".part" +:+ Text.str_int chunk_index.

(** [f"Part {chunk_index + 1}/{(file_size // chunk_size) + 1} of {base_name}"] *)
Definition part_caption (chunk_index file_size chunk_size : Z) (base_name : string)
    : string :=
  "Part " +:+ Text.str_int (chunk_index + 1) +:+ "/"
  +:+ Text.str_int (file_size / chunk_size + 1) +:+ " of " +:+ base_name.

(** The [while True] loop of [split_and_upload], with the handle [f] and
    [chunk_index] as its state.  Every turn but the last reads at least
    one byte, so one unit of fuel per byte, and one more, is enough. *)
Fixpoint split_loop (chunk_size : Z) (fuel : nat) (file_path base_name : string)
    (file_size : Z) (f : list byte) (chunk_index : Z) : M unit :=
  match fuel with
  | O => out_of_fuel
  | S fuel' =>
      let (chunk, f') := read chunk_size f in
      match chunk with
      | [] => ret tt
      | _ :: _ =>
          let chunk_path := chunk_path file_path chunk_index in
          write_file chunk_path chunk ;;;
          tg (send_document chunk_path
                (part_caption chunk_index file_size chunk_size base_name)) ;;;
          os_remove chunk_path ;;;
          split_loop chunk_size fuel' file_path base_name file_size f' (chunk_index + 1)
      end
  end.

Definition split_notice : text :=
  Str "The file is larger than 2 GB and will be split into chunks for upload. Please wait...".

(** The body of [split_and_upload], for any value of its local
    [chunk_size]. *)
Definition split_and_upload_at (chunk_size : Z) (file_path : string) : M unit :=
  file_size <- os_path_getsize file_path ;;
  let base_name := Path.basename file_path in
  tg (edit_text split_notice) ;;;
  f <- open_rb file_path ;;
  split_loop chunk_size (S (List.length f)) file_path base_name file_size f 0.

Definition two_gb : Z := 2 * 1024 * 1024 * 1024.

Definition split_and_upload (file_path : string) : M unit :=
  split_and_upload_at two_gb file_path.

(** ** [update_progress] *)

Definition percentage (current_size file_size : Z) : Q :=
  if file_size >? 0
  then Qmult (Qdiv (inject_Z current_size) (inject_Z file_size)) (inject_Z 100)
  else inject_Z 0.

(** The [while os.path.exists(file_path)] loop; [fuel] bounds its turns. *)
Fixpoint progress_loop (fuel : nat) (file_path task_type : string)
    (file_size : Z) : M unit :=
  match fuel with
  | O => out_of_fuel
  | S fuel' =>
      there <- os_path_exists file_path ;;
      if there : bool then
        current_size <- os_path_getsize file_path ;;
        let progress_percentage := percentage current_size file_size in
        let progress_text :=
          Progress task_type progress_percentage
            (current_size / (1024 * 1024)) (file_size / (1024 * 1024)) in
        try_except (tg (edit_text progress_text)) (fun _ => ret tt) ;;;
        if current_size >=? file_size then ret tt
        else asyncio_sleep 1 ;;; progress_loop fuel' file_path task_type file_size
      else ret tt
  end.

Definition update_progress (fuel : nat) (file_path task_type : string) : M unit :=
  file_size <- os_path_getsize file_path ;;
  progress_loop fuel file_path task_type file_size.

(** ** [download_file] *)

(** [for root, _, files in os.walk(top)] with the body of the handler:
    the files of [root] are sent and removed, then the sub-directories
    are walked.  [fuel] bounds the depth of the walk. *)
Fixpoint walk_send (fuel : nat) (root : string) : M unit :=
  match fuel with
  | O => out_of_fuel
  | S fuel' =>
      listing <- scandir root ;;
      match listing with
      | None => ret tt
      | Some (dirs, files) =>
          for_each files (fun file =>
            let file_to_send := Path.join root file in
            tg (send_document file_to_send ("Extracted file: " +:+ file)) ;;;
            os_remove file_to_send) ;;;
          for_each dirs (fun d => walk_send fuel' (Path.join root d))
      end
  end.

(** No directory lies deeper than the longest path of the file system. *)
Definition send_extracted (top : string) : M unit :=
  fun w => walk_send (S (depth (fs w))) top w.

Definition created_by : string := "❤️ Created by @NT_BOT_CHANNEL".

Definition upload_notice : text := Str "Uploading file...".

Definition failure_report (e : exn) : text :=
  Str ("❌ An error occurred while processing your link: " +:+ str e).

Definition extraction_notice : text := Str "Uploading extracted files...".

(** Lines 173 to 193: the archive branch. *)
Definition relay_archive (dest_path file_path : string) : M unit :=
  let extracted_path := Path.join dest_path "extracted" in
  os_makedirs extracted_path ;;;
  extractall file_path extracted_path ;;;
  os_remove file_path ;;;
  tg (edit_text extraction_notice) ;;;
  send_extracted extracted_path ;;;
  os_rmdir extracted_path.

(** Lines 195 to 204: the plain-file branch. *)
Definition relay_plain (file_path : string) : M unit :=
  size <- os_path_getsize file_path ;;
  if size >? 2 * 1024 * 1024 * 1024 then split_and_upload file_path
  else
    tg (edit_text upload_notice) ;;;
    tg (send_document file_path created_by) ;;;
    os_remove file_path.

Definition folder_refusal : string :=
  "❌ Folder downloads are not supported at the moment. Please provide a file link.".

(** Lines 167 to 206: the body of the [try]. *)
Definition pipeline (fuel : nat) (mega_link dest_path : string) : M unit :=
  start_time <- time_time ;;
  file_path <- download_url mega_link dest_path ;;
  end_time <- time_time ;;
  let elapsed_time := Qminus end_time start_time in
  update_progress fuel file_path "Download" ;;;
  archive <- is_zipfile file_path ;;
  (if archive : bool then relay_archive dest_path file_path
   else relay_plain file_path) ;;;
  tg (edit_text (TaskCompleted elapsed_time)).

(** The handler of a text message; [fuel] bounds the polls of the
    progress monitor. *)
Definition download_file (fuel : nat) (message_text : string) : M unit :=
  match Re.search Re.mega_link message_text with
  | None => tg (reply "❌ No valid Mega.nz link found.")
  | Some mega_link =>
      if Text.contains "folder" mega_link then
        tg (reply folder_refusal)
      else
        let dest_path := "downloads/" in
        os_makedirs dest_path ;;;
        tg (reply "Starting download...") ;;;
        try_except (pipeline fuel mega_link dest_path)
          (fun e => tg (edit_text (failure_report e)))
  end.

End Handlers.

(** ** What a run leaves in the log *)

(** The events a run from [w] to [w'] added. *)
Definition emitted (w w' : world) : list event :=
  List.skipn (List.length (trace w)) (trace w').

(** The payloads written to chunk files, in the order of the writes. *)
Fixpoint wrote_payloads (evs : list event) : list (list byte) :=
  match evs with
  | [] => []
  | Wrote _ data :: evs' => data :: wrote_payloads evs'
  | _ :: evs' => wrote_payloads evs'
  end.

(** The documents sent, with their captions, in the order of the calls. *)
Fixpoint sent (evs : list event) : list (string * string) :=
  match evs with
  | [] => []
  | Tg (send_document doc cap) _ :: evs' => (doc, cap) :: sent evs'
  | _ :: evs' => sent evs'
  end.

(** [ceil(a / b)] for a positive [b]. *)
Definition ceil_div (a b : Z) : Z := (a + b - 1) / b.

(** ** Predicates on file systems, on logs and on runs *)

(** What the chunks of a file look like. *)
Definition chunking (C : Z) (data : list byte) (chunks : list (list byte)) : Prop :=
  List.concat chunks = data
  /\ Z.of_nat (List.length chunks) = ceil_div (Z.of_nat (List.length data)) C
  /\ List.Forall (fun c => Z.of_nat (List.length c) = C) (List.removelast chunks)
  /\ List.Forall (fun c => 0 < Z.of_nat (List.length c) <= C) chunks.

(** The runs of the loop of [split_and_upload] from handle [f] and index
    [idx]: how they end, and what they log. *)
Inductive split_run (C : Z) (path base : string) (size : Z)
    : list byte -> Z -> result unit -> list event -> Prop :=
| split_done f idx rest :
    read C f = ([], rest) ->
    split_run C path base size f idx (Ok tt) []
| split_write_failed f idx chunk rest e :
    read C f = (chunk, rest) -> chunk <> [] ->
    split_run C path base size f idx (Raise e) []
| split_send_failed f idx chunk rest e :
    read C f = (chunk, rest) -> chunk <> [] ->
    split_run C path base size f idx (Raise e)
      [Wrote (chunk_path path idx) chunk;
       Tg (send_document (chunk_path path idx) (part_caption idx size C base)) (Some e)]
| split_remove_failed f idx chunk rest e :
    read C f = (chunk, rest) -> chunk <> [] ->
    split_run C path base size f idx (Raise e)
      [Wrote (chunk_path path idx) chunk;
       Tg (send_document (chunk_path path idx) (part_caption idx size C base)) None]
| split_round f idx chunk rest r evs :
    read C f = (chunk, rest) -> chunk <> [] ->
    split_run C path base size rest (idx + 1) r evs ->
    split_run C path base size f idx r
      (Wrote (chunk_path path idx) chunk
       :: Tg (send_document (chunk_path path idx) (part_caption idx size C base)) None
       :: Removed (chunk_path path idx) :: evs).

(** Sample worlds and outside parties, for running the handlers. *)
Module Sample.

(** Every call succeeds; nothing is an archive; Mega serves three bytes. *)
Definition quiet : env :=
  Env (fun _ _ => None)
      (fun _ => inr ("a.bin", [x01; x02; x03]%byte))
      (fun _ => false)
      (fun _ => ([], None))
      (fun _ => inject_Z 0)
      4096.

Definition staged (name : string) (data : list byte) : world :=
  World (<[ ["downloads"; name] := File data ]> (<[ ["downloads"] := Dir ]> ∅)) [].

Definition three_bytes : world := staged "a.bin" [x01; x02; x03]%byte.


(** Every call succeeds, and every file with room for an
    end-of-central-directory record is taken for an archive of two
    members, one of them in a sub-directory. *)
Definition eager : env :=
  Env (fun _ _ => None)
      (fun _ => inr ("a.zip", List.repeat x00 22))
      (fun _ => true)
      (fun _ => ([("readme.txt", Some [x01]%byte); ("docs/guide.txt", Some [x02]%byte)], None))
      (fun _ => inject_Z 0)
      4096.

(** As [eager], with two members side by side; the upload after [k]
    earlier ones fails. *)
Definition flaky (k : nat) : env :=
  Env (fun history c =>
         match c with
         | send_document _ _ =>
             if Nat.eqb (List.length (sent history)) k
             then Some (TelegramError "upload failed") else None
         | _ => None
         end)
      (fun _ => inr ("a.zip", List.repeat x00 22))
      (fun _ => true)
      (fun _ => ([("one.txt", Some [x01]%byte); ("two.txt", Some [x02]%byte)], None))
      (fun _ => inject_Z 0)
      4096.

(** An empty working directory and an empty log. *)
Definition fresh : world := World ∅ [].

Definition file_link : string := "please fetch https://mega.nz/file/AbCd1234#key_-9 for me".

(** The log of the job of [file_link] when the upload after [k] earlier
    ones fails. *)
Definition flaky_log (k : nat) : list event :=
  emitted fresh (snd (download_file (flaky k) 1 file_link fresh)).

(** A file of 4.5 GB. *)
Definition four_and_a_half_gb : list byte := List.repeat x00 (Z.to_nat 4500000000).

(** A file of exactly 4 GiB. *)
Definition four_gib : list byte := List.repeat x00 (Z.to_nat (2 * two_gb)).

End Sample.

(** The sends of [n] successive turns of the loop, from index [idx]. *)
Fixpoint part_sends (C : Z) (path base : string) (size idx : Z) (n : nat)
    : list (string * string) :=
  match n with
  | O => []
  | S n' =>
      (chunk_path path idx, part_caption idx size C base)
      :: part_sends C path base size (idx + 1) n'
  end.

(** A well-formed file system: every entry has a proper name and lies in
    a directory. *)
Definition wf_fs (m : fsmap) : Prop :=
  forall p n, m !! p = Some n ->
    p <> [] /\ List.Forall (fun c => Path.name_ok c = true) p
    /\ get m (parent p) = Some Dir.

(** Directories stay. *)
Definition keeps_dirs (m m' : fsmap) : Prop :=
  forall p, m !! p = Some Dir -> m' !! p = Some Dir.

(** Files stay files (their bytes may change). *)
Definition keeps_files (m m' : fsmap) : Prop :=
  forall p data, m !! p = Some (File data) -> exists data', m' !! p = Some (File data').

(** Nothing appears: every entry of [m'] was one of [m]. *)
Definition only_removes (m m' : fsmap) : Prop :=
  forall p n, m' !! p = Some n -> m !! p = Some n.

(** [m] takes a world only to worlds related to it by [R]. *)
Definition preserves {A} (R : world -> world -> Prop) (m : M A) : Prop :=
  forall w r w', m w = (r, w') -> R w w'.

Definition extends (w w' : world) : Prop :=
  exists evs, trace w' = trace w ++ evs.

Definition dir_stays (p : list string) (w w' : world) : Prop :=
  fs w !! p = Some Dir -> fs w' !! p = Some Dir.

(** The job ended with its completion report. *)
Definition reported_completed (evs : list event) : Prop :=
  exists evs0 t, evs = evs0 ++ [Tg (edit_text (TaskCompleted t)) None].

(** The job ended with a failure report. *)
Definition reported_failed (evs : list event) : Prop :=
  exists evs0 e f, evs = evs0 ++ [Tg (edit_text (failure_report e)) f].


(** An event that is neither a failed upload nor a completion report. *)
Definition quiet_event (ev : event) : bool :=
  match ev with
  | Tg (send_document _ _) (Some _) => false
  | Tg (edit_text (TaskCompleted _)) _ => false
  | _ => true
  end.

Definition calm (evs : list event) : Prop := List.forallb quiet_event evs = true.

(** How a block of the pipeline ends: all went quietly, or the last
    thing it did was an upload that failed, and it raised the failure. *)
Definition disc {A} (r : result A) (evs : list event) : Prop :=
  calm evs
  \/ exists evs0 doc cap e,
       evs = evs0 ++ [Tg (send_document doc cap) (Some e)]
       /\ calm evs0 /\ r = Raise e.

(** Every run of [m] adds events of shape [Q] to the log. *)
Definition shaped {A} (Q : result A -> list event -> Prop) (m : M A) : Prop :=
  forall w r w', m w = (r, w') -> exists evs, trace w' = trace w ++ evs /\ Q r evs.

(** A call other than the completion report. *)
Definition not_completion (c : call) : Prop :=
  forall t, c <> edit_text (TaskCompleted t).

(** How the body of the [try] ends: as a block does, or with the
    completion report as the last thing it did. *)
Definition pipeline_end (r : result unit) (evs : list event) : Prop :=
  disc r evs
  \/ exists evs0 t f,
       evs = evs0 ++ [Tg (edit_text (TaskCompleted t)) f]
       /\ calm evs0
       /\ r = match f with None => Ok tt | Some e => Raise e end.

(** The ordinal of the upload that failed, counting the uploads of the
    log from [n + 1]. *)
Fixpoint failed_ordinal (evs : list event) (n : nat) : option nat :=
  match evs with
  | [] => None
  | Tg (send_document _ _) (Some _) :: _ => Some (S n)
  | Tg (send_document _ _) None :: evs' => failed_ordinal evs' (S n)
  | _ :: evs' => failed_ordinal evs' n
  end.

(** The log of the walk over the extracted members: every upload that
    succeeded is followed at once by the removal of the file sent, and an
    upload that failed ends the walk. *)
Inductive member_rounds : result unit -> list event -> Prop :=
| rounds_done : member_rounds (Ok tt) []
| rounds_send_failed doc cap e :
    member_rounds (Raise e) [Tg (send_document doc cap) (Some e)]
| rounds_cons doc cap r evs :
    member_rounds r evs ->
    member_rounds r (Tg (send_document doc cap) None :: Removed doc :: evs).

(** What a part of the walk does to the world. *)
Definition walked (w : world) (r : result unit) (w' : world) (evs : list event) : Prop :=
  trace w' = trace w ++ evs /\ member_rounds r evs /\ wf_fs (fs w')
  /\ keeps_dirs (fs w) (fs w') /\ only_removes (fs w) (fs w').

(** Every upload of the log that succeeded is followed at once by the
    removal of the file that was sent. *)
Definition sends_removed (evs : list event) : Prop :=
  forall pre doc cap post,
    evs = pre ++ Tg (send_document doc cap) None :: post ->
    exists post', post = Removed doc :: post'.

(** An event of the walk: an upload, or the removal of a file. *)
Definition round_event (ev : event) : Prop :=
  (exists doc cap f, ev = Tg (send_document doc cap) f) \/ (exists doc, ev = Removed doc).


(** How the [try] ends once the branch has returned [rb]: the completion
    report if it returned, the failure report for whatever was raised. *)
Definition finish (E : env) (elapsed_time : Q) (rb : result unit) : M unit :=
  try_except
    (fun w => match rb with
              | Ok _ => tg E (edit_text (TaskCompleted elapsed_time)) w
              | Raise e => (Raise e, w)
              | OutOfFuel => (OutOfFuel, w)
              end)
    (fun e => tg E (edit_text (failure_report e))).

(** Lines 173 to 204: the branch taken once the file is classified. *)
Definition relay (E : env) (archive : bool) (dest_path file_path : string) : M unit :=
  if archive then relay_archive E dest_path file_path else relay_plain E file_path.

(** The run added only events of [P] to the log. *)
Definition adds (P : event -> Prop) (w w' : world) : Prop :=
  exists evs, trace w' = trace w ++ evs /\ List.Forall P evs.

(** An event other than a fetch. *)
Definition not_fetch (ev : event) : Prop :=
  match ev with Fetched _ _ => False | _ => True end.

(** An event other than a completion report. *)
Definition not_completed (ev : event) : Prop :=
  match ev with Tg (edit_text (TaskCompleted _)) _ => False | _ => True end.

(** Every character of [s] is of the class. *)
Fixpoint all_of (cls : ascii -> bool) (s : string) : bool :=
  match s with
  | EmptyString => true
  | String c s' => cls c && all_of cls s'
  end.

(** The texts a pattern stands for. *)
Inductive denotes : Re.regex -> string -> Prop :=
| denotes_lit l : denotes (Re.Lit l) l
| denotes_seq r1 r2 a b :
    denotes r1 a -> denotes r2 b -> denotes (Re.Seq r1 r2) (a +:+ b)
| denotes_alt_l r1 r2 a : denotes r1 a -> denotes (Re.Alt r1 r2) a
| denotes_alt_r r1 r2 a : denotes r2 a -> denotes (Re.Alt r1 r2) a
| denotes_plus cls c s :
    cls c = true -> all_of cls s = true -> denotes (Re.Plus cls) (String c s)
| denotes_opt_none r : denotes (Re.Opt r) EmptyString
| denotes_opt_some r a : denotes r a -> denotes (Re.Opt r) a.

(** Further outside parties and worlds, for running the handlers. *)
Module Scene.

(** Mega refuses every link. *)
Definition refusing : env :=
  Env (fun _ _ => None)
      (fun _ => inl (MegaError "Url key missing"))
      (fun _ => false)
      (fun _ => ([], None))
      (fun _ => inject_Z 0)
      4096.

(** No call on Telegram goes through. *)
Definition muted : env :=
  Env (fun _ _ => Some (TelegramError "FLOOD_WAIT"))
      (fun _ => inr ("a.bin", [x01; x02; x03]%byte))
      (fun _ => false)
      (fun _ => ([], None))
      (fun _ => inject_Z 0)
      4096.

(** As [Sample.quiet], with a clock that advances by one second with
    every event of the log. *)
Definition ticking : env :=
  Env (fun _ _ => None)
      (fun _ => inr ("a.bin", [x01; x02; x03]%byte))
      (fun _ => false)
      (fun _ => ([], None))
      (fun history => inject_Z (Z.of_nat (List.length history)))
      4096.

(** Mega serves a plain file of 4.5 GB. *)
Definition bulky : env :=
  Env (fun _ _ => None)
      (fun _ => inr ("big.bin", Sample.four_and_a_half_gb))
      (fun _ => false)
      (fun _ => ([], None))
      (fun _ => inject_Z 0)
      4096.

(** A working directory in which [downloads] is a regular file. *)
Definition blocked : world := World (<[ ["downloads"] := File [] ]> ∅) [].

(** A staging area in which an earlier job left a file behind, and in
    which the archive of this job has just been stored. *)
Definition littered : world :=
  World (<[ ["downloads"; "extracted"; "old.txt"] := File [x09]%byte ]>
         (<[ ["downloads"; "extracted"] := Dir ]>
          (<[ ["downloads"; "a.zip"] := File (List.repeat x00 22) ]>
           (<[ ["downloads"] := Dir ]> ∅)))) [].

End Scene.

(** What the walk from [root] did to a path: nothing; or the path was
    below [root], it was uploaded under its own name, and it is gone. *)
Definition walk_effect (root : string) (w w' : world) (evs : list event) : Prop :=
  forall q,
    fs w' !! q = fs w !! q
    \/ (exists rest doc,
          rest <> [] /\ q = Path.resolve root ++ rest /\ fs w' !! q = None
          /\ In (Tg (send_document doc ("Extracted file: " +:+ List.last q "")) None) evs
          /\ Path.resolve doc = q).

(** A path of the staging area: [top] and what lies below it. *)
Definition under (top : string) (p : list string) : Prop :=
  exists rest, p = top :: rest.

(** Nothing changed outside [top]. *)
Definition confined (top : string) (m m' : fsmap) : Prop :=
  forall p, ~ under top p -> m' !! p = m !! p.

(** A well-formed file system stays so, and nothing changes outside [top]. *)
Definition stays_in (top : string) (w w' : world) : Prop :=
  wf_fs (fs w) -> wf_fs (fs w') /\ confined top (fs w) (fs w').

(** An event other than a reply. *)
Definition not_reply (ev : event) : Prop :=
  match ev with Tg (reply _) _ => False | _ => True end.

(** An event other than a progress update. *)
Definition not_progress (ev : event) : Prop :=
  match ev with Tg (edit_text (Progress _ _ _ _)) _ => False | _ => True end.

(** ** The menu: [start_command] and the callbacks of its buttons

    The handlers of the menu are straight-line programs: a few calls on
    the Telegram session, awaited one after the other.  The first call
    that raises ends the handler. *)

Module Menu.

(** [InlineKeyboardButton(text, callback_data=...)] *)
Record button := Button {
  label : string;
  callback_data : string
}.

(** [InlineKeyboardMarkup(rows)] *)
Definition markup : Type := list (list button).

(** The calls of the menu handlers: [message.reply_text],
    [callback_query.answer] and [callback_query.message.edit_text]. *)
Inductive call :=
| reply_text (text : string) (reply_markup : option markup)
| answer
| edit_text (text : string) (reply_markup : option markup).

(** What was called so far, each call with its failure if it raised. *)
Definition log : Type := list (call * option exn).

(** The Telegram server: the failure of a call, given what happened so far. *)
Definition session : Type := log -> call -> option exn.

(** A handler takes the log to its outcome and to the log it leaves. *)
Definition handler : Type := session -> log -> result unit * log.

(** The calls are awaited in order; the first that raises ends the handler. *)
Fixpoint perform (calls : list call) (S : session) (done : log) : result unit * log :=
  match calls with
  | [] => (Ok tt, done)
  | c :: rest =>
      match S done c with
      | None => perform rest S (done ++ [(c, None)])
      | Some e => (Raise e, done ++ [(c, Some e)])
      end
  end.

Definition LF : string := String (ascii_of_nat 10) EmptyString.

Definition start_command : handler :=
  let welcome_text :=
    "👋 Hi there! I am your Mega.nz file downloader bot. " +:+ LF +:+ LF
    +:+ "🔗 Send me a Mega.nz link, and I'll download and send the file to you." +:+ LF
    +:+ LF +:+ "For help or more information, use the buttons below." in
  let keyboard :=
    [[Button "ℹ️ Help" "help"];
     [Button "📄 About" "about"];
     [Button "❌ Cancel" "cancel"]] in
  perform [reply_text welcome_text (Some keyboard)].

Definition help_callback : handler :=
  let help_text :=
    "🛠️ **Help**" +:+ LF +:+ LF +:+ "1. Send a valid Mega.nz link (file or folder)." +:+ LF
    +:+ "2. The bot will download and send the file to you." +:+ LF
    +:+ "3. Files larger than 2 GB will be split into chunks for upload." +:+ LF
    +:+ "4. For ZIP files, they will be extracted and sent as individual files." +:+ LF
    +:+ LF +:+ "If you need assistance, contact support." in
  let keyboard := [[Button "🔙 Back" "back"]] in
  perform [answer; edit_text help_text (Some keyboard)].

Definition about_callback : handler :=
  let about_text :=
    "🔹 **About**" +:+ LF +:+ LF
    +:+ "I am a bot that helps you download files from Mega.nz and send them to you on Telegram."
    +:+ LF +:+ "I can handle files up to 2 GB and will split larger files for uploading."
    +:+ LF +:+ LF +:+ "Created with ❤️ by @NT_BOT_CHANNEL" in
  let keyboard := [[Button "🔙 Back" "back"]] in
  perform [answer; edit_text about_text (Some keyboard)].

Definition cancel_callback : handler :=
  let cancel_text :=
    "❌ **Action Cancelled**" +:+ LF +:+ LF
    +:+ "The current action has been cancelled. You can start over or request help if needed." in
  perform [answer; edit_text cancel_text None].

Definition back_callback : handler :=
  let start_text :=
    "👋 Hi there! I am your Mega.nz file downloader bot. " +:+ LF +:+ LF
    +:+ "🔗 Send me a Mega.nz link, and I'll download and send the file to you." +:+ LF
    +:+ LF +:+ "For help or more information, use the buttons below." in
  let keyboard :=
    [[Button "ℹ️ Help" "help"];
     [Button "📄 About" "about"];
     [Button "❌ Cancel" "cancel"]] in
  perform [answer; edit_text start_text (Some keyboard)].

(** [filters.regex(pattern)] on a callback query: the pattern is
    searched in the data of the button that was pressed.  The patterns
    of the menu are plain words. *)
Definition regex (pattern data : string) : bool :=
  match Re.search (Re.Lit pattern) data with
  | Some _ => true
  | None => false
  end.

(** The callback handlers behind their filters, in the order in which
    the decorators register them. *)
Definition on_callback_query : list (string * handler) :=
  [("help", help_callback);
   ("about", about_callback);
   ("cancel", cancel_callback);
   ("back", back_callback)].

(** The dispatcher runs the first handler whose filter lets the update
    through, and no other. *)
Fixpoint dispatch (handlers : list (string * handler)) (data : string) : option handler :=
  match handlers with
  | [] => None
  | (pattern, h) :: rest => if regex pattern data then Some h else dispatch rest data
  end.

(** What a message shows: its text and its keyboard. *)
Definition screen : Type := (string * option markup)%type.

Definition buttons (s : screen) : list button :=
  match snd s with
  | Some rows => List.concat rows
  | None => []
  end.

(** What the message shows after the calls of a log, when it showed [s]
    before them: every reply or edit that went through sets it. *)
Fixpoint shown (calls : log) (s : option screen) : option screen :=
  match calls with
  | [] => s
  | (reply_text text reply_markup, None) :: calls' => shown calls' (Some (text, reply_markup))
  | (edit_text text reply_markup, None) :: calls' => shown calls' (Some (text, reply_markup))
  | _ :: calls' => shown calls' s
  end.

(** The calls a handler added to the log. *)
Definition added (done after : log) : log := List.skipn (List.length done) after.

(** One press of a button of the message: the handler that the
    dispatcher picks runs, and the message shows what its calls left. *)
Inductive press : screen -> screen -> Prop :=
| press_button s b h S done r after s' :
    In b (buttons s) ->
    dispatch on_callback_query (callback_data b) = Some h ->
    h S done = (r, after) ->
    shown (added done after) (Some s) = Some s' ->
    press s s'.

(** The screens a message of the menu can come to show: the one
    [start_command] sends, and whatever presses of its buttons make of it. *)
Inductive reachable : screen -> Prop :=
| reach_start S done r after s :
    start_command S done = (r, after) ->
    shown (added done after) None = Some s ->
    reachable s
| reach_press s s' : reachable s -> press s s' -> reachable s'.

(** What a handler leaves on the screen when all its calls go through. *)
Definition sends (h : handler) : option screen :=
  shown (snd (h (fun _ _ => None) [])) None.

(** The filters that let a callback through. *)
Definition accepting (data : string) : list string :=
  List.map fst (List.filter (fun ph => regex (fst ph) data) on_callback_query).

End Menu.

(** * Properties *)

(** ** Reasoning about runs *)

Lemma bind_run {A B} (m : M A) (f : A -> M B) w r w' :
  bind m f w = (r, w') ->
  (exists a w1, m w = (Ok a, w1) /\ f a w1 = (r, w'))
  \/ (exists e, m w = (Raise e, w') /\ r = Raise e)
  \/ (m w = (OutOfFuel, w') /\ r = OutOfFuel).
Proof.
  unfold bind. destruct (m w) as [[a|e|] w1]; intros H.
  - left. eauto.
  - right. left. inversion H; subst. eauto.
  - right. right. inversion H; subst. eauto.
Qed.

Lemma fs_op_run op ev w r w' :
  fs_op op ev w = (r, w') ->
  (exists m, op (fs w) = inr m /\ r = Ok tt /\ w' = World m (trace w ++ [ev]))
  \/ (exists e, op (fs w) = inl e /\ r = Raise e /\ w' = w).
Proof.
  unfold fs_op. destruct (op (fs w)) as [e|m]; intros H; inversion H; subst; eauto.
Qed.

Lemma tg_run E c w r w' :
  tg E c w = (r, w') ->
  w' = World (fs w) (trace w ++ [Tg c (telegram E (trace w) c)])
  /\ r = match telegram E (trace w) c with None => Ok tt | Some e => Raise e end.
Proof.
  unfold tg. destruct (telegram E (trace w) c); intros H; inversion H; subst; auto.
Qed.

Lemma emitted_app w w' evs :
  trace w' = trace w ++ evs -> emitted w w' = evs.
Proof.
  unfold emitted. intros ->. rewrite List.skipn_app, List.skipn_all, Nat.sub_diag. reflexivity.
Qed.

(** ** The chunk splitter *)

Lemma read_bytes_spec f : forall n chunk rest,
  read_bytes n f = (chunk, rest) ->
  chunk ++ rest = f
  /\ Z.of_nat (List.length chunk) = Z.min (Z.max n 0) (Z.of_nat (List.length f)).
Proof.
  induction f as [|b f IH]; intros n chunk rest H; simpl in H.
  - inversion H; subst. simpl. split; [reflexivity | lia].
  - destruct (n <=? 0) eqn:Hn.
    + apply Z.leb_le in Hn. inversion H; subst. simpl. split; [reflexivity | lia].
    + apply Z.leb_gt in Hn. destruct (read_bytes (n - 1) f) as [c r] eqn:Hr.
      inversion H; subst. destruct (IH _ _ _ Hr) as [Happ Hlen].
      simpl. split; [congruence | ]. cbn [List.length]. lia.
Qed.

Lemma read_spec C f chunk rest :
  0 < C -> read C f = (chunk, rest) ->
  chunk ++ rest = f
  /\ Z.of_nat (List.length chunk) = Z.min C (Z.of_nat (List.length f)).
Proof.
  intros HC. unfold read. destruct (C <? 0) eqn:Hn; [apply Z.ltb_lt in Hn; lia | ].
  intros H. apply read_bytes_spec in H. destruct H as [H1 H2]. split; [exact H1 | lia].
Qed.

Lemma chunking_nil C : 0 < C -> chunking C [] [].
Proof.
  intros HC. repeat split; simpl; try constructor.
  unfold ceil_div. simpl. symmetry. apply Z.div_small. lia.
Qed.

Lemma chunking_cons C chunk rest chunks :
  0 < C -> chunk <> [] ->
  Z.of_nat (List.length chunk) = Z.min C (Z.of_nat (List.length (chunk ++ rest))) ->
  chunking C rest chunks ->
  chunking C (chunk ++ rest) (chunk :: chunks).
Proof.
  intros HC Hne Hlen (Hcat & Hn & Hall & Hbnd).
  assert (Hpos : 0 < Z.of_nat (List.length chunk)) by (destruct chunk; [congruence | cbn [List.length]; lia]).
  rewrite List.length_app in Hlen.
  repeat split.
  - simpl. congruence.
  - cbn [List.length]. rewrite Nat2Z.inj_succ, Hn. unfold ceil_div.
    rewrite List.length_app, Nat2Z.inj_add.
    destruct (Z.le_gt_cases C (Z.of_nat (List.length chunk + List.length rest))) as [Hle | Hgt].
    + assert (Z.of_nat (List.length chunk) = C) by lia.
      replace (Z.of_nat (List.length chunk) + Z.of_nat (List.length rest) + C - 1)
        with (Z.of_nat (List.length rest) + C - 1 + 1 * C) by lia.
      rewrite Z.div_add by lia. lia.
    + assert (List.length rest = 0%nat) by lia.
      replace (Z.of_nat (List.length rest)) with 0 by lia.
      rewrite Z.div_small by lia.
      replace (Z.of_nat (List.length chunk) + 0 + C - 1)
        with (Z.of_nat (List.length chunk) - 1 + 1 * C) by lia.
      rewrite Z.div_add by lia. rewrite Z.div_small by lia. lia.
  - destruct chunks as [|c cs]; [constructor | ].
    change (List.removelast (chunk :: c :: cs)) with (chunk :: List.removelast (c :: cs)).
    constructor; [ | exact Hall].
    assert (0 < Z.of_nat (List.length rest)).
    { subst rest. inversion Hbnd; subst. simpl. rewrite List.length_app. lia. }
    lia.
  - constructor; [lia | exact Hbnd].
Qed.

Lemma fs_op_then {B} op ev (k : unit -> M B) w r w' :
  bind (fs_op op ev) k w = (r, w') ->
  (exists m, op (fs w) = inr m /\ k tt (World m (trace w ++ [ev])) = (r, w'))
  \/ (exists e, op (fs w) = inl e /\ r = Raise e /\ w' = w).
Proof.
  unfold bind, fs_op. destruct (op (fs w)) as [e|m]; intros H.
  - right. inversion H; subst. eauto.
  - left. eauto.
Qed.

Lemma tg_then {B} E c (k : unit -> M B) w r w' :
  bind (tg E c) k w = (r, w') ->
  (telegram E (trace w) c = None
   /\ k tt (World (fs w) (trace w ++ [Tg c None])) = (r, w'))
  \/ (exists e, telegram E (trace w) c = Some e /\ r = Raise e
      /\ w' = World (fs w) (trace w ++ [Tg c (Some e)])).
Proof.
  unfold bind, tg. destruct (telegram E (trace w) c) as [e|]; intros H.
  - right. inversion H; subst. eauto.
  - left. eauto.
Qed.

Lemma split_loop_sound E C path base size :
  0 < C ->
  forall fuel f idx w r w',
    (List.length f < fuel)%nat ->
    split_loop E C fuel path base size f idx w = (r, w') ->
    exists evs, trace w' = trace w ++ evs /\ split_run C path base size f idx r evs.
Proof.
  intros HC. induction fuel as [|fuel IH]; intros f idx w r w' Hfuel H; [lia | ].
  simpl in H. destruct (read C f) as [chunk f'] eqn:Hread.
  destruct (read_spec _ _ _ _ HC Hread) as [Happ Hlen].
  destruct chunk as [|b chunk].
  - inversion H; subst. exists []. rewrite List.app_nil_r.
    split; [reflexivity | ]. eapply split_done; eauto.
  - assert (Hne : b :: chunk <> []) by discriminate.
    unfold write_file, os_remove in H.
    apply fs_op_then in H. destruct H as [(m & Hm & H) | (e & Hm & -> & ->)].
    2:{ exists []. rewrite List.app_nil_r. split; [reflexivity | ].
        eapply split_write_failed; eauto. }
    apply tg_then in H. cbn [trace fs] in H.
    destruct H as [(Hsend & H) | (e & Hsend & -> & ->)].
    2:{ eexists. cbn [trace]. rewrite <- List.app_assoc. split; [reflexivity | ].
        eapply split_send_failed; eauto. }
    apply fs_op_then in H. cbn [trace fs] in H.
    destruct H as [(m3 & Hm3 & H) | (e & Hm3 & -> & ->)].
    2:{ eexists. cbn [trace]. rewrite <- List.app_assoc. split; [reflexivity | ].
        eapply split_remove_failed; eauto. }
    assert (Hf' : (List.length f' < fuel)%nat).
    { subst f. rewrite List.length_app in Hfuel. cbn [List.length] in *. lia. }
    destruct (IH _ _ _ _ _ Hf' H) as (evs & Htr & Hrun). cbn [trace] in Htr.
    eexists. split; [rewrite Htr; rewrite <- !List.app_assoc; reflexivity | ].
    eapply split_round; eauto.
Qed.

Lemma split_run_chunking C path base size f idx r evs :
  0 < C ->
  split_run C path base size f idx r evs ->
  r = Ok tt -> chunking C f (wrote_payloads evs).
Proof.
  intros HC Hrun. induction Hrun as [f idx rest Hread | | | | f idx chunk rest r evs Hread Hne Hrun IH];
    intros Hr; try discriminate.
  - destruct (read_spec _ _ _ _ HC Hread) as [Happ Hlen]. simpl in *. subst rest.
    destruct f; [apply chunking_nil; exact HC | simpl in Hlen; lia].
  - destruct (read_spec _ _ _ _ HC Hread) as [Happ Hlen]. simpl.
    rewrite <- Happ. apply chunking_cons; auto. rewrite Happ. exact Hlen.
Qed.


Lemma getsize_run E path w r w' :
  os_path_getsize E path w = (r, w') ->
  w' = w
  /\ match get (fs w) (Path.resolve path) with
     | Some (File data) => r = Ok (Z.of_nat (List.length data))
     | Some Dir => r = Ok (dir_size E)
     | None => r = Raise (ENOENT path)
     end.
Proof.
  unfold os_path_getsize. destruct (get (fs w) (Path.resolve path)) as [[data|]|];
    intros H; inversion H; subst; auto.
Qed.

Lemma open_rb_run path w r w' :
  open_rb path w = (r, w') ->
  w' = w
  /\ match get (fs w) (Path.resolve path) with
     | Some (File data) => r = Ok data
     | Some Dir => r = Raise (EISDIR path)
     | None => r = Raise (ENOENT path)
     end.
Proof.
  unfold open_rb. destruct (get (fs w) (Path.resolve path)) as [[data|]|];
    intros H; inversion H; subst; auto.
Qed.



Lemma ceil_div_nonneg L C : 0 < C -> 0 <= L -> 0 <= ceil_div L C.
Proof. intros HC HL. unfold ceil_div. apply Z.div_pos; lia. Qed.

Lemma ceil_div_pos L C : 0 < C -> 0 < L -> 1 <= ceil_div L C.
Proof.
  intros HC HL. unfold ceil_div.
  replace (L + C - 1) with (L - 1 + 1 * C) by lia.
  rewrite Z.div_add by lia.
  assert (0 <= (L - 1) / C) by (apply Z.div_pos; lia). lia.
Qed.

Lemma ceil_div_peel L C k :
  0 < C -> 0 < k -> k = Z.min C L -> ceil_div L C = 1 + ceil_div (L - k) C.
Proof.
  intros HC Hk Hmin. unfold ceil_div.
  destruct (Z.le_gt_cases C L) as [Hle | Hgt].
  - assert (k = C) by lia. clear Hmin. subst k.
    replace (L + C - 1) with (L - C + C - 1 + 1 * C) by lia.
    rewrite Z.div_add by lia. apply Z.add_comm.
  - assert (k = L) by lia. clear Hmin. subst k.
    replace (L - L + C - 1) with (C - 1) by lia.
    rewrite (Z.div_small (C - 1)) by lia.
    replace (L + C - 1) with (L - 1 + 1 * C) by lia.
    rewrite Z.div_add by lia. rewrite Z.div_small by lia. lia.
Qed.

Lemma split_run_sent C path base size f idx r evs :
  split_run C path base size f idx r evs ->
  sent evs = part_sends C path base size idx (List.length (sent evs))
  /\ (List.length (sent evs) <= List.length (wrote_payloads evs))%nat
  /\ (r = Ok tt -> List.length (sent evs) = List.length (wrote_payloads evs)).
Proof.
  induction 1 as [ | | | | f idx chunk rest r evs Hread Hne Hrun IH]; simpl.
  - split; [reflexivity | ]. split; [lia | reflexivity].
  - split; [reflexivity | ]. split; [lia | reflexivity].
  - split; [reflexivity | ]. split; [lia | discriminate].
  - split; [reflexivity | ]. split; [lia | discriminate].
  - destruct IH as (IH1 & IH2 & IH3). split; [f_equal; exact IH1 | ].
    split; [lia | ]. intros Hr. rewrite (IH3 Hr). reflexivity.
Qed.

Lemma split_run_count C path base size f idx r evs :
  0 < C ->
  split_run C path base size f idx r evs ->
  Z.of_nat (List.length (wrote_payloads evs)) <= ceil_div (Z.of_nat (List.length f)) C.
Proof.
  intros HC. induction 1 as [f idx rest Hread | f idx chunk rest e Hread Hne
    | f idx chunk rest e Hread Hne | f idx chunk rest e Hread Hne
    | f idx chunk rest r evs Hread Hne Hrun IH];
    destruct (read_spec _ _ _ _ HC Hread) as [Happ Hlen]; simpl.
  - apply ceil_div_nonneg; lia.
  - apply ceil_div_nonneg; lia.
  - apply ceil_div_pos; [lia | ]. subst f. destruct chunk; [congruence | ].
    rewrite List.length_app. cbn [List.length]. lia.
  - apply ceil_div_pos; [lia | ]. subst f. destruct chunk; [congruence | ].
    rewrite List.length_app. cbn [List.length]. lia.
  - assert (0 < Z.of_nat (List.length chunk)) by (destruct chunk; [congruence | cbn [List.length]; lia]).
    rewrite (ceil_div_peel _ C (Z.of_nat (List.length chunk))); [ | lia | lia | exact Hlen].
    replace (Z.of_nat (List.length f) - Z.of_nat (List.length chunk))
      with (Z.of_nat (List.length rest)); [lia | ].
    subst f. rewrite List.length_app. lia.
Qed.

Lemma split_and_upload_at_run E C path data w r w' :
  0 < C ->
  get (fs w) (Path.resolve path) = Some (File data) ->
  split_and_upload_at E C path w = (r, w') ->
  (exists e, r = Raise e /\ emitted w w' = [Tg (edit_text split_notice) (Some e)])
  \/ exists evs,
       emitted w w' = Tg (edit_text split_notice) None :: evs
       /\ split_run C path (Path.basename path) (Z.of_nat (List.length data)) data 0 r evs.
Proof.
  intros HC Hfile H. unfold split_and_upload_at in H.
  apply bind_run in H. destruct H as [(size & w1 & H1 & H) | [(e & H1 & ->) | (H1 & ->)]];
    apply getsize_run in H1; destruct H1 as [-> Hsize]; rewrite Hfile in Hsize;
    try discriminate.
  inversion Hsize; subst size.
  apply tg_then in H. destruct H as [(Hedit & H) | (e & Hedit & -> & ->)].
  2:{ left. exists e. rewrite (emitted_app _ _ [Tg (edit_text split_notice) (Some e)]) by reflexivity.
      auto. }
  apply bind_run in H. destruct H as [(f & w2 & H2 & H) | [(e & H2 & ->) | (H2 & ->)]];
    apply open_rb_run in H2; cbn [fs trace] in H2; destruct H2 as [-> Hopen];
    rewrite Hfile in Hopen; try discriminate.
  inversion Hopen; subst f.
  apply split_loop_sound in H; [ | exact HC | lia].
  destruct H as (evs & Htr & Hrun). cbn [trace] in Htr.
  right. exists evs. split; [ | exact Hrun].
  apply emitted_app. rewrite Htr, <- List.app_assoc. reflexivity.
Qed.

(** C3, at a file of exactly 4 GiB.  The file is cut into two chunks,
    named [<file>.part0] and [<file>.part1], and sent in that order; the
    captions count three parts: "Part 1/3" and "Part 2/3".  The total of
    the caption is [file_size // chunk_size + 1], which is one more than
    the number of chunks whenever the size is a multiple of 2 GiB. *)
Theorem split_caption_counts_one_part_too_many E file_path data w r w' :
  get (fs w) (Path.resolve file_path) = Some (File data) ->
  Z.of_nat (List.length data) = 2 * two_gb ->
  split_and_upload E file_path w = (r, w') ->
  ceil_div (Z.of_nat (List.length data)) two_gb = 2
  /\ exists n,
       (n <= 2)%nat
       /\ sent (emitted w w')
          = List.firstn n
              [(file_path +:+ ".part0", "Part 1/3 of " +:+ Path.basename file_path);
               (file_path +:+ ".part1", "Part 2/3 of " +:+ Path.basename file_path)]
       /\ (r = Ok tt -> n = 2%nat).
Proof.
  intros Hfile Hlen H. split; [rewrite Hlen; reflexivity | ].
  assert (HC : 0 < two_gb) by reflexivity.
  unfold split_and_upload in H.
  destruct (split_and_upload_at_run _ _ _ _ _ _ _ HC Hfile H)
    as [(e & -> & Hsent) | (evs & Hem & Hrun)].
  - exists 0%nat. rewrite Hsent. split; [lia | ]. split; [reflexivity | discriminate].
  - rewrite Hem. cbn [sent].
    destruct (split_run_sent _ _ _ _ _ _ _ _ Hrun) as (Hs & Hle & Heq).
    pose proof (split_run_count _ _ _ _ _ _ _ _ HC Hrun) as Hcount.
    assert (Hceil : ceil_div (Z.of_nat (List.length data)) two_gb = 2)
      by (rewrite Hlen; reflexivity).
    exists (List.length (sent evs)). split; [lia | ]. split.
    + rewrite Hs at 1. rewrite Hlen.
      destruct (List.length (sent evs)) as [|[|[|n]]]; try lia; reflexivity.
    + intros Hr. specialize (Heq Hr).
      pose proof (split_run_chunking _ _ _ _ _ _ _ _ HC Hrun Hr) as (_ & Hn & _).
      lia.
Qed.

Lemma staged_lookup name data :
  get (fs (Sample.staged name data)) ["downloads"; name] = Some (File data).
Proof. unfold Sample.staged. cbn [fs get]. apply lookup_insert_eq. Qed.

Lemma four_gib_length : Z.of_nat (List.length Sample.four_gib) = 2 * two_gb.
Proof.
  unfold Sample.four_gib. rewrite List.repeat_length. apply Z2Nat.id.
  vm_compute. discriminate.
Qed.

Lemma split_caption_counts_one_part_too_many_witness :
  ceil_div (Z.of_nat (List.length Sample.four_gib)) two_gb = 2
  /\ exists n,
       (n <= 2)%nat
       /\ sent (emitted (Sample.staged "big.bin" Sample.four_gib)
                  (snd (split_and_upload Sample.quiet "downloads/big.bin"
                          (Sample.staged "big.bin" Sample.four_gib))))
          = List.firstn n
              [("downloads/big.bin" +:+ ".part0", "Part 1/3 of " +:+ Path.basename "downloads/big.bin");
               ("downloads/big.bin" +:+ ".part1", "Part 2/3 of " +:+ Path.basename "downloads/big.bin")]
       /\ (fst (split_and_upload Sample.quiet "downloads/big.bin"
                  (Sample.staged "big.bin" Sample.four_gib)) = Ok tt -> n = 2%nat).
Proof.
  apply (split_caption_counts_one_part_too_many Sample.quiet "downloads/big.bin"
           Sample.four_gib (Sample.staged "big.bin" Sample.four_gib)).
  - replace (Path.resolve "downloads/big.bin") with ["downloads"; "big.bin"]
      by (vm_compute; reflexivity).
    apply staged_lookup.
  - apply four_gib_length.
  - apply surjective_pairing.
Defined.

(** ** The progress monitor *)

Lemma tg_swallowed E c w :
  try_except (tg E c) (fun _ => ret tt) w
  = (Ok tt, World (fs w) (trace w ++ [Tg c (telegram E (trace w) c)])).
Proof. unfold try_except, tg. destruct (telegram E (trace w) c); reflexivity. Qed.

Lemma percentage_full size : 0 < size -> Qeq (percentage size size) (inject_Z 100).
Proof.
  intros Hpos. unfold percentage.
  destruct (size >? 0) eqn:Hgt; [ | rewrite Z.gtb_ltb in Hgt; apply Z.ltb_ge in Hgt; lia].
  unfold Qdiv. rewrite Qmult_inv_r.
  - apply Qmult_1_l.
  - unfold Qeq, inject_Z. simpl. lia.
Qed.

Lemma percentage_empty : percentage 0 0 = inject_Z 0.
Proof. reflexivity. Qed.

(** C10. The monitor takes the size of the file at its invocation as the
    size to reach; on an existing file the first poll already meets it,
    so the monitor attempts exactly one progress update (100% for a
    non-empty file, 0% for an empty one), does not sleep, and returns. *)
Theorem progress_single_update E fuel file_path task_type data w r w' :
  get (fs w) (Path.resolve file_path) = Some (File data) ->
  update_progress E (S fuel) file_path task_type w = (r, w') ->
  r = Ok tt
  /\ fs w' = fs w
  /\ (exists pct failure,
        emitted w w'
        = [Tg (edit_text (Progress task_type pct
                            (Z.of_nat (List.length data) / (1024 * 1024))
                            (Z.of_nat (List.length data) / (1024 * 1024)))) failure]
        /\ (data <> [] -> Qeq pct (inject_Z 100))
        /\ (data = [] -> pct = inject_Z 0)).
Proof.
  intros Hfile H. unfold update_progress in H.
  apply bind_run in H. destruct H as [(size & w1 & H1 & H) | [(e & H1 & ->) | (H1 & ->)]];
    apply getsize_run in H1; destruct H1 as [-> Hsize]; rewrite Hfile in Hsize;
    try discriminate.
  inversion Hsize; subst size. clear Hsize.
  cbn [progress_loop] in H. unfold bind at 1 in H. unfold os_path_exists in H.
  rewrite Hfile in H. unfold bind at 1 in H. unfold os_path_getsize in H.
  rewrite Hfile in H. unfold bind at 1 in H. rewrite tg_swallowed in H.
  rewrite (proj2 (Z.geb_le _ _)) in H by lia.
  inversion H; subst. cbn [fs]. split; [reflexivity | ]. split; [reflexivity | ].
  eexists _, _. split; [apply emitted_app; reflexivity | ]. split.
  - intros Hne. apply percentage_full. destruct data; [congruence | cbn [List.length]; lia].
  - intros ->. reflexivity.
Qed.

Lemma progress_single_update_witness :
  fst (update_progress Sample.quiet 1 "downloads/a.bin" "Download" Sample.three_bytes) = Ok tt
  /\ fs (snd (update_progress Sample.quiet 1 "downloads/a.bin" "Download" Sample.three_bytes))
     = fs Sample.three_bytes
  /\ (exists pct failure,
        emitted Sample.three_bytes
          (snd (update_progress Sample.quiet 1 "downloads/a.bin" "Download" Sample.three_bytes))
        = [Tg (edit_text (Progress "Download" pct
                            (Z.of_nat (List.length [x01; x02; x03]%byte) / (1024 * 1024))
                            (Z.of_nat (List.length [x01; x02; x03]%byte) / (1024 * 1024)))) failure]
        /\ ([x01; x02; x03]%byte <> [] -> Qeq pct (inject_Z 100))
        /\ ([x01; x02; x03]%byte = [] -> pct = inject_Z 0)).
Proof.
  apply (progress_single_update Sample.quiet 0 "downloads/a.bin" "Download"
           [x01; x02; x03]%byte Sample.three_bytes).
  - vm_compute. reflexivity.
  - apply surjective_pairing.
Defined.

(** ** The link check *)

(** C4, at the file link [https://mega.nz/file/aBcD1234#xfolderKey].  The
    link is of the file form, and the handler refuses it as a folder:
    the test is ["folder" in mega_link], which looks at the whole link,
    the id and the key included.  Nothing is fetched. *)
Theorem file_link_refused_as_folder E fuel w :
  Re.search Re.mega_link "open https://mega.nz/file/aBcD1234#xfolderKey please"
  = Some "https://mega.nz/file/aBcD1234#xfolderKey"
  /\ Text.strip_prefix "https://mega.nz/file/" "https://mega.nz/file/aBcD1234#xfolderKey"
     = Some "aBcD1234#xfolderKey"
  /\ download_file E fuel "open https://mega.nz/file/aBcD1234#xfolderKey please" w
     = tg E (reply folder_refusal) w.
Proof.
  split; [vm_compute; reflexivity | ]. split; [vm_compute; reflexivity | ].
  unfold download_file.
  replace (Re.search Re.mega_link "open https://mega.nz/file/aBcD1234#xfolderKey please")
    with (Some "https://mega.nz/file/aBcD1234#xfolderKey") by (vm_compute; reflexivity).
  cbv beta iota.
  replace (Text.contains "folder" "https://mega.nz/file/aBcD1234#xfolderKey")
    with true by (vm_compute; reflexivity).
  reflexivity.
Qed.

(** ** Paths and their components *)

Lemma pieces_nonempty s : Path.pieces s <> [].
Proof.
  destruct s as [|c s]; simpl; [discriminate | ].
  destruct (Ascii.eqb c Path.slash); [discriminate | ].
  destruct (Path.pieces s); discriminate.
Qed.

Lemma pieces_slash_free s : Path.slash_free s = true -> Path.pieces s = [s].
Proof.
  induction s as [|c s IH]; simpl; [reflexivity | ].
  destruct (Ascii.eqb c Path.slash); simpl; [discriminate | ].
  intros H. rewrite (IH H). reflexivity.
Qed.

Lemma pieces_all_slash_free s :
  List.Forall (fun c => Path.slash_free c = true) (Path.pieces s).
Proof.
  induction s as [|c s IH]; simpl; [repeat constructor | ].
  destruct (Ascii.eqb c Path.slash) eqn:Hc.
  - constructor; [reflexivity | exact IH].
  - destruct (Path.pieces s) as [|h t]; [repeat constructor; simpl; rewrite Hc; reflexivity | ].
    inversion IH; subst. constructor; [simpl; rewrite Hc; assumption | assumption].
Qed.

Lemma resolve_names_ok s :
  List.Forall (fun c => Path.name_ok c = true) (Path.resolve s).
Proof.
  unfold Path.resolve. pose proof (pieces_all_slash_free s) as H.
  induction H as [|c l Hc Hl IH]; simpl; [constructor | ].
  destruct (Path.nonempty c) eqn:Hn; [ | exact IH].
  constructor; [ | exact IH]. unfold Path.name_ok. rewrite Hn, Hc. reflexivity.
Qed.

Lemma append_empty_r (s : string) : s +:+ "" = s.
Proof.
  induction s as [|c s IH]; [reflexivity | ].
  change (String c s +:+ "") with (String c (s +:+ "")). rewrite IH. reflexivity.
Qed.

Lemma pieces_app a b :
  Path.pieces (a +:+ b)
  = List.removelast (Path.pieces a)
    ++ (List.last (Path.pieces a) "" +:+ List.hd "" (Path.pieces b))
       :: List.tl (Path.pieces b).
Proof.
  induction a as [|c a IH].
  - change ("" +:+ b) with b. simpl.
    pose proof (pieces_nonempty b). destruct (Path.pieces b); [congruence | reflexivity].
  - change (String c a +:+ b) with (String c (a +:+ b)).
    cbn [Path.pieces]. rewrite IH. clear IH.
    pose proof (pieces_nonempty a) as Hne.
    destruct (Ascii.eqb c Path.slash).
    + destruct (Path.pieces a) as [|h t]; [congruence | ]. reflexivity.
    + destruct (Path.pieces a) as [|h t]; [congruence | ].
      destruct t as [|h' t]; reflexivity.
Qed.

Lemma ends_with_slash_inv a :
  Path.ends_with_slash a = true -> exists a0, a = a0 +:+ "/".
Proof.
  induction a as [|c a IH]; [discriminate | ].
  cbn [Path.ends_with_slash]. destruct a as [|c' a].
  - intros H. apply Ascii.eqb_eq in H. subst c. exists "". reflexivity.
  - intros H. destruct (IH H) as [a0 Ha0]. exists (String c a0).
    rewrite Ha0. reflexivity.
Qed.

Lemma last_snoc {A} (l : list A) (x d : A) : List.last (l ++ [x]) d = x.
Proof. induction l as [|y l IH]; [reflexivity | ]. simpl. destruct (l ++ [x]) eqn:E; [destruct l; discriminate | exact IH]. Qed.

Lemma ends_with_slash_last a :
  Path.ends_with_slash a = true -> List.last (Path.pieces a) "" = "".
Proof.
  intros H. destruct (ends_with_slash_inv _ H) as [a0 ->].
  rewrite pieces_app.
  change (Path.pieces "/") with ["" ; ""]. cbn [List.hd List.tl].
  change (?l ++ ?x :: [""]) with (l ++ [x] ++ [""]).
  rewrite List.app_assoc. apply last_snoc.
Qed.

Lemma name_ok_inv name :
  Path.name_ok name = true ->
  Path.nonempty name = true /\ Path.slash_free name = true
  /\ Path.starts_with_slash name = false.
Proof.
  unfold Path.name_ok. intros H. apply andb_prop in H. destruct H as [Hn Hs].
  split; [exact Hn | ]. split; [exact Hs | ].
  destruct name as [|c s]; [reflexivity | ]. simpl in *.
  apply andb_prop in Hs. destruct Hs as [Hc _].
  destruct (Ascii.eqb c Path.slash); [discriminate | reflexivity].
Qed.

Lemma resolve_snoc l name :
  Path.nonempty name = true ->
  List.filter Path.nonempty (l ++ [name]) = List.filter Path.nonempty l ++ [name].
Proof. intros H. rewrite List.filter_app. simpl. rewrite H. reflexivity. Qed.

(** [os.path.join(root, name)] names the entry [name] of [root]. *)
Lemma resolve_join root name :
  Path.name_ok name = true ->
  Path.resolve (Path.join root name) = Path.resolve root ++ [name].
Proof.
  intros Hok. destruct (name_ok_inv _ Hok) as (Hn & Hs & Hst).
  unfold Path.join. rewrite Hst.
  pose proof (pieces_nonempty root) as Hne.
  destruct (negb (Path.nonempty root) || Path.ends_with_slash root) eqn:Hcase.
  - unfold Path.resolve. rewrite pieces_app, (pieces_slash_free _ Hs).
    cbn [List.hd List.tl].
    assert (Hlast : List.last (Path.pieces root) "" = "").
    { apply orb_prop in Hcase. destruct Hcase as [Hempty | Hslash].
      - destruct root; [reflexivity | discriminate].
      - apply ends_with_slash_last. exact Hslash. }
    rewrite Hlast. change ("" +:+ name) with name.
    rewrite (resolve_snoc _ _ Hn). f_equal.
    rewrite (List.app_removelast_last "" Hne) at 2. rewrite Hlast.
    rewrite List.filter_app. simpl. rewrite List.app_nil_r. reflexivity.
  - unfold Path.resolve. rewrite pieces_app.
    change (Path.pieces ("/" +:+ name)) with ("" :: Path.pieces name).
    rewrite (pieces_slash_free _ Hs). cbn [List.hd List.tl].
    rewrite append_empty_r.
    change (?l ++ ?x :: [name]) with (l ++ [x] ++ [name]).
    rewrite List.app_assoc, <- (List.app_removelast_last "" Hne).
    apply resolve_snoc. exact Hn.
Qed.

(** The chunk file of index [idx] lies beside the file and is named
    [<name of the file>.part<idx>]. *)
Lemma basename_chunk_path file_path idx :
  0 <= idx ->
  Path.basename (chunk_path file_path idx)
  = Path.basename file_path +:+ ".part" +:+ Text.str_int idx.
Proof.
  intros Hidx. unfold Path.basename, chunk_path.
  assert (Hfree : Path.slash_free (".part" +:+ Text.str_int idx) = true).
  { unfold Text.str_int. destruct (idx <? 0) eqn:Hneg; [apply Z.ltb_lt in Hneg; lia | ].
    change (".part" +:+ ?s) with (String "." (String "p" (String "a" (String "r" (String "t" s))))).
    cbn [Path.slash_free]. simpl.
    generalize (N.to_uint (Z.to_N idx)). intros u.
    unfold NilZero.string_of_uint. destruct u as [|u|u|u|u|u|u|u|u|u|u]; try reflexivity;
      simpl; induction u; simpl; auto. }
  rewrite pieces_app, (pieces_slash_free _ Hfree). cbn [List.hd List.tl].
  apply last_snoc.
Qed.

(** ** The file system: what its operations keep *)

Lemma keeps_dirs_refl m : keeps_dirs m m.
Proof. intros p H. exact H. Qed.

Lemma keeps_dirs_trans m1 m2 m3 :
  keeps_dirs m1 m2 -> keeps_dirs m2 m3 -> keeps_dirs m1 m3.
Proof. intros H12 H23 p H. apply H23, H12, H. Qed.

Lemma keeps_files_refl m : keeps_files m m.
Proof. intros p d H. eauto. Qed.

Lemma keeps_files_trans m1 m2 m3 :
  keeps_files m1 m2 -> keeps_files m2 m3 -> keeps_files m1 m3.
Proof. intros H12 H23 p d H. destruct (H12 _ _ H) as [d' H']. eapply H23, H'. Qed.

Lemma only_removes_refl m : only_removes m m.
Proof. intros p n H. exact H. Qed.

Lemma only_removes_trans m1 m2 m3 :
  only_removes m1 m2 -> only_removes m2 m3 -> only_removes m1 m3.
Proof. intros H12 H23 p n H. apply H12, H23, H. Qed.

Lemma get_key (m : fsmap) p : p <> [] -> get m p = m !! p.
Proof. destruct p; [congruence | reflexivity]. Qed.

Lemma child_name_spec d p name :
  child_name d p = Some name <-> p = d ++ [name].
Proof.
  unfold child_name. split.
  - destruct p as [|c p]; [discriminate | ].
    destruct (decide (List.removelast (c :: p) = d)) as [Hd | Hd]; [ | discriminate].
    intros H.
    assert (Hn : List.last (c :: p) "" = name) by (injection H as Hn; exact Hn).
    rewrite <- Hd, <- Hn. apply List.app_removelast_last. discriminate.
  - intros ->. destruct (d ++ [name]) eqn:E; [destruct d; discriminate | ].
    rewrite <- E. rewrite List.removelast_last, last_snoc.
    destruct (decide (d = d)); [reflexivity | congruence].
Qed.

Lemma children_spec (m : fsmap) d name n :
  (name, n) ∈ children m d <-> m !! (d ++ [name]) = Some n.
Proof.
  unfold children. rewrite list_elem_of_omap. split.
  - intros ([p n'] & Hin & Hf). apply elem_of_map_to_list in Hin. simpl in Hf.
    destruct (child_name d p) as [name'|] eqn:Hc; [ | discriminate].
    inversion Hf; subst. apply child_name_spec in Hc. subst p. exact Hin.
  - intros H. exists (d ++ [name], n). split; [apply elem_of_map_to_list; exact H | ].
    simpl. rewrite (proj2 (child_name_spec d (d ++ [name]) name) eq_refl). reflexivity.
Qed.

Lemma parent_snoc d (name : string) : parent (d ++ [name]) = d.
Proof. unfold parent. apply List.removelast_last. Qed.

Lemma write_spec m path data m' :
  write m path data = inr m' ->
  Path.resolve path <> []
  /\ m !! Path.resolve path <> Some Dir
  /\ get m (parent (Path.resolve path)) = Some Dir
  /\ m' = <[Path.resolve path := File data]> m.
Proof.
  unfold write. destruct (Path.resolve path) as [|c p] eqn:Hp; [simpl; discriminate | ].
  cbn [get]. destruct (m !! (c :: p)) as [[d|]|] eqn:Hget; try discriminate;
    destruct (get m (parent (c :: p))) as [[d'|]|] eqn:Hpar; try discriminate;
    intros H; inversion H; subst; repeat split; congruence.
Qed.

Lemma remove_spec m path m' :
  remove m path = inr m' ->
  exists data, m !! Path.resolve path = Some (File data)
    /\ m' = delete (Path.resolve path) m.
Proof.
  unfold remove. destruct (Path.resolve path) as [|c p] eqn:Hp; [simpl; discriminate | ].
  cbn [get]. destruct (m !! (c :: p)) as [[d|]|] eqn:Hget; try discriminate.
  intros H; inversion H; subst. eauto.
Qed.

Lemma rmdir_spec m path m' :
  rmdir m path = inr m' ->
  m !! Path.resolve path = Some Dir
  /\ children m (Path.resolve path) = []
  /\ m' = delete (Path.resolve path) m.
Proof.
  unfold rmdir. destruct (Path.resolve path) as [|c p] eqn:Hp; [discriminate | ].
  destruct (m !! (c :: p)) as [[d|]|] eqn:Hget; try discriminate.
  destruct (children m (c :: p)) eqn:Hch; [ | discriminate].
  intros H; inversion H; subst. auto.
Qed.

Lemma wf_insert m p n :
  wf_fs m -> p <> [] -> List.Forall (fun c => Path.name_ok c = true) p ->
  get m (parent p) = Some Dir ->
  (forall q, parent q = p -> q <> [] -> m !! q = None \/ n = Dir) ->
  m !! p <> Some Dir \/ n = Dir ->
  wf_fs (<[p := n]> m).
Proof.
  intros Hwf Hp Hnames Hpar Hkids Hdir q nq Hq.
  assert (Hget : forall r, get m r = Some Dir -> get (<[p := n]> m) r = Some Dir).
  { intros r Hr. destruct r as [|c r]; [reflexivity | ]. cbn [get] in *.
    destruct (decide (p = c :: r)) as [-> | Hne].
    - rewrite lookup_insert_eq. destruct Hdir as [Hd | ->]; [congruence | reflexivity].
    - rewrite lookup_insert_ne by exact Hne. exact Hr. }
  destruct (decide (p = q)) as [-> | Hne].
  - split; [exact Hp | ]. split; [exact Hnames | ]. apply Hget. exact Hpar.
  - rewrite lookup_insert_ne in Hq by exact Hne.
    destruct (Hwf _ _ Hq) as (Hq1 & Hq2 & Hq3).
    split; [exact Hq1 | ]. split; [exact Hq2 | ]. apply Hget. exact Hq3.
Qed.

Lemma wf_delete m p :
  wf_fs m -> (forall q n, m !! q = Some n -> parent q <> p) ->
  wf_fs (delete p m).
Proof.
  intros Hwf Hkids q nq Hq.
  apply lookup_delete_Some in Hq. destruct Hq as [Hne Hq].
  destruct (Hwf _ _ Hq) as (Hq1 & Hq2 & Hq3).
  split; [exact Hq1 | ]. split; [exact Hq2 | ].
  destruct (parent q) as [|c r] eqn:Hpq; [reflexivity | ]. cbn [get] in *.
  rewrite lookup_delete_ne; [exact Hq3 | ].
  intros ->. apply (Hkids _ _ Hq). exact Hpq.
Qed.

Lemma write_keeps m path data m' :
  write m path data = inr m' ->
  keeps_dirs m m' /\ keeps_files m m' /\ (wf_fs m -> wf_fs m')
  /\ m' !! Path.resolve path = Some (File data).
Proof.
  intros H. apply write_spec in H. destruct H as (Hne & Hnd & Hpar & ->).
  split; [ | split; [ | split]].
  - intros p Hp. rewrite lookup_insert_ne; [exact Hp | congruence].
  - intros p d Hp. destruct (decide (Path.resolve path = p)) as [<- | Hq].
    + rewrite lookup_insert_eq. eauto.
    + rewrite lookup_insert_ne by exact Hq. eauto.
  - intros Hwf. apply wf_insert; auto.
    + apply resolve_names_ok.
    + intros q Hq Hqne.
      destruct (m !! q) as [nq|] eqn:Hmq; [ | left; reflexivity].
      exfalso. destruct (Hwf _ _ Hmq) as (_ & _ & Hq3). rewrite Hq in Hq3.
      rewrite get_key in Hq3 by exact Hne.
      (* the parent of [q] is a directory, so the path was one already *)
      congruence.
  - apply lookup_insert_eq.
Qed.

Lemma remove_keeps m path m' :
  remove m path = inr m' ->
  keeps_dirs m m' /\ only_removes m m' /\ (wf_fs m -> wf_fs m')
  /\ (forall p, p <> Path.resolve path -> m' !! p = m !! p)
  /\ m' !! Path.resolve path = None.
Proof.
  intros H. apply remove_spec in H. destruct H as (data & Hfile & ->).
  split; [ | split; [ | split; [ | split]]].
  - intros p Hp. rewrite lookup_delete_ne; [exact Hp | congruence].
  - intros p n Hp. apply lookup_delete_Some in Hp. tauto.
  - intros Hwf. apply wf_delete; [exact Hwf | ].
    intros q n Hq Hpq. destruct (Hwf _ _ Hq) as (_ & _ & Hq3).
    rewrite Hpq in Hq3. destruct (Hwf _ _ Hfile) as (Hp1 & _).
    rewrite get_key in Hq3 by exact Hp1. congruence.
  - intros p Hp. apply lookup_delete_ne. congruence.
  - apply lookup_delete_eq.
Qed.

Lemma rmdir_keeps m path m' :
  rmdir m path = inr m' ->
  only_removes m m' /\ (wf_fs m -> wf_fs m')
  /\ (forall p, p <> Path.resolve path -> m' !! p = m !! p).
Proof.
  intros H. apply rmdir_spec in H. destruct H as (Hdir & Hch & ->).
  split; [ | split].
  - intros p n Hp. apply lookup_delete_Some in Hp. tauto.
  - intros Hwf. apply wf_delete; [exact Hwf | ].
    intros q n Hq Hpq. destruct (Hwf _ _ Hq) as (Hq1 & _ & _).
    assert (Hin : (List.last q "", n) ∈ children m (Path.resolve path)).
    { apply children_spec. rewrite <- Hpq. unfold parent.
      rewrite <- List.app_removelast_last by exact Hq1. exact Hq. }
    rewrite Hch in Hin. inversion Hin.
  - intros p Hp. apply lookup_delete_ne. congruence.
Qed.

Lemma makedirs_from_keeps path : forall todo done m m',
  makedirs_from path done todo m = inr m' ->
  keeps_dirs m m' /\ keeps_files m m'
  /\ (todo <> [] -> m' !! (done ++ todo) = Some Dir)
  /\ (wf_fs m -> get m done = Some Dir ->
      List.Forall (fun c => Path.name_ok c = true) (done ++ todo) -> wf_fs m').
Proof.
  induction todo as [|c rest IH]; intros done m m' H; simpl in H.
  - inversion H; subst. split; [apply keeps_dirs_refl | ].
    split; [apply keeps_files_refl | ]. split; [congruence | auto].
  - assert (Hsnoc : (done ++ [c]) ++ rest = done ++ c :: rest)
      by (rewrite <- List.app_assoc; reflexivity).
    destruct (m !! (done ++ [c])) as [[d|]|] eqn:Hget; [discriminate | | ].
    + destruct (IH _ _ _ H) as (Hd & Hf & Hres & Hwf).
      split; [exact Hd | ]. split; [exact Hf | ]. split.
      * intros _. destruct rest as [|c' rest'].
        -- simpl in H. inversion H; subst. exact Hget.
        -- rewrite <- Hsnoc. apply Hres. discriminate.
      * intros Hw Hdone Hnames. apply Hwf; [exact Hw | | rewrite Hsnoc; exact Hnames].
        rewrite get_key by (destruct done; discriminate). exact Hget.
    + destruct (IH _ _ _ H) as (Hd & Hf & Hres & Hwf).
      assert (Hne : done ++ [c] <> []) by (destruct done; discriminate).
      split; [ | split; [ | split]].
      * intros p Hp. apply Hd. rewrite lookup_insert_ne; [exact Hp | congruence].
      * intros p d Hp. apply (Hf p d). rewrite lookup_insert_ne; [exact Hp | congruence].
      * intros _. destruct rest as [|c' rest'].
        -- simpl in H. inversion H; subst. apply lookup_insert_eq.
        -- rewrite <- Hsnoc. apply Hres. discriminate.
      * intros Hw Hdone Hnames. apply Hwf.
        -- apply wf_insert; auto.
           ++ rewrite <- Hsnoc in Hnames. apply List.Forall_app in Hnames. tauto.
           ++ rewrite parent_snoc. exact Hdone.
        -- rewrite get_key by exact Hne. apply lookup_insert_eq.
        -- rewrite Hsnoc. exact Hnames.
Qed.

Lemma makedirs_keeps m path m' :
  makedirs m path = inr m' ->
  keeps_dirs m m' /\ keeps_files m m' /\ (wf_fs m -> wf_fs m')
  /\ get m' (Path.resolve path) = Some Dir.
Proof.
  unfold makedirs. intros H.
  destruct (makedirs_from_keeps _ _ _ _ _ H) as (Hd & Hf & Hres & Hwf).
  split; [exact Hd | ]. split; [exact Hf | ]. split.
  - intros Hw. apply Hwf; [exact Hw | reflexivity | apply resolve_names_ok].
  - destruct (Path.resolve path) as [|c p] eqn:Hp; [reflexivity | ].
    cbn [get]. apply (Hres ltac:(discriminate)).
Qed.

Lemma Forall_removelast {A} (P : A -> Prop) l :
  List.Forall P l -> List.Forall P (List.removelast l).
Proof.
  induction 1 as [|x l Hx Hl IH]; [constructor | ].
  destruct l; [constructor | ]. simpl. constructor; assumption.
Qed.

Lemma extract_member_keeps dir mb m m' :
  extract_member dir mb m = inr m' ->
  keeps_dirs m m' /\ keeps_files m m' /\ (wf_fs m -> wf_fs m').
Proof.
  unfold extract_member.
  set (target := Path.join dir (arcname (fst mb))).
  destruct (makedirs_from target [] (parent (Path.resolve target)) m) as [e|m1] eqn:Hmk;
    [discriminate | ].
  destruct (makedirs_from_keeps _ _ _ _ _ Hmk) as (Hd1 & Hf1 & Hres1 & Hwf1).
  assert (Hwf1' : wf_fs m -> wf_fs m1).
  { intros Hw. apply Hwf1; [exact Hw | reflexivity | ].
    apply Forall_removelast, resolve_names_ok. }
  assert (Hpar : get m1 (parent (Path.resolve target)) = Some Dir).
  { destruct (parent (Path.resolve target)) as [|c p] eqn:Hp; [reflexivity | ].
    cbn [get]. apply (Hres1 ltac:(discriminate)). }
  destruct (snd mb) as [data|].
  - intros H. destruct (write_keeps _ _ _ _ H) as (Hd2 & Hf2 & Hwf2 & _).
    split; [eapply keeps_dirs_trans; eauto | ].
    split; [eapply keeps_files_trans; eauto | auto].
  - destruct (get m1 (Path.resolve target)) as [[d|]|] eqn:Hget; [discriminate | | ];
      intros H; inversion H; subst.
    + auto.
    + assert (Hne : Path.resolve target <> []).
      { intros E. rewrite E in Hget. discriminate. }
      rewrite get_key in Hget by exact Hne.
      split; [ | split].
      * intros p Hp. rewrite lookup_insert_ne; [apply Hd1; exact Hp | ].
        intros <-. apply Hd1 in Hp. congruence.
      * intros p d Hp. destruct (Hf1 _ _ Hp) as [d' Hd'].
        exists d'. rewrite lookup_insert_ne; [exact Hd' | congruence].
      * intros Hw. apply wf_insert; auto. apply resolve_names_ok.
Qed.

Lemma extract_members_keeps dir : forall mbs m m' err,
  extract_members dir mbs m = (m', err) ->
  keeps_dirs m m' /\ keeps_files m m' /\ (wf_fs m -> wf_fs m').
Proof.
  induction mbs as [|mb rest IH]; intros m m' err H; simpl in H.
  - inversion H; subst. split; [apply keeps_dirs_refl | ].
    split; [apply keeps_files_refl | auto].
  - destruct (extract_member dir mb m) as [e|m1] eqn:Hmb.
    + inversion H; subst. split; [apply keeps_dirs_refl | ].
      split; [apply keeps_files_refl | auto].
    + destruct (extract_member_keeps _ _ _ _ Hmb) as (Hd1 & Hf1 & Hw1).
      destruct (IH _ _ _ H) as (Hd2 & Hf2 & Hw2).
      split; [eapply keeps_dirs_trans; eauto | ].
      split; [eapply keeps_files_trans; eauto | auto].
Qed.

(** ** Relations every run of a handler keeps *)

Section Preserves.

Variable R : world -> world -> Prop.
Hypothesis R_refl : forall w, R w w.
Hypothesis R_trans : forall w1 w2 w3, R w1 w2 -> R w2 w3 -> R w1 w3.

Lemma preserves_ret {A} (a : A) : preserves R (ret a).
Proof. intros w r w' H. inversion H; subst. apply R_refl. Qed.

Lemma preserves_out_of_fuel {A} : preserves R (@out_of_fuel A).
Proof. intros w r w' H. inversion H; subst. apply R_refl. Qed.

Lemma preserves_bind {A B} (m : M A) (f : A -> M B) :
  preserves R m -> (forall a, preserves R (f a)) -> preserves R (bind m f).
Proof.
  intros Hm Hf w r w' H. apply bind_run in H.
  destruct H as [(a & w1 & H1 & H2) | [(e & H1 & _) | (H1 & _)]].
  - eapply R_trans; [eapply Hm; eauto | eapply Hf; eauto].
  - eapply Hm; eauto.
  - eapply Hm; eauto.
Qed.

Lemma preserves_try {A} (body : M A) (handler : exn -> M A) :
  preserves R body -> (forall e, preserves R (handler e)) ->
  preserves R (try_except body handler).
Proof.
  intros Hb Hh w r w' H. unfold try_except in H.
  destruct (body w) as [[a|e|] w1] eqn:Hbody.
  - inversion H; subst. eapply Hb; eauto.
  - eapply R_trans; [eapply Hb; eauto | eapply Hh; eauto].
  - inversion H; subst. eapply Hb; eauto.
Qed.

Lemma preserves_for_each {A} (l : list A) (body : A -> M unit) :
  (forall x, preserves R (body x)) -> preserves R (for_each l body).
Proof.
  intros Hbody. induction l as [|x l IH]; simpl.
  - apply preserves_ret.
  - apply preserves_bind; auto.
Qed.

(** A step that leaves the world as it is. *)
Lemma preserves_pure {A} (m : M A) :
  (forall w, snd (m w) = w) -> preserves R m.
Proof. intros Hm w r w' H. specialize (Hm w). rewrite H in Hm. simpl in Hm. subst. apply R_refl. Qed.

End Preserves.

Lemma pure_exists path w : snd (os_path_exists path w) = w.
Proof. unfold os_path_exists. destruct (get _ _); reflexivity. Qed.

Lemma pure_getsize E path w : snd (os_path_getsize E path w) = w.
Proof. unfold os_path_getsize. destruct (get _ _) as [[|]|]; reflexivity. Qed.

Lemma pure_open_rb path w : snd (open_rb path w) = w.
Proof. unfold open_rb. destruct (get _ _) as [[|]|]; reflexivity. Qed.

Lemma pure_is_zipfile E path w : snd (is_zipfile E path w) = w.
Proof.
  unfold is_zipfile. destruct (get _ _) as [[d|]|]; try reflexivity.
  destruct (_ <? _); reflexivity.
Qed.

Lemma pure_time E w : snd (time_time E w) = w.
Proof. reflexivity. Qed.

Lemma pure_scandir root w : snd (scandir root w) = w.
Proof. unfold scandir. destruct (get _ _) as [[|]|]; reflexivity. Qed.

(** The handlers keep whatever their primitives keep. *)
Section HandlersPreserve.

Variable E : env.
Variable R : world -> world -> Prop.
Hypothesis R_refl : forall w, R w w.
Hypothesis R_trans : forall w1 w2 w3, R w1 w2 -> R w2 w3 -> R w1 w3.
Hypothesis R_tg : forall c, preserves R (tg E c).
Hypothesis R_write : forall path data, preserves R (write_file path data).
Hypothesis R_remove : forall path, preserves R (os_remove path).
Hypothesis R_makedirs : forall path, preserves R (os_makedirs path).
Hypothesis R_download : forall link dest, preserves R (download_url E link dest).
Hypothesis R_extractall : forall archive dir, preserves R (extractall E archive dir).
Hypothesis R_sleep : forall s, preserves R (asyncio_sleep s).

Lemma split_loop_preserves C path base size : forall fuel f idx,
  preserves R (split_loop E C fuel path base size f idx).
Proof.
  induction fuel as [|fuel IH]; intros f idx; simpl.
  - apply preserves_out_of_fuel; auto.
  - destruct (read C f) as [chunk f']. destruct chunk as [|b chunk].
    + apply preserves_ret; auto.
    + repeat (apply preserves_bind; auto; intros).
Qed.

Lemma split_and_upload_at_preserves C path :
  preserves R (split_and_upload_at E C path).
Proof.
  unfold split_and_upload_at.
  apply preserves_bind; auto; [apply preserves_pure; auto; apply pure_getsize | intros size].
  apply preserves_bind; auto. intros _.
  apply preserves_bind; auto; [apply preserves_pure; auto; apply pure_open_rb | intros f].
  apply split_loop_preserves.
Qed.

Lemma progress_loop_preserves path task size : forall fuel,
  preserves R (progress_loop E fuel path task size).
Proof.
  induction fuel as [|fuel IH]; simpl.
  - apply preserves_out_of_fuel; auto.
  - apply preserves_bind; auto; [apply preserves_pure; auto; apply pure_exists | intros there].
    destruct there; [ | apply preserves_ret; auto].
    apply preserves_bind; auto; [apply preserves_pure; auto; apply pure_getsize | intros cur].
    apply preserves_bind; auto.
    + apply preserves_try; auto. intros e. apply preserves_ret; auto.
    + intros _. destruct (cur >=? size); [apply preserves_ret; auto | ].
      apply preserves_bind; auto.
Qed.

Lemma update_progress_preserves fuel path task :
  preserves R (update_progress E fuel path task).
Proof.
  unfold update_progress.
  apply preserves_bind; auto; [apply preserves_pure; auto; apply pure_getsize | intros size].
  apply progress_loop_preserves.
Qed.

Lemma walk_send_preserves : forall fuel root, preserves R (walk_send E fuel root).
Proof.
  induction fuel as [|fuel IH]; intros root; simpl.
  - apply preserves_out_of_fuel; auto.
  - apply preserves_bind; auto; [apply preserves_pure; auto; apply pure_scandir | intros listing].
    destruct listing as [[dirs files]|]; [ | apply preserves_ret; auto].
    apply preserves_bind; auto.
    + apply preserves_for_each; auto. intros file. apply preserves_bind; auto.
    + intros _. apply preserves_for_each; auto.
Qed.

Lemma send_extracted_preserves top : preserves R (send_extracted E top).
Proof. intros w r w' H. unfold send_extracted in H. eapply walk_send_preserves; eauto. Qed.

Lemma relay_plain_preserves path : preserves R (relay_plain E path).
Proof.
  unfold relay_plain.
  apply preserves_bind; auto; [apply preserves_pure; auto; apply pure_getsize | intros size].
  destruct (size >? _); [apply split_and_upload_at_preserves | ].
  repeat (apply preserves_bind; auto; intros).
Qed.

Lemma relay_archive_preserves dest path :
  preserves R (os_rmdir (Path.join dest "extracted")) ->
  preserves R (relay_archive E dest path).
Proof.
  intros R_rmdir. unfold relay_archive.
  repeat (apply preserves_bind; auto; intros).
  apply send_extracted_preserves.
Qed.

Lemma pipeline_preserves fuel link dest :
  preserves R (os_rmdir (Path.join dest "extracted")) ->
  preserves R (pipeline E fuel link dest).
Proof.
  intros R_rmdir. unfold pipeline.
  apply preserves_bind; auto; [apply preserves_pure; auto; apply pure_time | intros t0].
  apply preserves_bind; auto. intros path.
  apply preserves_bind; auto; [apply preserves_pure; auto; apply pure_time | intros t1].
  apply preserves_bind; auto; [apply update_progress_preserves | intros _].
  apply preserves_bind; auto; [apply preserves_pure; auto; apply pure_is_zipfile | intros z].
  apply preserves_bind; auto.
  destruct z; [apply relay_archive_preserves; exact R_rmdir | apply relay_plain_preserves].
Qed.

Lemma download_file_preserves fuel text :
  preserves R (os_rmdir (Path.join "downloads/" "extracted")) ->
  preserves R (download_file E fuel text).
Proof.
  intros R_rmdir. unfold download_file.
  destruct (Re.search Re.mega_link text) as [link|]; [ | apply R_tg].
  destruct (Text.contains "folder" link); [apply R_tg | ].
  apply preserves_bind; auto. intros _.
  apply preserves_bind; auto. intros _.
  apply preserves_try; auto. apply pipeline_preserves. exact R_rmdir.
Qed.

End HandlersPreserve.

(** *** The log only grows *)

Lemma extends_refl w : extends w w.
Proof. exists []. rewrite List.app_nil_r. reflexivity. Qed.

Lemma extends_trans w1 w2 w3 : extends w1 w2 -> extends w2 w3 -> extends w1 w3.
Proof.
  intros [e1 H1] [e2 H2]. exists (e1 ++ e2). rewrite H2, H1, List.app_assoc. reflexivity.
Qed.

Lemma extends_tg E c : preserves extends (tg E c).
Proof. intros w r w' H. apply tg_run in H. destruct H as [-> _]. eexists. reflexivity. Qed.

Lemma extends_fs_op op ev : preserves extends (fs_op op ev).
Proof.
  intros w r w' H. apply fs_op_run in H.
  destruct H as [(m & _ & _ & ->) | (e & _ & _ & ->)]; [eexists; reflexivity | apply extends_refl].
Qed.

Lemma fs_update_run op w r w' :
  fs_update op w = (r, w') ->
  (exists m, op (fs w) = inr m /\ r = Ok tt /\ w' = World m (trace w))
  \/ (exists e, op (fs w) = inl e /\ r = Raise e /\ w' = w).
Proof.
  unfold fs_update. destruct (op (fs w)) as [e|m]; intros H; inversion H; subst; eauto.
Qed.

Lemma extends_fs_update op : preserves extends (fs_update op).
Proof.
  intros w r w' H. apply fs_update_run in H.
  destruct H as [(m & _ & _ & ->) | (e & _ & _ & ->)]; exists []; simpl;
    rewrite List.app_nil_r; reflexivity.
Qed.

Lemma download_url_run E link dest w r w' :
  download_url E link dest w = (r, w') ->
  (exists name data m,
      mega E link = inr (name, data) /\ write (fs w) (dest +:+ name) data = inr m
      /\ r = Ok (dest +:+ name) /\ w' = World m (trace w ++ [Fetched link None]))
  \/ (exists e, r = Raise e /\ w' = World (fs w) (trace w ++ [Fetched link (Some e)])).
Proof.
  unfold download_url. destruct (mega E link) as [e|[name data]].
  - intros H. inversion H; subst. right. eauto.
  - destruct (write (fs w) (dest +:+ name) data) as [e|m] eqn:Hw;
      intros H; inversion H; subst; [right; eauto | left; eauto 10].
Qed.

Lemma extends_download E link dest : preserves extends (download_url E link dest).
Proof.
  intros w r w' H. apply download_url_run in H.
  destruct H as [(name & data & m & _ & _ & _ & ->) | (e & _ & ->)]; eexists; reflexivity.
Qed.

Lemma extractall_run E archive dir w r w' :
  extractall E archive dir w = (r, w') ->
  exists m failure,
    w' = World m (trace w ++ [Extracted archive dir failure])
    /\ r = match failure with None => Ok tt | Some e => Raise e end
    /\ keeps_dirs (fs w) m /\ keeps_files (fs w) m /\ (wf_fs (fs w) -> wf_fs m).
Proof.
  unfold extractall.
  destruct (get (fs w) (Path.resolve archive)) as [[data|]|] eqn:Hget.
  - destruct (unzip E data) as [mbs failure].
    destruct (extract_members dir mbs (fs w)) as [m err] eqn:Hex.
    destruct (extract_members_keeps _ _ _ _ _ Hex) as (Hd & Hf & Hw).
    intros H. exists m, (match err with Some e => Some e | None => failure end).
    destruct err as [e|]; [ | destruct failure as [e|]]; inversion H; subst; auto.
  - intros H. inversion H; subst. eexists _, _. split; [reflexivity | ].
    split; [reflexivity | ]. split; [apply keeps_dirs_refl | ].
    split; [apply keeps_files_refl | auto].
  - intros H. inversion H; subst. eexists _, _. split; [reflexivity | ].
    split; [reflexivity | ]. split; [apply keeps_dirs_refl | ].
    split; [apply keeps_files_refl | auto].
Qed.

Lemma extends_extractall E archive dir : preserves extends (extractall E archive dir).
Proof.
  intros w r w' H. apply extractall_run in H.
  destruct H as (m & failure & -> & _). eexists. reflexivity.
Qed.

Lemma extends_sleep s : preserves extends (asyncio_sleep s).
Proof. intros w r w' H. inversion H; subst. eexists. reflexivity. Qed.

Lemma extends_download_file E fuel text : preserves extends (download_file E fuel text).
Proof.
  apply (download_file_preserves E extends extends_refl extends_trans (extends_tg E)
           (fun p d => extends_fs_op _ _) (fun p => extends_fs_op _ _)
           (fun p => extends_fs_update _) (extends_download E) (extends_extractall E)
           extends_sleep).
  apply extends_fs_op.
Qed.

(** *** A directory stays where it is *)

Lemma dir_stays_refl p w : dir_stays p w w.
Proof. intros H. exact H. Qed.

Lemma dir_stays_trans p w1 w2 w3 :
  dir_stays p w1 w2 -> dir_stays p w2 w3 -> dir_stays p w1 w3.
Proof. intros H12 H23 H. apply H23, H12, H. Qed.

Lemma dir_stays_tg p E c : preserves (dir_stays p) (tg E c).
Proof. intros w r w' H. apply tg_run in H. destruct H as [-> _]. intros Hp. exact Hp. Qed.

Lemma dir_stays_fs_op p op ev :
  (forall m m', op m = inr m' -> m !! p = Some Dir -> m' !! p = Some Dir) ->
  preserves (dir_stays p) (fs_op op ev).
Proof.
  intros Hop w r w' H. apply fs_op_run in H.
  destruct H as [(m & Hm & _ & ->) | (e & _ & _ & ->)]; intros Hp; [ | exact Hp].
  eapply Hop; eauto.
Qed.

Lemma dir_stays_fs_update p op :
  (forall m m', op m = inr m' -> m !! p = Some Dir -> m' !! p = Some Dir) ->
  preserves (dir_stays p) (fs_update op).
Proof.
  intros Hop w r w' H. apply fs_update_run in H.
  destruct H as [(m & Hm & _ & ->) | (e & _ & _ & ->)]; intros Hp; [ | exact Hp].
  eapply Hop; eauto.
Qed.

Lemma dir_stays_write p path data : preserves (dir_stays p) (write_file path data).
Proof.
  apply dir_stays_fs_op. intros m m' H. apply write_keeps in H. destruct H as (Hd & _). apply Hd.
Qed.

Lemma dir_stays_remove p path : preserves (dir_stays p) (os_remove path).
Proof.
  apply dir_stays_fs_op. intros m m' H. apply remove_keeps in H. destruct H as (Hd & _). apply Hd.
Qed.

Lemma dir_stays_makedirs p path : preserves (dir_stays p) (os_makedirs path).
Proof.
  apply dir_stays_fs_update. intros m m' H. apply makedirs_keeps in H.
  destruct H as (Hd & _). apply Hd.
Qed.

Lemma dir_stays_rmdir p path :
  p <> Path.resolve path -> preserves (dir_stays p) (os_rmdir path).
Proof.
  intros Hne. apply dir_stays_fs_op. intros m m' H Hp. apply rmdir_keeps in H.
  destruct H as (_ & _ & Hother). rewrite Hother; [exact Hp | exact Hne].
Qed.

Lemma dir_stays_download p E link dest : preserves (dir_stays p) (download_url E link dest).
Proof.
  intros w r w' H. apply download_url_run in H.
  destruct H as [(name & data & m & _ & Hw & _ & ->) | (e & _ & ->)]; intros Hp; [ | exact Hp].
  apply write_keeps in Hw. destruct Hw as (Hd & _). apply Hd. exact Hp.
Qed.

Lemma dir_stays_extractall p E archive dir :
  preserves (dir_stays p) (extractall E archive dir).
Proof.
  intros w r w' H. apply extractall_run in H.
  destruct H as (m & failure & -> & _ & Hd & _). intros Hp. apply Hd. exact Hp.
Qed.

Lemma dir_stays_sleep p s : preserves (dir_stays p) (asyncio_sleep s).
Proof. intros w r w' H. inversion H; subst. intros Hp. exact Hp. Qed.

Lemma emitted_refl w : emitted w w = [].
Proof. unfold emitted. apply List.skipn_all. Qed.

(** ** The staging directory *)

Lemma snoc_single_inv {A} (l : list A) (x y : A) : l ++ [x] = [y] -> x = y.
Proof.
  destruct l as [|a l]; simpl; intros H; inversion H; subst; [reflexivity | ].
  destruct l; discriminate.
Qed.

(** C2, as the code has it.  No exit path removes the staging directory:
    after a job has reported its completion or its failure, the
    directory [downloads/] is still there. *)
Theorem staging_directory_stays E fuel message_text w r w' :
  download_file E fuel message_text w = (r, w') ->
  reported_completed (emitted w w') \/ reported_failed (emitted w w') ->
  fs w' !! Path.resolve "downloads/" = Some Dir.
Proof.
  intros H Hrep.
  assert (Hedit : exists evs0 t f, emitted w w' = evs0 ++ [Tg (edit_text t) f]).
  { destruct Hrep as [(evs0 & t & ->) | (evs0 & e & f & ->)]; eauto. }
  clear Hrep. destruct Hedit as (evs0 & t & f & Hem).
  unfold download_file in H.
  destruct (Re.search Re.mega_link message_text) as [link|].
  2:{ apply tg_run in H. destruct H as [-> _]. exfalso.
      rewrite (emitted_app _ _ [Tg (reply "❌ No valid Mega.nz link found.") (telegram E (trace w) (reply "❌ No valid Mega.nz link found."))]) in Hem by reflexivity.
      symmetry in Hem. apply snoc_single_inv in Hem. discriminate. }
  destruct (Text.contains "folder" link).
  { apply tg_run in H. destruct H as [-> _]. exfalso.
    match type of Hem with emitted _ (World _ (_ ++ ?l)) = _ =>
      rewrite (emitted_app _ _ l) in Hem by reflexivity end.
    symmetry in Hem. apply snoc_single_inv in Hem. discriminate. }
  apply bind_run in H. destruct H as [(a & w1 & H1 & H) | [(e & H1 & ->) | (H1 & ->)]];
    apply fs_update_run in H1;
    destruct H1 as [(m & Hm & Hr & Hw) | (e' & Hm & Hr & Hw)]; try discriminate.
  2:{ subst w'. rewrite emitted_refl in Hem. destruct evs0; discriminate. }
  subst w1. apply makedirs_keeps in Hm. destruct Hm as (_ & _ & _ & Hdir).
  assert (Hkey : fs (World m (trace w)) !! Path.resolve "downloads/" = Some Dir).
  { rewrite get_key in Hdir by (vm_compute; discriminate). exact Hdir. }
  revert Hkey.
  refine (preserves_bind (dir_stays (Path.resolve "downloads/"))
            (dir_stays_trans _) _ _ _ _ _ _ _ H).
  - apply dir_stays_tg.
  - intros _. apply preserves_try.
    + apply dir_stays_trans.
    + apply (pipeline_preserves E (dir_stays (Path.resolve "downloads/"))
               (dir_stays_refl _) (dir_stays_trans _) (dir_stays_tg _ E)
               (dir_stays_write _) (dir_stays_remove _) (dir_stays_makedirs _)
               (dir_stays_download _ E) (dir_stays_extractall _ E) (dir_stays_sleep _)).
      apply dir_stays_rmdir. vm_compute. discriminate.
    + intros e. apply dir_stays_tg.
Qed.

Lemma quiet_job_completes :
  reported_completed
    (emitted Sample.fresh (snd (download_file Sample.quiet 1 Sample.file_link Sample.fresh))).
Proof.
  exists (List.removelast
            (emitted Sample.fresh
               (snd (download_file Sample.quiet 1 Sample.file_link Sample.fresh)))),
    (inject_Z 0).
  vm_compute. reflexivity.
Qed.

Lemma staging_directory_stays_witness :
  fs (snd (download_file Sample.quiet 1 Sample.file_link Sample.fresh))
    !! Path.resolve "downloads/" = Some Dir.
Proof.
  apply (staging_directory_stays Sample.quiet 1 Sample.file_link Sample.fresh
           (fst (download_file Sample.quiet 1 Sample.file_link Sample.fresh))).
  - apply surjective_pairing.
  - left. apply quiet_job_completes.
Defined.

(** C2 as the spec states it fails: this job completes, and its staging
    directory exists afterwards. *)
Lemma staging_directory_removed_counterexample :
  ~ (reported_completed
       (emitted Sample.fresh (snd (download_file Sample.quiet 1 Sample.file_link Sample.fresh)))
     \/ reported_failed
       (emitted Sample.fresh (snd (download_file Sample.quiet 1 Sample.file_link Sample.fresh)))
     -> get (fs (snd (download_file Sample.quiet 1 Sample.file_link Sample.fresh)))
          (Path.resolve "downloads/") = None).
Proof.
  intros H. specialize (H (or_introl quiet_job_completes)).
  vm_compute in H. discriminate.
Qed.

(** ** The plain-file branch *)



(** ** The classifier *)




(** ** The shape of the log *)

Lemma calm_app evs1 evs2 : calm evs1 -> calm evs2 -> calm (evs1 ++ evs2).
Proof. unfold calm. intros H1 H2. rewrite List.forallb_app, H1, H2. reflexivity. Qed.

Lemma calm_nil : calm [].
Proof. reflexivity. Qed.

Lemma disc_app {A} (r : result A) evs1 evs2 :
  calm evs1 -> disc r evs2 -> disc r (evs1 ++ evs2).
Proof.
  intros H1 [H2 | (evs0 & doc & cap & e & -> & H0 & Hr)].
  - left. apply calm_app; assumption.
  - right. exists (evs1 ++ evs0), doc, cap, e. rewrite List.app_assoc.
    split; [reflexivity | ]. split; [apply calm_app; assumption | exact Hr].
Qed.

Lemma disc_ok_calm {A} (a : A) evs : disc (Ok a) evs -> calm evs.
Proof. intros [H | (evs0 & doc & cap & e & _ & _ & Hr)]; [exact H | discriminate]. Qed.

Lemma disc_fuel_calm {A} evs : disc (@OutOfFuel A) evs -> calm evs.
Proof. intros [H | (evs0 & doc & cap & e & _ & _ & Hr)]; [exact H | discriminate]. Qed.

Lemma disc_raise {A B} e evs : disc (@Raise A e) evs -> disc (@Raise B e) evs.
Proof.
  intros [H | (evs0 & doc & cap & e' & -> & H0 & Hr)]; [left; exact H | ].
  right. exists evs0, doc, cap, e'. inversion Hr; subst. auto.
Qed.

Lemma shaped_bind {A B} (Q : result B -> list event -> Prop) (m : M A) (f : A -> M B) :
  (forall r evs1 evs2, calm evs1 -> Q r evs2 -> Q r (evs1 ++ evs2)) ->
  (forall e evs, disc (@Raise B e) evs -> Q (Raise e) evs) ->
  (forall evs, calm evs -> Q OutOfFuel evs) ->
  shaped disc m -> (forall a, shaped Q (f a)) -> shaped Q (bind m f).
Proof.
  intros Qapp Qraise Qfuel Hm Hf w r w' H. apply bind_run in H.
  destruct H as [(a & w1 & H1 & H2) | [(e & H1 & ->) | (H1 & ->)]].
  - destruct (Hm _ _ _ H1) as (evs1 & Ht1 & Hd1).
    destruct (Hf _ _ _ _ H2) as (evs2 & Ht2 & Hq2).
    exists (evs1 ++ evs2). split; [rewrite Ht2, Ht1, List.app_assoc; reflexivity | ].
    apply Qapp; [eapply disc_ok_calm; eauto | exact Hq2].
  - destruct (Hm _ _ _ H1) as (evs1 & Ht1 & Hd1).
    exists evs1. split; [exact Ht1 | ]. apply Qraise. eapply disc_raise; eauto.
  - destruct (Hm _ _ _ H1) as (evs1 & Ht1 & Hd1).
    exists evs1. split; [exact Ht1 | ]. apply Qfuel. eapply disc_fuel_calm; eauto.
Qed.

Lemma disciplined_bind {A B} (m : M A) (f : A -> M B) :
  shaped disc m -> (forall a, shaped disc (f a)) -> shaped disc (bind m f).
Proof.
  apply shaped_bind.
  - intros r evs1 evs2. apply disc_app.
  - auto.
  - intros evs H. left. exact H.
Qed.

Lemma disciplined_ret {A} (a : A) : shaped disc (ret a).
Proof.
  intros w r w' H. inversion H; subst. exists []. rewrite List.app_nil_r.
  split; [reflexivity | left; apply calm_nil].
Qed.

Lemma disciplined_out_of_fuel {A} : shaped disc (@out_of_fuel A).
Proof.
  intros w r w' H. inversion H; subst. exists []. rewrite List.app_nil_r.
  split; [reflexivity | left; apply calm_nil].
Qed.

Lemma disciplined_pure {A} (m : M A) :
  (forall w, snd (m w) = w) -> shaped disc m.
Proof.
  intros Hm w r w' H. specialize (Hm w). rewrite H in Hm. simpl in Hm. subst.
  exists []. rewrite List.app_nil_r. split; [reflexivity | left; apply calm_nil].
Qed.

Lemma disciplined_for_each {A} (l : list A) (body : A -> M unit) :
  (forall x, shaped disc (body x)) -> shaped disc (for_each l body).
Proof.
  intros Hbody. induction l as [|x l IH]; simpl.
  - apply disciplined_ret.
  - apply disciplined_bind; auto.
Qed.

Lemma disciplined_tg E c : not_completion c -> shaped disc (tg E c).
Proof.
  intros Hc w r w' H. apply tg_run in H. destruct H as [-> ->].
  eexists. split; [reflexivity | ].
  destruct c as [t | t | doc cap].
  - left. reflexivity.
  - left. destruct t as [s | a b c d | t]; try reflexivity. exfalso. exact (Hc t eq_refl).
  - destruct (telegram E (trace w) (send_document doc cap)) as [e|].
    + right. exists [], doc, cap, e. auto using calm_nil.
    + left. reflexivity.
Qed.

Lemma disciplined_fs_op op ev :
  quiet_event ev = true -> shaped disc (fs_op op ev).
Proof.
  intros Hev w r w' H. apply fs_op_run in H.
  destruct H as [(m & _ & _ & ->) | (e & _ & _ & ->)].
  - eexists. split; [reflexivity | ]. left. unfold calm. simpl. rewrite Hev. reflexivity.
  - exists []. rewrite List.app_nil_r. split; [reflexivity | left; apply calm_nil].
Qed.

Lemma disciplined_fs_update op : shaped disc (fs_update op).
Proof.
  intros w r w' H. apply fs_update_run in H.
  destruct H as [(m & _ & _ & ->) | (e & _ & _ & ->)];
    exists []; simpl; rewrite List.app_nil_r; (split; [reflexivity | left; apply calm_nil]).
Qed.

Lemma disciplined_download E link dest : shaped disc (download_url E link dest).
Proof.
  intros w r w' H. apply download_url_run in H.
  destruct H as [(name & data & m & _ & _ & _ & ->) | (e & _ & ->)];
    eexists; (split; [reflexivity | left; reflexivity]).
Qed.

Lemma disciplined_extractall E archive dir : shaped disc (extractall E archive dir).
Proof.
  intros w r w' H. apply extractall_run in H.
  destruct H as (m & failure & -> & _). eexists. split; [reflexivity | left; reflexivity].
Qed.

Lemma not_completion_send doc cap : not_completion (send_document doc cap).
Proof. intros t. discriminate. Qed.

Lemma not_completion_str s : not_completion (edit_text (Str s)).
Proof. intros t. discriminate. Qed.

Lemma disciplined_split_loop E C path base size : forall fuel f idx,
  shaped disc (split_loop E C fuel path base size f idx).
Proof.
  induction fuel as [|fuel IH]; intros f idx; simpl.
  - apply disciplined_out_of_fuel.
  - destruct (read C f) as [chunk f']. destruct chunk as [|b chunk].
    + apply disciplined_ret.
    + apply disciplined_bind; [apply disciplined_fs_op; reflexivity | intros _].
      apply disciplined_bind; [apply disciplined_tg, not_completion_send | intros _].
      apply disciplined_bind; [apply disciplined_fs_op; reflexivity | intros _].
      apply IH.
Qed.

Lemma disciplined_split_and_upload_at E C path :
  shaped disc (split_and_upload_at E C path).
Proof.
  unfold split_and_upload_at.
  apply disciplined_bind; [apply disciplined_pure, pure_getsize | intros size].
  apply disciplined_bind; [apply disciplined_tg, not_completion_str | intros _].
  apply disciplined_bind; [apply disciplined_pure, pure_open_rb | intros f].
  apply disciplined_split_loop.
Qed.

Lemma disciplined_progress_loop E path task size : forall fuel,
  shaped disc (progress_loop E fuel path task size).
Proof.
  induction fuel as [|fuel IH]; simpl.
  - apply disciplined_out_of_fuel.
  - apply disciplined_bind; [apply disciplined_pure, pure_exists | intros there].
    destruct there; [ | apply disciplined_ret].
    apply disciplined_bind; [apply disciplined_pure, pure_getsize | intros cur].
    apply disciplined_bind.
    + intros w r w' H. rewrite tg_swallowed in H. inversion H; subst.
      eexists. split; [reflexivity | left; reflexivity].
    + intros _. destruct (cur >=? size); [apply disciplined_ret | ].
      apply disciplined_bind; [ | intros _; apply IH].
      intros w r w' H. inversion H; subst. eexists. split; [reflexivity | left; reflexivity].
Qed.

Lemma disciplined_update_progress E fuel path task :
  shaped disc (update_progress E fuel path task).
Proof.
  unfold update_progress.
  apply disciplined_bind; [apply disciplined_pure, pure_getsize | intros size].
  apply disciplined_progress_loop.
Qed.

Lemma disciplined_walk_send E : forall fuel root, shaped disc (walk_send E fuel root).
Proof.
  induction fuel as [|fuel IH]; intros root; simpl.
  - apply disciplined_out_of_fuel.
  - apply disciplined_bind; [apply disciplined_pure, pure_scandir | intros listing].
    destruct listing as [[dirs files]|]; [ | apply disciplined_ret].
    apply disciplined_bind.
    + apply disciplined_for_each. intros file.
      apply disciplined_bind; [apply disciplined_tg, not_completion_send | intros _].
      apply disciplined_fs_op. reflexivity.
    + intros _. apply disciplined_for_each. intros d. apply IH.
Qed.

Lemma disciplined_send_extracted E top : shaped disc (send_extracted E top).
Proof. intros w r w' H. unfold send_extracted in H. eapply disciplined_walk_send; eauto. Qed.

Lemma disciplined_relay_plain E path : shaped disc (relay_plain E path).
Proof.
  unfold relay_plain.
  apply disciplined_bind; [apply disciplined_pure, pure_getsize | intros size].
  destruct (size >? _); [apply disciplined_split_and_upload_at | ].
  apply disciplined_bind; [apply disciplined_tg, not_completion_str | intros _].
  apply disciplined_bind; [apply disciplined_tg, not_completion_send | intros _].
  apply disciplined_fs_op. reflexivity.
Qed.

Lemma disciplined_relay_archive E dest path : shaped disc (relay_archive E dest path).
Proof.
  unfold relay_archive.
  apply disciplined_bind; [apply disciplined_fs_update | intros _].
  apply disciplined_bind; [apply disciplined_extractall | intros _].
  apply disciplined_bind; [apply disciplined_fs_op; reflexivity | intros _].
  apply disciplined_bind; [apply disciplined_tg, not_completion_str | intros _].
  apply disciplined_bind; [apply disciplined_send_extracted | intros _].
  apply disciplined_fs_op. reflexivity.
Qed.

Lemma pipeline_end_app r evs1 evs2 :
  calm evs1 -> pipeline_end r evs2 -> pipeline_end r (evs1 ++ evs2).
Proof.
  intros H1 [H2 | (evs0 & t & f & -> & H0 & Hr)].
  - left. apply disc_app; assumption.
  - right. exists (evs1 ++ evs0), t, f. rewrite List.app_assoc.
    split; [reflexivity | ]. split; [apply calm_app; assumption | exact Hr].
Qed.

Lemma pipeline_shaped E fuel link dest : shaped pipeline_end (pipeline E fuel link dest).
Proof.
  assert (Hbind : forall A (m : M A) (f : A -> M unit),
            shaped disc m -> (forall a, shaped pipeline_end (f a)) ->
            shaped pipeline_end (bind m f)).
  { intros A m f. apply shaped_bind.
    - apply pipeline_end_app.
    - intros e evs H. left. exact H.
    - intros evs H. left. left. exact H. }
  unfold pipeline.
  apply Hbind; [apply disciplined_pure, pure_time | intros t0].
  apply Hbind; [apply disciplined_download | intros path].
  apply Hbind; [apply disciplined_pure, pure_time | intros t1].
  apply Hbind; [apply disciplined_update_progress | intros _].
  apply Hbind; [apply disciplined_pure, pure_is_zipfile | intros z].
  apply Hbind.
  - destruct z; [apply disciplined_relay_archive | apply disciplined_relay_plain].
  - intros _ w r w' H. apply tg_run in H. destruct H as [-> ->].
    eexists. split; [reflexivity | ]. right.
    exists [], (Qminus t1 t0), (telegram E (trace w) (edit_text (TaskCompleted (Qminus t1 t0)))).
    split; [reflexivity | ]. split; [apply calm_nil | reflexivity].
Qed.

Lemma calm_in evs ev : calm evs -> In ev evs -> quiet_event ev = true.
Proof. unfold calm. rewrite List.forallb_forall. auto. Qed.

(** What [download_file] logs: nothing or one reply when the job does
    not start; otherwise the reply "Starting download...", the log of
    the body of the [try], and the failure report if the body raised. *)
Lemma download_file_log E fuel text w r w' :
  download_file E fuel text w = (r, w') ->
  emitted w w' = []
  \/ (exists s f, emitted w w' = [Tg (reply s) f])
  \/ exists rp evs,
       pipeline_end rp evs
       /\ ((rp <> r -> False) /\ (forall e, rp <> Raise e)
            /\ emitted w w' = Tg (reply "Starting download...") None :: evs
           \/ exists e f,
                rp = Raise e
                /\ emitted w w'
                   = Tg (reply "Starting download...") None
                     :: evs ++ [Tg (edit_text (failure_report e)) f]
                /\ r = match f with None => Ok tt | Some e' => Raise e' end).
Proof.
  intros H. unfold download_file in H.
  destruct (Re.search Re.mega_link text) as [link|].
  2:{ apply tg_run in H. destruct H as [-> _]. right. left. eexists _, _.
      apply emitted_app. reflexivity. }
  destruct (Text.contains "folder" link).
  { apply tg_run in H. destruct H as [-> _]. right. left. eexists _, _.
    apply emitted_app. reflexivity. }
  apply bind_run in H. destruct H as [(a & w1 & H1 & H) | [(e & H1 & ->) | (H1 & ->)]];
    apply fs_update_run in H1;
    destruct H1 as [(m & Hm & Hr & Hw) | (e' & Hm & Hr & Hw)]; try discriminate.
  2:{ subst w'. left. apply emitted_refl. }
  subst w1. apply tg_then in H. cbn [fs trace] in H.
  destruct H as [(Hreply & H) | (e & Hreply & -> & ->)].
  2:{ right. left. eexists _, _. apply emitted_app. reflexivity. }
  right. right. unfold try_except in H.
  destruct (pipeline E fuel link "downloads/" _) as [rp wp] eqn:Hp.
  destruct (pipeline_shaped _ _ _ _ _ _ _ Hp) as (evs & Htr & Hend).
  cbn [trace] in Htr. exists rp, evs. split; [exact Hend | ].
  destruct rp as [[]|e|].
  - inversion H; subst. left. split; [congruence | ]. split; [discriminate | ].
    apply emitted_app. rewrite Htr, <- List.app_assoc. reflexivity.
  - right. apply tg_run in H. destruct H as [-> ->].
    exists e, (telegram E (trace wp) (edit_text (failure_report e))).
    split; [reflexivity | ]. split; [ | reflexivity].
    apply emitted_app. cbn [trace]. rewrite Htr, <- !List.app_assoc. reflexivity.
  - inversion H; subst. left. split; [congruence | ]. split; [discriminate | ].
    apply emitted_app. rewrite Htr, <- List.app_assoc. reflexivity.
Qed.

(** ** Failed uploads *)

(** C7, as the code has it.  When an upload of a job fails, it is the
    last upload the job attempts: the only thing logged after it is the
    failure report, every upload before it had succeeded, and the job
    never reports completion.  The failure report is made of the text of
    the exception of the upload and of nothing else; it does not say
    which ordinal failed. *)
Theorem failed_upload_ends_the_job E fuel message_text w r w' doc cap e :
  download_file E fuel message_text w = (r, w') ->
  In (Tg (send_document doc cap) (Some e)) (emitted w w') ->
  exists evs0 f,
    emitted w w'
    = evs0 ++ [Tg (send_document doc cap) (Some e);
               Tg (edit_text (Str ("❌ An error occurred while processing your link: "
                                   +:+ str e))) f]
    /\ (forall d c g, In (Tg (send_document d c) g) evs0 -> g = None)
    /\ (forall t g, ~ In (Tg (edit_text (TaskCompleted t)) g) (emitted w w'))
    /\ r = match f with None => Ok tt | Some e' => Raise e' end.
Proof.
  intros H Hin. apply download_file_log in H.
  destruct H as [Hem | [(s & f & Hem) | (rp & evs & Hend & Hcase)]].
  - rewrite Hem in Hin. destruct Hin.
  - rewrite Hem in Hin. destruct Hin as [Heq | []]. discriminate.
  - assert (Hquiet : forall evs1, calm evs1 ->
              (forall d c g, In (Tg (send_document d c) g) evs1 -> g = None)
              /\ (forall t g, ~ In (Tg (edit_text (TaskCompleted t)) g) evs1)).
    { intros evs1 Hc. split.
      - intros d c g Hg. apply (calm_in _ _ Hc) in Hg. destruct g; [discriminate | reflexivity].
      - intros t g Hg. apply (calm_in _ _ Hc) in Hg. discriminate. }
    assert (Hnot : forall evs1, calm evs1 -> ~ In (Tg (send_document doc cap) (Some e)) evs1).
    { intros evs1 Hc Hg. apply (calm_in _ _ Hc) in Hg. discriminate. }
    destruct Hend as [[Hcalm | (evs0 & d & c & e' & -> & Hcalm & ->)]
                     | (evs0 & t & f & -> & Hcalm & Hrp)].
    + exfalso. apply (Hnot _ Hcalm).
      destruct Hcase as [(_ & _ & Hem) | (e1 & f1 & _ & Hem & _)]; rewrite Hem in Hin;
        destruct Hin as [Heq | Hin]; try discriminate; [exact Hin | ].
      apply List.in_app_or in Hin. destruct Hin as [Hin | [Heq | []]];
        [exact Hin | discriminate].
    + destruct Hcase as [(_ & Hne & _) | (e1 & f1 & He1 & Hem & Hr)];
        [exfalso; exact (Hne e' eq_refl) | ].
      inversion He1; subst e1. rewrite Hem in Hin |- *.
      destruct Hin as [Heq | Hin]; [discriminate | ].
      apply List.in_app_or in Hin. destruct Hin as [Hin | [Heq | []]]; [ | discriminate].
      apply List.in_app_or in Hin. destruct Hin as [Hin | [Heq | []]];
        [exfalso; exact (Hnot _ Hcalm Hin) | ].
      inversion Heq; subst d c e'.
      exists (Tg (reply "Starting download...") None :: evs0), f1.
      split; [simpl; rewrite <- List.app_assoc; reflexivity | ].
      destruct (Hquiet _ Hcalm) as [Hq1 Hq2].
      split; [ | split; [ | exact Hr]].
      * intros d c g [Heq' | Hg]; [discriminate | eauto].
      * intros t g [Heq' | Hg]; [discriminate | ].
        apply List.in_app_or in Hg. destruct Hg as [Hg | [Heq' | []]]; [ | discriminate].
        apply List.in_app_or in Hg. destruct Hg as [Hg | [Heq' | []]]; [ | discriminate].
        exact (Hq2 _ _ Hg).
    + exfalso.
      assert (Hin' : In (Tg (send_document doc cap) (Some e))
                       (evs0 ++ [Tg (edit_text (TaskCompleted t)) f])).
      { destruct Hcase as [(_ & _ & Hem) | (e1 & f1 & _ & Hem & _)]; rewrite Hem in Hin;
          destruct Hin as [Heq | Hin]; try discriminate; [exact Hin | ].
        apply List.in_app_or in Hin. destruct Hin as [Hin | [Heq | []]];
          [exact Hin | discriminate]. }
      apply List.in_app_or in Hin'. destruct Hin' as [Hin' | [Heq | []]];
        [exact (Hnot _ Hcalm Hin') | discriminate].
Qed.

Lemma failed_upload_ends_the_job_witness :
  exists evs0 f,
    emitted Sample.fresh (snd (download_file (Sample.flaky 1) 1 Sample.file_link Sample.fresh))
    = evs0 ++ [Tg (send_document "downloads/extracted/one.txt" "Extracted file: one.txt")
                 (Some (TelegramError "upload failed"));
               Tg (edit_text (Str ("❌ An error occurred while processing your link: "
                                   +:+ str (TelegramError "upload failed")))) f]
    /\ (forall d c g, In (Tg (send_document d c) g) evs0 -> g = None)
    /\ (forall t g,
          ~ In (Tg (edit_text (TaskCompleted t)) g)
              (emitted Sample.fresh
                 (snd (download_file (Sample.flaky 1) 1 Sample.file_link Sample.fresh))))
    /\ fst (download_file (Sample.flaky 1) 1 Sample.file_link Sample.fresh)
       = match f with None => Ok tt | Some e' => Raise e' end.
Proof.
  apply (failed_upload_ends_the_job (Sample.flaky 1) 1 Sample.file_link Sample.fresh).
  - apply surjective_pairing.
  - vm_compute. do 8 right. left. reflexivity.
Defined.

(** C7 as the spec states it fails: the first upload fails in one job,
    the second in the other, and the two failure reports are the same
    message. *)
Lemma failure_report_counterexample :
  ~ (List.last (Sample.flaky_log 0) (Slept 0) = List.last (Sample.flaky_log 1) (Slept 0) ->
     failed_ordinal (Sample.flaky_log 0) 0 = failed_ordinal (Sample.flaky_log 1) 0).
Proof. intros H. specialize (H eq_refl). vm_compute in H. discriminate. Qed.

(** ** Listing a directory *)

Lemma scandir_files (m : fsmap) d f :
  In f (List.map fst (List.filter (fun n => negb (is_dir n)) (children m d)))
  <-> exists data, m !! (d ++ [f]) = Some (File data).
Proof.
  rewrite List.in_map_iff. split.
  - intros ([name n] & Hf & Hin). simpl in Hf. subst name.
    apply List.filter_In in Hin. destruct Hin as [Hin Hfile].
    apply list_elem_of_In, children_spec in Hin.
    destruct n as [data|]; [eauto | discriminate].
  - intros [data H]. exists (f, File data). split; [reflexivity | ].
    apply List.filter_In. split; [ | reflexivity].
    apply list_elem_of_In, children_spec. exact H.
Qed.

Lemma scandir_dirs (m : fsmap) d c :
  In c (List.map fst (List.filter is_dir (children m d)))
  <-> m !! (d ++ [c]) = Some Dir.
Proof.
  rewrite List.in_map_iff. split.
  - intros ([name n] & Hf & Hin). simpl in Hf. subst name.
    apply List.filter_In in Hin. destruct Hin as [Hin Hdir].
    apply list_elem_of_In, children_spec in Hin.
    destruct n as [data|]; [discriminate | exact Hin].
  - intros H. exists (c, Dir). split; [reflexivity | ].
    apply List.filter_In. split; [ | reflexivity].
    apply list_elem_of_In, children_spec. exact H.
Qed.

Lemma nodup_map_filter {A B} (f : A -> B) (P : A -> bool) l :
  List.NoDup (List.map f l) -> List.NoDup (List.map f (List.filter P l)).
Proof.
  induction l as [|x l IH]; simpl; intros H; [constructor | ].
  inversion H as [|? ? Hx Hl]; subst. destruct (P x); simpl; [ | auto].
  constructor; [ | auto]. intros Hin. apply Hx.
  apply List.in_map_iff in Hin. destruct Hin as (y & Hy & Hin).
  apply List.filter_In in Hin. apply List.in_map_iff. exists y. tauto.
Qed.

Lemma children_nodup (m : fsmap) d : List.NoDup (List.map fst (children m d)).
Proof.
  unfold children.
  pose proof (NoDup_fst_map_to_list m) as Hnd.
  induction (map_to_list m) as [|[p n] l IH]; simpl; [constructor | ].
  rewrite fmap_cons in Hnd. apply NoDup_cons in Hnd. destruct Hnd as [Hp Hl].
  specialize (IH Hl).
  destruct (child_name d p) as [name|] eqn:Hc; simpl; [ | exact IH].
  constructor; [ | exact IH]. intros Hin.
  apply List.in_map_iff in Hin. destruct Hin as ([name' n'] & Hn & Hin).
  simpl in Hn. subst name'.
  apply list_elem_of_In, list_elem_of_omap in Hin.
  destruct Hin as ([p' n''] & Hin & Hf). simpl in Hf.
  destruct (child_name d p') as [name'|] eqn:Hc'; [ | discriminate].
  inversion Hf; subst. apply child_name_spec in Hc, Hc'. subst p p'.
  apply Hp. apply list_elem_of_fmap. exists (d ++ [name], n'). auto.
Qed.

Lemma depth_bound (m : fsmap) p n : m !! p = Some n -> (List.length p <= depth m)%nat.
Proof.
  intros H. apply elem_of_map_to_list, list_elem_of_In in H. unfold depth.
  induction (map_to_list m) as [|[q nq] l IH]; simpl in *; [destruct H | ].
  destruct H as [Heq | Hin]; [inversion Heq; subst; lia | specialize (IH Hin); lia].
Qed.

(** In a well-formed file system what lies above an entry is a directory. *)
Lemma wf_ancestor (m : fsmap) a : wf_fs m -> forall b n,
  m !! (a ++ b) = Some n -> b <> [] -> get m a = Some Dir.
Proof.
  intros Hwf b. induction b as [|x b IH] using List.rev_ind; intros n H Hne; [congruence | ].
  destruct (Hwf _ _ H) as (_ & _ & Hpar).
  rewrite List.app_assoc, parent_snoc in Hpar.
  destruct b as [|y b]; [rewrite List.app_nil_r in Hpar; exact Hpar | ].
  rewrite get_key in Hpar by (destruct a; discriminate).
  eapply IH; [exact Hpar | discriminate].
Qed.

(** ** Sending the extracted members *)

Lemma member_rounds_app evs1 r evs2 :
  member_rounds (Ok tt) evs1 -> member_rounds r evs2 -> member_rounds r (evs1 ++ evs2).
Proof.
  intros H1 H2. remember (Ok tt) as r1 eqn:Hr1.
  induction H1 as [ | | doc cap r1 evs1 H1 IH]; simpl; try discriminate.
  - exact H2.
  - constructor. apply IH. exact Hr1.
Qed.

Lemma member_rounds_fuel evs : ~ member_rounds OutOfFuel evs.
Proof.
  intros H. remember OutOfFuel as r eqn:Hr.
  induction H; try discriminate. auto.
Qed.

Lemma walked_nothing w : wf_fs (fs w) -> walked w (Ok tt) w [].
Proof.
  intros Hwf. split; [rewrite List.app_nil_r; reflexivity | ].
  split; [constructor | ]. split; [exact Hwf | ].
  split; [apply keeps_dirs_refl | apply only_removes_refl].
Qed.

Lemma walked_then w w1 r w2 evs1 evs2 :
  walked w (Ok tt) w1 evs1 -> walked w1 r w2 evs2 -> walked w r w2 (evs1 ++ evs2).
Proof.
  intros (Ht1 & Hr1 & _ & Hd1 & Ho1) (Ht2 & Hr2 & Hw2 & Hd2 & Ho2).
  split; [rewrite Ht2, Ht1, List.app_assoc; reflexivity | ].
  split; [apply member_rounds_app; assumption | ]. split; [exact Hw2 | ].
  split; [eapply keeps_dirs_trans; eauto | eapply only_removes_trans; eauto].
Qed.

Lemma snoc_inj {A} (l : list A) (x y : A) : l ++ [x] = l ++ [y] -> x = y.
Proof. intros H. apply List.app_inv_head in H. congruence. Qed.

(** The inner loop of the walk: the files of one directory. *)
Lemma send_files_run E root : forall files w r w',
  wf_fs (fs w) -> List.NoDup files ->
  (forall f, In f files -> exists data, fs w !! (Path.resolve root ++ [f]) = Some (File data)) ->
  for_each files (fun file =>
    tg E (send_document (Path.join root file) ("Extracted file: " +:+ file)) ;;;
    os_remove (Path.join root file)) w = (r, w') ->
  exists evs, walked w r w' evs
    /\ (r = Ok tt -> forall f, In f files -> fs w' !! (Path.resolve root ++ [f]) = None).
Proof.
  induction files as [|f files IH]; intros w r w' Hwf Hnd Hfiles H; simpl in H.
  - inversion H; subst. exists []. split; [apply walked_nothing; exact Hwf | ].
    intros _ f [].
  - inversion Hnd as [|? ? Hf Hnd']; subst.
    destruct (Hfiles f (or_introl eq_refl)) as [data Hdata].
    assert (Hok : Path.name_ok f = true).
    { destruct (Hwf _ _ Hdata) as (_ & Hnames & _).
      apply List.Forall_app in Hnames. destruct Hnames as [_ Hn].
      inversion Hn; subst. assumption. }
    pose proof (resolve_join root f Hok) as Hres.
    apply bind_run in H.
    destruct H as [(a & w1 & H1 & H) | [(e & H1 & ->) | (H1 & ->)]].
    + apply tg_then in H1. cbn [fs trace] in H1.
      destruct H1 as [(Hsend & H1) | (e & Hsend & Hr & Hw1)]; [ | discriminate].
      unfold os_remove in H1. apply fs_op_run in H1. cbn [fs trace] in H1.
      destruct H1 as [(m & Hm & _ & ->) | (e & Hm & Hr & _)]; [ | discriminate].
      destruct (remove_keeps _ _ _ Hm) as (Hd & Ho & Hw & Hother & Hgone).
      rewrite Hres in Hother, Hgone.
      assert (Hrest : forall f', In f' files ->
                exists data', m !! (Path.resolve root ++ [f']) = Some (File data')).
      { intros f' Hf'. rewrite Hother.
        - apply Hfiles. right. exact Hf'.
        - intros Heq. apply snoc_inj in Heq. subst f'. contradiction. }
      match type of H with
      | for_each _ _ ?w1 = _ =>
          destruct (IH w1 r w' (Hw Hwf) Hnd' Hrest H) as (evs & Hwalk & Hclear)
      end.
      exists ([Tg (send_document (Path.join root f) ("Extracted file: " +:+ f)) None;
               Removed (Path.join root f)] ++ evs).
      split.
      * eapply walked_then; [ | exact Hwalk].
        split; [cbn [trace]; rewrite <- List.app_assoc; reflexivity | ].
        split; [repeat constructor | ]. split; [apply Hw; exact Hwf | ].
        split; [exact Hd | exact Ho].
      * intros Hr f' [<- | Hf'].
        -- destruct Hwalk as (_ & _ & _ & _ & Ho').
           destruct (fs w' !! (Path.resolve root ++ [f])) as [n|] eqn:Hn; [ | reflexivity].
           apply Ho' in Hn. cbn [fs] in Hn. congruence.
        -- apply Hclear; assumption.
    + apply tg_then in H1. cbn [fs trace] in H1.
      destruct H1 as [(Hsend & H1) | (e' & Hsend & Hr & ->)].
      * unfold os_remove in H1. apply fs_op_run in H1. cbn [fs trace] in H1.
        destruct H1 as [(m & Hm & Hr & _) | (e' & Hm & _ & _)]; [discriminate | ].
        exfalso. unfold remove in Hm. rewrite Hres in Hm.
        rewrite get_key in Hm by (destruct (Path.resolve root); discriminate).
        rewrite Hdata in Hm. discriminate.
      * inversion Hr; subst e'. eexists. split; [ | discriminate].
        split; [reflexivity | ]. split; [constructor | ]. split; [exact Hwf | ].
        split; [apply keeps_dirs_refl | apply only_removes_refl].
    + exfalso. apply tg_then in H1. cbn [fs trace] in H1.
      destruct H1 as [(Hsend & H1) | (e' & Hsend & Hr & _)]; [ | discriminate].
      unfold os_remove in H1. apply fs_op_run in H1.
      destruct H1 as [(m & _ & Hr & _) | (e' & _ & Hr & _)]; discriminate.
Qed.

Lemma wf_key_names (m : fsmap) d c n :
  wf_fs m -> m !! (d ++ [c]) = Some n -> Path.name_ok c = true.
Proof.
  intros Hwf H. destruct (Hwf _ _ H) as (_ & Hnames & _).
  apply List.Forall_app in Hnames. destruct Hnames as [_ Hn].
  inversion Hn; subst. assumption.
Qed.

(** The walk from a directory of a well-formed file system, with fuel
    for the depth of the file system: it does not run out of fuel, its
    log is made of upload-and-remove rounds, it only removes files, and
    when it returns no file is left below the directory. *)
Lemma walk_send_run E k : forall fuel root w r w',
  wf_fs (fs w) ->
  fs w !! Path.resolve root = Some Dir ->
  (forall p n, fs w !! p = Some n -> (List.length p <= k)%nat) ->
  (k < List.length (Path.resolve root) + fuel)%nat ->
  walk_send E fuel root w = (r, w') ->
  exists evs, walked w r w' evs
    /\ (r = Ok tt -> forall p data, p <> [] ->
        fs w' !! (Path.resolve root ++ p) <> Some (File data)).
Proof.
  induction fuel as [|fuel IH]; intros root w r w' Hwf Hdir Hk Hfuel H.
  { apply Hk in Hdir. lia. }
  set (d := Path.resolve root) in *.
  assert (Hloop : forall dirs w r w',
            wf_fs (fs w) ->
            (forall c, In c dirs -> fs w !! (d ++ [c]) = Some Dir) ->
            (forall p n, fs w !! p = Some n -> (List.length p <= k)%nat) ->
            for_each dirs (fun c => walk_send E fuel (Path.join root c)) w = (r, w') ->
            exists evs, walked w r w' evs
              /\ (r = Ok tt -> forall c, In c dirs -> forall p data, p <> [] ->
                  fs w' !! ((d ++ [c]) ++ p) <> Some (File data))).
  { clear w r w' Hwf Hdir Hk H.
    induction dirs as [|c dirs IHd]; intros w r w' Hwf Hdirs Hk H; simpl in H.
    - inversion H; subst. exists []. split; [apply walked_nothing; exact Hwf | ].
      intros _ c [].
    - pose proof (Hdirs c (or_introl eq_refl)) as Hc.
      pose proof (resolve_join root c (wf_key_names _ _ _ _ Hwf Hc)) as Hres.
      fold d in Hres.
      assert (Hsub : forall r1 w1,
                walk_send E fuel (Path.join root c) w = (r1, w1) ->
                exists evs, walked w r1 w1 evs
                  /\ (r1 = Ok tt -> forall p data, p <> [] ->
                      fs w1 !! ((d ++ [c]) ++ p) <> Some (File data))).
      { intros r1 w1 H1. rewrite <- Hres. apply IH; auto.
        - rewrite Hres. exact Hc.
        - rewrite Hres, List.length_app. simpl. lia. }
      apply bind_run in H.
      destruct H as [([] & w1 & H1 & H) | [(e & H1 & ->) | (H1 & ->)]].
      + destruct (Hsub _ _ H1) as (evs1 & Hwalk1 & Hclear1).
        pose proof Hwalk1 as (_ & _ & Hwf1 & Hd1 & Ho1).
        assert (Hdirs1 : forall c', In c' dirs -> fs w1 !! (d ++ [c']) = Some Dir).
        { intros c' Hc'. apply Hd1, Hdirs. right. exact Hc'. }
        assert (Hk1 : forall p n, fs w1 !! p = Some n -> (List.length p <= k)%nat).
        { intros p n Hp. eapply Hk, Ho1, Hp. }
        destruct (IHd w1 r w' Hwf1 Hdirs1 Hk1 H) as (evs2 & Hwalk2 & Hclear2).
        exists (evs1 ++ evs2). split; [eapply walked_then; eauto | ].
        intros Hr c' [<- | Hc'] p data Hp.
        * intros Hfile. destruct Hwalk2 as (_ & _ & _ & _ & Ho2).
          apply Ho2 in Hfile. exact (Hclear1 eq_refl p data Hp Hfile).
        * apply Hclear2; assumption.
      + destruct (Hsub _ _ H1) as (evs1 & Hwalk1 & _).
        exists evs1. split; [exact Hwalk1 | discriminate].
      + destruct (Hsub _ _ H1) as (evs1 & Hwalk1 & _).
        exists evs1. split; [exact Hwalk1 | discriminate]. }
  assert (Hne : d <> []) by (destruct (Hwf _ _ Hdir) as (Hne & _); exact Hne).
  cbn [walk_send] in H. unfold bind at 1 in H. unfold scandir in H. fold d in H.
  rewrite (get_key _ _ Hne), Hdir in H.
  apply bind_run in H.
  destruct H as [([] & w1 & H1 & H) | [(e & H1 & ->) | (H1 & ->)]].
  - apply send_files_run in H1; [ | exact Hwf | | ].
    2:{ apply nodup_map_filter, children_nodup. }
    2:{ intros f Hf. apply scandir_files. exact Hf. }
    destruct H1 as (evs1 & Hwalk1 & Hclear1).
    pose proof Hwalk1 as (_ & _ & Hwf1 & Hd1 & Ho1).
    apply Hloop in H; [ | exact Hwf1 | | ].
    2:{ intros c Hc. apply Hd1. apply scandir_dirs. exact Hc. }
    2:{ intros p n Hp. eapply Hk, Ho1, Hp. }
    destruct H as (evs2 & Hwalk2 & Hclear2).
    pose proof Hwalk2 as (_ & _ & _ & _ & Ho2).
    exists (evs1 ++ evs2). split; [eapply walked_then; eauto | ].
    intros Hr p data Hp Hfile. destruct p as [|c p]; [congruence | ].
    destruct p as [|c' p].
    + pose proof (Ho1 _ _ (Ho2 _ _ Hfile)) as Hw0.
      assert (Hin : In c (List.map fst (List.filter (fun n => negb (is_dir n))
                                          (children (fs w) d))))
        by (apply scandir_files; eauto).
      pose proof (Hclear1 eq_refl c Hin) as Hnone. fold d in Hnone.
      pose proof (Ho2 _ _ Hfile) as Hw1. congruence.
    + pose proof (Ho1 _ _ (Ho2 _ _ Hfile)) as Hw0.
      change (d ++ c :: c' :: p) with (d ++ [c] ++ c' :: p) in Hw0, Hfile.
      rewrite List.app_assoc in Hw0, Hfile.
      pose proof (wf_ancestor _ _ Hwf _ _ Hw0 ltac:(discriminate)) as Hanc.
      rewrite get_key in Hanc by (destruct d; discriminate).
      apply scandir_dirs in Hanc.
      exact (Hclear2 Hr c Hanc (c' :: p) data ltac:(discriminate) Hfile).
  - apply send_files_run in H1; [ | exact Hwf | | ].
    2:{ apply nodup_map_filter, children_nodup. }
    2:{ intros f Hf. apply scandir_files. exact Hf. }
    destruct H1 as (evs1 & Hwalk1 & _). exists evs1. split; [exact Hwalk1 | discriminate].
  - apply send_files_run in H1; [ | exact Hwf | | ].
    2:{ apply nodup_map_filter, children_nodup. }
    2:{ intros f Hf. apply scandir_files. exact Hf. }
    destruct H1 as (evs1 & Hwalk1 & _). exists evs1. split; [exact Hwalk1 | discriminate].
Qed.

Lemma send_extracted_run E top w r w' :
  wf_fs (fs w) ->
  fs w !! Path.resolve top = Some Dir ->
  send_extracted E top w = (r, w') ->
  exists evs, walked w r w' evs
    /\ (r = Ok tt -> forall p data, p <> [] ->
        fs w' !! (Path.resolve top ++ p) <> Some (File data)).
Proof.
  intros Hwf Hdir H. unfold send_extracted in H.
  eapply (walk_send_run E (depth (fs w))); eauto.
  - intros p n Hp. eapply depth_bound; eauto.
  - lia.
Qed.

(** ** The archive branch *)

(** Every way the archive branch can go, from a well-formed file system
    in which the archive is a file. *)
Lemma relay_archive_run E dest file_path data w r w' :
  wf_fs (fs w) ->
  get (fs w) (Path.resolve file_path) = Some (File data) ->
  relay_archive E dest file_path w = (r, w') ->
  (exists e, r = Raise e /\ emitted w w' = [] /\ fs w' = fs w)
  \/ (exists e data',
        r = Raise e
        /\ emitted w w' = [Extracted file_path (Path.join dest "extracted") (Some e)]
        /\ get (fs w') (Path.resolve file_path) = Some (File data'))
  \/ exists rest,
       emitted w w'
       = Extracted file_path (Path.join dest "extracted") None :: Removed file_path :: rest
       /\ get (fs w') (Path.resolve file_path) = None
       /\ ((exists e, rest = [Tg (edit_text extraction_notice) (Some e)] /\ r = Raise e)
           \/ (exists rounds e,
                 rest = Tg (edit_text extraction_notice) None :: rounds
                 /\ member_rounds (Raise e) rounds /\ r = Raise e)
           \/ exists rounds,
                member_rounds (Ok tt) rounds
                /\ (forall p d, p <> [] ->
                    fs w' !! (Path.resolve (Path.join dest "extracted") ++ p) <> Some (File d))
                /\ ((rest = Tg (edit_text extraction_notice) None :: rounds
                            ++ [RemovedDir (Path.join dest "extracted")]
                     /\ r = Ok tt
                     /\ forall p, fs w' !! (Path.resolve (Path.join dest "extracted") ++ p) = None)
                    \/ (rest = Tg (edit_text extraction_notice) None :: rounds
                        /\ r = Raise (ENOTEMPTY (Path.join dest "extracted"))
                        /\ exists c p,
                             fs w' !! (Path.resolve (Path.join dest "extracted") ++ c :: p)
                             = Some Dir))).
Proof.
  intros Hwf Hfile H. unfold relay_archive in H.
  set (ext := Path.join dest "extracted") in *.
  assert (Hext : Path.resolve ext = Path.resolve dest ++ ["extracted"])
    by (apply resolve_join; reflexivity).
  assert (Hextne : Path.resolve ext <> [])
    by (rewrite Hext; destruct (Path.resolve dest); discriminate).
  assert (Hpne : Path.resolve file_path <> []).
  { intros Hp. rewrite Hp in Hfile. discriminate. }
  rewrite get_key in Hfile by exact Hpne.
  (* the extraction directory *)
  apply bind_run in H. destruct H as [([] & w1 & H1 & H) | [(e & H1 & ->) | (H1 & ->)]];
    apply fs_update_run in H1;
    destruct H1 as [(m1 & Hm1 & Hr1 & Hw1) | (e1 & Hm1 & Hr1 & Hw1)]; try discriminate.
  2:{ subst w'. left. exists e. split; [reflexivity | ].
      split; [apply emitted_refl | reflexivity]. }
  subst w1. destruct (makedirs_keeps _ _ _ Hm1) as (Hd1 & Hf1 & Hwf1 & Hdir1).
  rewrite get_key in Hdir1 by exact Hextne.
  (* the expansion *)
  apply bind_run in H. destruct H as [([] & w2 & H2 & H) | [(e & H2 & ->) | (H2 & ->)]];
    apply extractall_run in H2; cbn [fs trace] in H2;
    destruct H2 as (m2 & failure & Hw2 & Hr2 & Hd2 & Hf2 & Hwf2);
    (destruct failure as [e2|]; [ | ]); try discriminate.
  2:{ inversion Hr2; subst e2. right. left.
      destruct (Hf1 _ _ Hfile) as [d1 Hfile1]. destruct (Hf2 _ _ Hfile1) as [d2 Hfile2].
      exists e, d2. subst w'. split; [reflexivity | ].
      split; [apply emitted_app; reflexivity | ].
      cbn [fs]. rewrite get_key by exact Hpne. exact Hfile2. }
  subst w2. right. right.
  destruct (Hf1 _ _ Hfile) as [d1 Hfile1]. destruct (Hf2 _ _ Hfile1) as [d2 Hfile2].
  (* the archive goes *)
  unfold os_remove in H. apply fs_op_then in H. cbn [fs trace] in H.
  destruct H as [(m3 & Hm3 & H) | (e & Hm3 & _ & _)].
  2:{ exfalso. unfold remove in Hm3. rewrite get_key, Hfile2 in Hm3 by exact Hpne.
      discriminate. }
  destruct (remove_keeps _ _ _ Hm3) as (Hd3 & Ho3 & Hwf3 & _ & Hgone3).
  assert (Hwfm3 : wf_fs m3) by auto.
  assert (Hdir3 : m3 !! Path.resolve ext = Some Dir) by auto.
  assert (Hprefix : forall rest w'',
            trace w'' = ((trace w ++ [Extracted file_path ext None])
                         ++ [Removed file_path]) ++ rest ->
            emitted w w'' = Extracted file_path ext None :: Removed file_path :: rest).
  { intros rest w'' Ht. apply emitted_app. rewrite Ht, <- !List.app_assoc. reflexivity. }
  assert (Hgone : forall w'', only_removes m3 (fs w'') ->
            get (fs w'') (Path.resolve file_path) = None).
  { intros w'' Ho. rewrite get_key by exact Hpne.
    destruct (fs w'' !! Path.resolve file_path) as [n|] eqn:Hn; [ | reflexivity].
    apply Ho in Hn. congruence. }
  (* the notice *)
  apply tg_then in H. cbn [fs trace] in H.
  destruct H as [(Hnotice & H) | (e & Hnotice & -> & ->)].
  2:{ exists [Tg (edit_text extraction_notice) (Some e)].
      split; [apply Hprefix; reflexivity | ].
      split; [apply Hgone, only_removes_refl | ]. left. eauto. }
  (* the walk *)
  assert (Hwalk : forall tr r5 w5,
            send_extracted E ext (World m3 tr) = (r5, w5) ->
            exists evs, walked (World m3 tr) r5 w5 evs
              /\ (r5 = Ok tt -> forall p data, p <> [] ->
                  fs w5 !! (Path.resolve ext ++ p) <> Some (File data))).
  { intros tr r5 w5 H5. apply (send_extracted_run E); assumption. }
  apply bind_run in H. destruct H as [([] & w5 & H5 & H) | [(e & H5 & ->) | (H5 & ->)]];
    apply Hwalk in H5;
    destruct H5 as (rounds & (Ht5 & Hrounds & Hwf5 & Hd5 & Ho5) & Hclear);
    cbn [fs trace] in *.
  2:{ exists (Tg (edit_text extraction_notice) None :: rounds).
      split; [apply Hprefix; rewrite Ht5, <- !List.app_assoc; reflexivity | ].
      split; [apply Hgone; exact Ho5 | ]. right. left. exists rounds, e. auto. }
  2:{ exfalso. exact (member_rounds_fuel _ Hrounds). }
  specialize (Hclear eq_refl).
  (* the extraction directory goes, if it is empty *)
  unfold os_rmdir in H. apply fs_op_run in H.
  assert (Hdir5 : fs w5 !! Path.resolve ext = Some Dir) by auto.
  destruct H as [(m6 & Hm6 & -> & ->) | (e & Hm6 & -> & ->)].
  - destruct (rmdir_spec _ _ _ Hm6) as (_ & Hch & ->).
    destruct (rmdir_keeps _ _ _ Hm6) as (Ho6 & _ & _).
    exists (Tg (edit_text extraction_notice) None :: rounds ++ [RemovedDir ext]).
    split; [apply Hprefix; cbn [trace]; rewrite Ht5, <- !List.app_assoc; reflexivity | ].
    split; [apply Hgone; cbn [fs]; eapply only_removes_trans; eauto | ].
    right. right. exists rounds. split; [exact Hrounds | ]. cbn [fs]. split.
    + intros p d Hp Hn. apply Ho6 in Hn. exact (Hclear p d Hp Hn).
    + left. split; [reflexivity | ]. split; [reflexivity | ].
      intros p. destruct p as [|c p]; [rewrite List.app_nil_r; apply lookup_delete_eq | ].
      destruct (delete (Path.resolve ext) (fs w5) !! (Path.resolve ext ++ c :: p))
        as [n|] eqn:Hn; [exfalso | reflexivity].
      apply Ho6 in Hn.
      assert (Hchild : exists n', fs w5 !! (Path.resolve ext ++ [c]) = Some n').
      { destruct p as [|c' p]; [eauto | ].
        change (Path.resolve ext ++ c :: c' :: p)
          with (Path.resolve ext ++ [c] ++ c' :: p) in Hn.
        rewrite List.app_assoc in Hn.
        pose proof (wf_ancestor _ _ Hwf5 _ _ Hn ltac:(discriminate)) as Ha.
        rewrite get_key in Ha by (destruct (Path.resolve ext); discriminate). eauto. }
      destruct Hchild as [n' Hn'].
      apply children_spec in Hn'. rewrite Hch in Hn'. inversion Hn'.
  - exists (Tg (edit_text extraction_notice) None :: rounds).
    split; [apply Hprefix; rewrite Ht5, <- !List.app_assoc; reflexivity | ].
    split; [apply Hgone; exact Ho5 | ].
    right. right. exists rounds. split; [exact Hrounds | ]. split; [exact Hclear | ].
    right. split; [reflexivity | ].
    unfold rmdir in Hm6.
    destruct (Path.resolve ext) as [|x xs] eqn:Hx; [congruence | ].
    rewrite Hdir5 in Hm6.
    destruct (children (fs w5) (x :: xs)) as [|[c n] l] eqn:Hch; [discriminate | ].
    inversion Hm6; subst e. split; [reflexivity | ].
    assert (Hin : (c, n) ∈ children (fs w5) (x :: xs)) by (rewrite Hch; left).
    apply children_spec in Hin. exists c, [].
    destruct n as [d|]; [ | exact Hin].
    exfalso. exact (Hclear [c] d ltac:(discriminate) Hin).
Qed.

Lemma member_rounds_events r evs :
  member_rounds r evs -> forall ev, In ev evs -> round_event ev.
Proof.
  induction 1 as [ | doc cap e | doc cap r evs H IH]; intros ev Hin.
  - destruct Hin.
  - destruct Hin as [<- | []]. left. eauto.
  - destruct Hin as [<- | [<- | Hin]]; [left; eauto | right; eauto | auto].
Qed.

Lemma sends_removed_cons ev evs :
  (forall doc cap, ev <> Tg (send_document doc cap) None) ->
  sends_removed evs -> sends_removed (ev :: evs).
Proof.
  intros Hev H pre doc cap post Heq. destruct pre as [|x pre]; simpl in Heq.
  - inversion Heq; subst. exfalso. exact (Hev _ _ eq_refl).
  - inversion Heq; subst. eapply H. reflexivity.
Qed.

Lemma member_rounds_sends_removed r evs tail :
  member_rounds r evs ->
  (forall doc cap, ~ In (Tg (send_document doc cap) None) tail) ->
  sends_removed (evs ++ tail).
Proof.
  intros H Htail. induction H as [ | doc cap e | doc cap r evs H IH];
    intros pre doc' cap' post Heq; simpl in Heq.
  - exfalso. apply (Htail doc' cap'). rewrite Heq. apply List.in_elt.
  - destruct pre as [|x pre]; simpl in Heq; [inversion Heq | ].
    inversion Heq; subst. exfalso. apply (Htail doc' cap'). apply List.in_elt.
  - destruct pre as [|x pre]; simpl in Heq.
    + inversion Heq; subst. eauto.
    + destruct pre as [|y pre]; simpl in Heq; [inversion Heq | ].
      injection Heq as _ _ Heq. eapply IH. exact Heq.
Qed.

Lemma wf_empty : wf_fs ∅.
Proof. intros p n H. rewrite lookup_empty in H. discriminate. Qed.

Lemma staged_wf name data :
  Path.name_ok name = true -> wf_fs (fs (Sample.staged name data)).
Proof.
  intros Hname. unfold Sample.staged. cbn [fs].
  apply wf_insert.
  - apply wf_insert.
    + apply wf_empty.
    + discriminate.
    + repeat constructor.
    + reflexivity.
    + intros q _ _. right. reflexivity.
    + right. reflexivity.
  - discriminate.
  - repeat constructor. exact Hname.
  - cbn [parent List.removelast get]. apply lookup_insert_eq.
  - intros q Hq Hne. left. rewrite lookup_insert_ne.
    + apply lookup_empty.
    + intros <-. destruct Hne. discriminate || (unfold parent in Hq; simpl in Hq; discriminate).
  - left. rewrite lookup_insert_ne by discriminate. rewrite lookup_empty. discriminate.
Qed.

(** C6. In the archive branch the archive file is gone from staging
    exactly when the expansion completed without error; it is removed
    right after the expansion, before any member is uploaded.  When the
    expansion raises, the archive file is still there and is never
    removed.  Every member whose upload succeeds is removed at once
    after that upload. *)
Theorem archive_removed_once_expanded E dest file_path data w r w' :
  wf_fs (fs w) ->
  get (fs w) (Path.resolve file_path) = Some (File data) ->
  relay_archive E dest file_path w = (r, w') ->
  (get (fs w') (Path.resolve file_path) = None
   <-> In (Extracted file_path (Path.join dest "extracted") None) (emitted w w'))
  /\ (In (Extracted file_path (Path.join dest "extracted") None) (emitted w w') ->
      exists rest,
        emitted w w'
        = Extracted file_path (Path.join dest "extracted") None
          :: Removed file_path :: rest)
  /\ (forall e,
        In (Extracted file_path (Path.join dest "extracted") (Some e)) (emitted w w') ->
        r = Raise e
        /\ (exists data', get (fs w') (Path.resolve file_path) = Some (File data'))
        /\ ~ In (Removed file_path) (emitted w w'))
  /\ sends_removed (emitted w w').
Proof.
  intros Hwf Hfile H.
  destruct (relay_archive_run _ _ _ _ _ _ _ Hwf Hfile H)
    as [(e & Hr & Hem & Hfs) | [(e & data' & Hr & Hem & Hstill) | (rest & Hem & Hgone & Hrest)]].
  - rewrite Hem, Hfs, Hfile.
    split; [split; [discriminate | intros []] | ].
    split; [intros [] | ]. split; [intros e' [] | ].
    intros pre doc cap post Heq. destruct pre; discriminate.
  - rewrite Hem, Hstill.
    split; [split; [discriminate | intros [Heq | []]; discriminate] | ].
    split; [intros [Heq | []]; discriminate | ].
    split.
    + intros e' [Heq | []]. inversion Heq; subst e'.
      split; [exact Hr | ]. split; [eauto | ]. intros [Heq' | []]. discriminate.
    + intros pre doc cap post Heq.
      destruct pre as [|x pre]; [discriminate | ]. destruct pre; discriminate.
  - rewrite Hem, Hgone.
    split; [split; [intros _; left; reflexivity | reflexivity] | ].
    split; [intros _; eauto | ].
    assert (Hshape : exists rounds rr tail,
              member_rounds rr rounds
              /\ (tail = [] \/ tail = [RemovedDir (Path.join dest "extracted")])
              /\ (rest = Tg (edit_text extraction_notice) None :: rounds ++ tail
                  \/ exists e, rest = [Tg (edit_text extraction_notice) (Some e)] /\ rounds = [] /\ tail = [])).
    { destruct Hrest as [(e & -> & _) | [(rounds & e & -> & Hrounds & _)
                        | (rounds & Hrounds & _ & [(-> & _) | (-> & _)])]].
      - exists [], (Ok tt), []. split; [constructor | ]. split; [auto | ]. right. eauto.
      - exists rounds, (Raise e), []. split; [exact Hrounds | ]. split; [auto | ].
        left. rewrite List.app_nil_r. reflexivity.
      - exists rounds, (Ok tt), [RemovedDir (Path.join dest "extracted")]. auto.
      - exists rounds, (Ok tt), []. split; [exact Hrounds | ]. split; [auto | ].
        left. rewrite List.app_nil_r. reflexivity. }
    destruct Hshape as (rounds & rr & tail & Hrounds & Htail & Hrest').
    assert (Htail' : forall ev, In ev tail -> ev = RemovedDir (Path.join dest "extracted")).
    { intros ev Hin. destruct Htail as [-> | ->]; [destruct Hin | ].
      destruct Hin as [<- | []]. reflexivity. }
    split.
    + intros e [Heq | [Heq | Hin]]; try discriminate. exfalso.
      destruct Hrest' as [-> | (e' & -> & _)].
      * destruct Hin as [Heq | Hin]; [discriminate | ].
        apply List.in_app_or in Hin. destruct Hin as [Hin | Hin].
        -- apply (member_rounds_events _ _ Hrounds) in Hin.
           destruct Hin as [(d & c & f & Heq) | (d & Heq)]; discriminate.
        -- apply Htail' in Hin. discriminate.
      * destruct Hin as [Heq | []]. discriminate.
    + apply sends_removed_cons; [discriminate | ].
      apply sends_removed_cons; [discriminate | ].
      destruct Hrest' as [-> | (e' & -> & _)].
      * apply sends_removed_cons; [discriminate | ].
        apply (member_rounds_sends_removed _ _ _ Hrounds).
        intros doc cap Hin. apply Htail' in Hin. discriminate.
      * intros pre doc cap post Heq. destruct pre as [|x pre]; [discriminate | ].
        destruct pre; discriminate.
Qed.

Lemma archive_removed_once_expanded_witness :
  (get (fs (snd (relay_archive Sample.eager "downloads/" "downloads/a.zip"
                   (Sample.staged "a.zip" (List.repeat x00 22)))))
     (Path.resolve "downloads/a.zip") = None
   <-> In (Extracted "downloads/a.zip" (Path.join "downloads/" "extracted") None)
         (emitted (Sample.staged "a.zip" (List.repeat x00 22))
            (snd (relay_archive Sample.eager "downloads/" "downloads/a.zip"
                    (Sample.staged "a.zip" (List.repeat x00 22))))))
  /\ (In (Extracted "downloads/a.zip" (Path.join "downloads/" "extracted") None)
        (emitted (Sample.staged "a.zip" (List.repeat x00 22))
           (snd (relay_archive Sample.eager "downloads/" "downloads/a.zip"
                   (Sample.staged "a.zip" (List.repeat x00 22))))) ->
      exists rest,
        emitted (Sample.staged "a.zip" (List.repeat x00 22))
          (snd (relay_archive Sample.eager "downloads/" "downloads/a.zip"
                  (Sample.staged "a.zip" (List.repeat x00 22))))
        = Extracted "downloads/a.zip" (Path.join "downloads/" "extracted") None
          :: Removed "downloads/a.zip" :: rest)
  /\ (forall e,
        In (Extracted "downloads/a.zip" (Path.join "downloads/" "extracted") (Some e))
          (emitted (Sample.staged "a.zip" (List.repeat x00 22))
             (snd (relay_archive Sample.eager "downloads/" "downloads/a.zip"
                     (Sample.staged "a.zip" (List.repeat x00 22))))) ->
        fst (relay_archive Sample.eager "downloads/" "downloads/a.zip"
               (Sample.staged "a.zip" (List.repeat x00 22))) = Raise e
        /\ (exists data',
              get (fs (snd (relay_archive Sample.eager "downloads/" "downloads/a.zip"
                              (Sample.staged "a.zip" (List.repeat x00 22)))))
                (Path.resolve "downloads/a.zip") = Some (File data'))
        /\ ~ In (Removed "downloads/a.zip")
               (emitted (Sample.staged "a.zip" (List.repeat x00 22))
                  (snd (relay_archive Sample.eager "downloads/" "downloads/a.zip"
                          (Sample.staged "a.zip" (List.repeat x00 22))))))
  /\ sends_removed
       (emitted (Sample.staged "a.zip" (List.repeat x00 22))
          (snd (relay_archive Sample.eager "downloads/" "downloads/a.zip"
                  (Sample.staged "a.zip" (List.repeat x00 22))))).
Proof.
  apply (archive_removed_once_expanded Sample.eager "downloads/" "downloads/a.zip"
           (List.repeat x00 22) (Sample.staged "a.zip" (List.repeat x00 22))).
  - apply staged_wf. reflexivity.
  - vm_compute. reflexivity.
  - apply surjective_pairing.
Defined.

(** ** The whole job on an archive *)

Lemma update_progress_run E fuel path task data w :
  get (fs w) (Path.resolve path) = Some (File data) ->
  exists pct,
    update_progress E (S fuel) path task w
    = (Ok tt,
       World (fs w)
         (trace w ++
          [Tg (edit_text (Progress task pct
                            (Z.of_nat (List.length data) / (1024 * 1024))
                            (Z.of_nat (List.length data) / (1024 * 1024))))
              (telegram E (trace w)
                 (edit_text (Progress task pct
                               (Z.of_nat (List.length data) / (1024 * 1024))
                               (Z.of_nat (List.length data) / (1024 * 1024)))))])).
Proof.
  intros Hfile. eexists. unfold update_progress.
  unfold bind at 1. unfold os_path_getsize at 1. rewrite Hfile.
  cbn [progress_loop]. unfold bind at 1. unfold os_path_exists. rewrite Hfile.
  unfold bind at 1. unfold os_path_getsize. rewrite Hfile.
  unfold bind at 1. rewrite tg_swallowed.
  rewrite (proj2 (Z.geb_le _ _)) by lia. reflexivity.
Qed.












Lemma finish_raise E t e wb r w' :
  finish E t (Raise e) wb = (r, w') ->
  exists f,
    trace w' = trace wb ++ [Tg (edit_text (failure_report e)) f]
    /\ r = match f with None => Ok tt | Some e' => Raise e' end
    /\ fs w' = fs wb.
Proof.
  unfold finish, try_except. intros H. apply tg_run in H. destruct H as [-> ->].
  eexists. split; [reflexivity | ]. split; reflexivity.
Qed.

Lemma finish_fs E t rb wb r w' : finish E t rb wb = (r, w') -> fs w' = fs wb.
Proof.
  unfold finish, try_except. destruct rb as [[]|e|].
  - destruct (tg E (edit_text (TaskCompleted t)) wb) as [r1 w1] eqn:H1.
    apply tg_run in H1. destruct H1 as [-> Hr1].
    destruct r1 as [[]|e|]; intros H.
    + inversion H; subst. reflexivity.
    + apply tg_run in H. destruct H as [-> _]. reflexivity.
    + inversion H; subst. reflexivity.
  - intros H. apply tg_run in H. destruct H as [-> _]. reflexivity.
  - intros H. inversion H; subst. reflexivity.
Qed.



(** ** Further properties of the splitter and of the link check *)

(** For a file whose size lies strictly between two and three chunk
    sizes (4.5 GB, say) the splitter makes three uploads, of
    [<file>.part0], [<file>.part1] and [<file>.part2] in that order,
    captioned "Part 1/3", "Part 2/3" and "Part 3/3": the total of the
    caption is the number of chunks when the size is no multiple of the
    chunk size. *)
Theorem split_in_three_parts E file_path data w r w' :
  get (fs w) (Path.resolve file_path) = Some (File data) ->
  2 * two_gb < Z.of_nat (List.length data) < 3 * two_gb ->
  split_and_upload E file_path w = (r, w') ->
  ceil_div (Z.of_nat (List.length data)) two_gb = 3
  /\ exists n,
       (n <= 3)%nat
       /\ sent (emitted w w')
          = List.firstn n
              [(file_path +:+ ".part0", "Part 1/3 of " +:+ Path.basename file_path);
               (file_path +:+ ".part1", "Part 2/3 of " +:+ Path.basename file_path);
               (file_path +:+ ".part2", "Part 3/3 of " +:+ Path.basename file_path)]
       /\ (r = Ok tt -> n = 3%nat).
Proof.
  intros Hfile Hlen H.
  assert (HC : 0 < two_gb) by reflexivity.
  assert (Hceil : ceil_div (Z.of_nat (List.length data)) two_gb = 3).
  { unfold ceil_div. symmetry.
    apply (Z.div_unique _ _ 3 (Z.of_nat (List.length data) + two_gb - 1 - 3 * two_gb)).
    - left. unfold two_gb in *. lia.
    - unfold two_gb in *. lia. }
  assert (Hdiv : Z.of_nat (List.length data) / two_gb = 2).
  { symmetry.
    apply (Z.div_unique _ _ 2 (Z.of_nat (List.length data) - 2 * two_gb)).
    - left. unfold two_gb in *. lia.
    - unfold two_gb in *. lia. }
  split; [exact Hceil | ].
  unfold split_and_upload in H.
  destruct (split_and_upload_at_run _ _ _ _ _ _ _ HC Hfile H)
    as [(e & -> & Hsent) | (evs & Hem & Hrun)].
  - exists 0%nat. rewrite Hsent. split; [lia | ]. split; [reflexivity | discriminate].
  - rewrite Hem. cbn [sent].
    destruct (split_run_sent _ _ _ _ _ _ _ _ Hrun) as (Hs & Hle & Heq).
    pose proof (split_run_count _ _ _ _ _ _ _ _ HC Hrun) as Hcount.
    exists (List.length (sent evs)). split; [lia | ]. split.
    + rewrite Hs at 1.
      destruct (List.length (sent evs)) as [|[|[|[|n]]]]; try lia;
        cbn [part_sends List.firstn]; unfold part_caption; rewrite ?Hdiv; reflexivity.
    + intros Hr. specialize (Heq Hr).
      pose proof (split_run_chunking _ _ _ _ _ _ _ _ HC Hrun Hr) as (_ & Hn & _).
      lia.
Qed.

Lemma four_and_a_half_gb_length :
  Z.of_nat (List.length Sample.four_and_a_half_gb) = 4500000000.
Proof.
  unfold Sample.four_and_a_half_gb. rewrite List.repeat_length. apply Z2Nat.id.
  vm_compute. discriminate.
Qed.

Lemma split_in_three_parts_witness :
  ceil_div (Z.of_nat (List.length Sample.four_and_a_half_gb)) two_gb = 3
  /\ exists n,
       (n <= 3)%nat
       /\ sent (emitted (Sample.staged "big.bin" Sample.four_and_a_half_gb)
                  (snd (split_and_upload Sample.quiet "downloads/big.bin"
                          (Sample.staged "big.bin" Sample.four_and_a_half_gb))))
          = List.firstn n
              [("downloads/big.bin" +:+ ".part0", "Part 1/3 of " +:+ Path.basename "downloads/big.bin");
               ("downloads/big.bin" +:+ ".part1", "Part 2/3 of " +:+ Path.basename "downloads/big.bin");
               ("downloads/big.bin" +:+ ".part2", "Part 3/3 of " +:+ Path.basename "downloads/big.bin")]
       /\ (fst (split_and_upload Sample.quiet "downloads/big.bin"
                  (Sample.staged "big.bin" Sample.four_and_a_half_gb)) = Ok tt -> n = 3%nat).
Proof.
  apply (split_in_three_parts Sample.quiet "downloads/big.bin"
           Sample.four_and_a_half_gb (Sample.staged "big.bin" Sample.four_and_a_half_gb)).
  - replace (Path.resolve "downloads/big.bin") with ["downloads"; "big.bin"]
      by (vm_compute; reflexivity).
    apply staged_lookup.
  - rewrite four_and_a_half_gb_length. vm_compute. split; reflexivity.
  - apply surjective_pairing.
Defined.

Lemma basename_chunk_path_witness :
  Path.basename (chunk_path "downloads/big.bin" 2)
  = Path.basename "downloads/big.bin" +:+ ".part" +:+ Text.str_int 2.
Proof. apply (basename_chunk_path "downloads/big.bin" 2). lia. Defined.

Lemma strip_prefix_app p : forall s r,
  Text.strip_prefix p s = Some r -> s = p +:+ r.
Proof.
  induction p as [|a p IH]; intros s r H; simpl in H.
  - inversion H. reflexivity.
  - destruct s as [|b s]; [discriminate | ].
    destruct (Ascii.eqb a b) eqn:Hab; [ | discriminate].
    apply Ascii.eqb_eq in Hab. subst b. rewrite (IH _ _ H). reflexivity.
Qed.

(** A link of the folder form is refused, and nothing is fetched: the
    handler answers that folder downloads are not supported and returns. *)
Theorem folder_link_refused E fuel message_text mega_link rest w :
  Re.search Re.mega_link message_text = Some mega_link ->
  Text.strip_prefix "https://mega.nz/folder/" mega_link = Some rest ->
  download_file E fuel message_text w = tg E (reply folder_refusal) w.
Proof.
  intros Hsearch Hfolder. apply strip_prefix_app in Hfolder. subst mega_link.
  unfold download_file. rewrite Hsearch.
  replace (Text.contains "folder" ("https://mega.nz/folder/" +:+ rest)) with true
    by reflexivity.
  reflexivity.
Qed.

Lemma folder_link_refused_witness :
  download_file Sample.quiet 1 "https://mega.nz/folder/AbCd1234#key" Sample.fresh
  = tg Sample.quiet (reply folder_refusal) Sample.fresh.
Proof.
  apply (folder_link_refused Sample.quiet 1 "https://mega.nz/folder/AbCd1234#key"
           "https://mega.nz/folder/AbCd1234#key" "AbCd1234#key" Sample.fresh).
  - vm_compute. reflexivity.
  - vm_compute. reflexivity.
Defined.

(** ** The splitter and the file system *)

Lemma string_app_length (a b : string) :
  String.length (a +:+ b) = (String.length a + String.length b)%nat.
Proof. induction a as [|c a IH]; [reflexivity | ]. 
  change (String c a +:+ b) with (String c (a +:+ b)). cbn [String.length]. rewrite IH. reflexivity. Qed.

Lemma part_suffix_free idx : 0 <= idx ->
  Path.slash_free (".part" +:+ Text.str_int idx) = true
  /\ Path.nonempty (".part" +:+ Text.str_int idx) = true.
Proof.
  intros Hidx. split; [ | reflexivity].
  unfold Text.str_int. destruct (idx <? 0) eqn:Hneg; [apply Z.ltb_lt in Hneg; lia | ].
  change (".part" +:+ ?s) with (String "." (String "p" (String "a" (String "r" (String "t" s))))).
  cbn [Path.slash_free]. simpl.
  generalize (N.to_uint (Z.to_N idx)). intros u.
  unfold NilZero.string_of_uint. destruct u as [|u|u|u|u|u|u|u|u|u|u]; try reflexivity;
    simpl; induction u; simpl; auto.
Qed.

Lemma resolve_chunk_path file_path idx :
  0 <= idx ->
  Path.resolve (chunk_path file_path idx)
  = List.filter Path.nonempty (removelast (Path.pieces file_path))
    ++ [Path.basename file_path +:+ ".part" +:+ Text.str_int idx].
Proof.
  intros Hidx. destruct (part_suffix_free idx Hidx) as [Hfree Hne].
  unfold Path.resolve, chunk_path, Path.basename.
  rewrite pieces_app, (pieces_slash_free _ Hfree). cbn [List.hd List.tl].
  rewrite List.filter_app. cbn [List.filter].
  destruct (List.last (Path.pieces file_path) "") as [|c s]; reflexivity.
Qed.

Lemma chunk_path_beside file_path idx :
  0 <= idx -> Path.resolve (chunk_path file_path idx) <> Path.resolve file_path.
Proof.
  intros Hidx Heq. rewrite (resolve_chunk_path _ _ Hidx) in Heq.
  unfold Path.resolve in Heq.
  rewrite (List.app_removelast_last "" (pieces_nonempty file_path)) in Heq at 2.
  rewrite List.filter_app in Heq. apply List.app_inv_head in Heq.
  unfold Path.basename in Heq. cbn [List.filter] in Heq.
  destruct (Path.nonempty (List.last (Path.pieces file_path) "")); [ | discriminate].
  injection Heq as Heq. apply (f_equal String.length) in Heq.
  rewrite string_app_length in Heq. 
  change (".part" +:+ ?s) with (String "." (String "p" (String "a" (String "r" (String "t" s))))) in Heq.
  cbn [String.length] in Heq. lia.
Qed.

(** What the loop of the splitter does to the file system. *)
Lemma split_loop_fs E C path base size : forall fuel f idx w r w',
  0 <= idx ->
  split_loop E C fuel path base size f idx w = (r, w') ->
  (forall p, (forall i, idx <= i -> p <> Path.resolve (chunk_path path i)) ->
     fs w' !! p = fs w !! p)
  /\ (r = Ok tt ->
      (forall i, idx <= i -> fs w !! Path.resolve (chunk_path path i) = None) ->
      fs w' = fs w)
  /\ exists evs, trace w' = trace w ++ evs
       /\ forall doc cap e, In (Tg (send_document doc cap) (Some e)) evs ->
            r = Raise e
            /\ exists i chunk,
                 idx <= i /\ doc = chunk_path path i /\ chunk <> []
                 /\ fs w' !! Path.resolve doc = Some (File chunk).
Proof.
  induction fuel as [|fuel IH]; intros f idx w r w' Hidx H; simpl in H.
  { inversion H; subst. split; [reflexivity | ]. split; [reflexivity | ].
    exists []. rewrite List.app_nil_r. split; [reflexivity | intros ? ? ? []]. }
  destruct (read C f) as [chunk f'] eqn:Hread. destruct chunk as [|b chunk].
  { inversion H; subst. split; [reflexivity | ]. split; [reflexivity | ].
    exists []. rewrite List.app_nil_r. split; [reflexivity | intros ? ? ? []]. }
  unfold write_file, os_remove in H.
  apply fs_op_then in H. destruct H as [(m & Hm & H) | (e & Hm & -> & ->)].
  2:{ split; [reflexivity | ]. split; [reflexivity | ].
      exists []. rewrite List.app_nil_r. split; [reflexivity | intros ? ? ? []]. }
  destruct (write_spec _ _ _ _ Hm) as (Hne & _ & _ & ->).
  apply tg_then in H. cbn [trace fs] in H.
  destruct H as [(Hsend & H) | (e & Hsend & -> & ->)].
  2:{ cbn [fs trace]. split.
      { intros p Hp. apply lookup_insert_ne. intros Heq. apply (Hp idx); [lia | congruence]. }
      split; [discriminate | ].
      eexists. rewrite <- List.app_assoc. split; [reflexivity | ].
      intros doc cap e' [Heq | [Heq | []]]; [discriminate | ].
      inversion Heq; subst. split; [reflexivity | ].
      exists idx, (b :: chunk). split; [lia | ]. split; [reflexivity | ].
      split; [discriminate | ]. apply lookup_insert_eq. }
  apply fs_op_then in H. cbn [trace fs] in H.
  destruct H as [(m3 & Hm3 & H) | (e & Hm3 & -> & ->)].
  2:{ cbn [fs trace]. split.
      { intros p Hp. apply lookup_insert_ne. intros Heq. apply (Hp idx); [lia | congruence]. }
      split; [discriminate | ].
      eexists. rewrite <- List.app_assoc. split; [reflexivity | ].
      intros doc cap e' [Heq | [Heq | []]]; discriminate. }
  destruct (remove_spec _ _ _ Hm3) as (d & _ & ->).
  rewrite delete_insert_eq in H.
  assert (Hidx' : 0 <= idx + 1) by lia.
  destruct (IH _ _ _ _ _ Hidx' H) as (Hout & Hok & evs & Htr & Hfail).
  cbn [fs trace] in *. split.
  { intros p Hp. rewrite Hout by (intros i Hi; apply Hp; lia).
    apply lookup_delete_ne. intros Heq. apply (Hp idx); [lia | congruence]. }
  split.
  { intros Hr Hfree. rewrite Hok.
    - apply delete_id. apply Hfree. lia.
    - exact Hr.
    - intros i Hi. rewrite lookup_delete_None. right. apply Hfree. lia. }
  eexists. split; [rewrite Htr, <- !List.app_assoc; reflexivity | ].
  intros doc cap e [Heq | [Heq | [Heq | Hin]]]; try discriminate.
  destruct (Hfail _ _ _ Hin) as (Hr & i & c & Hi & Hdoc & Hc & Hfs).
  split; [exact Hr | ]. exists i, c. split; [lia | auto].
Qed.

Lemma split_and_upload_at_keeps E C file_path data w r w' :
  get (fs w) (Path.resolve file_path) = Some (File data) ->
  split_and_upload_at E C file_path w = (r, w') ->
  get (fs w') (Path.resolve file_path) = Some (File data).
Proof.
  intros Hfile H. unfold split_and_upload_at in H.
  apply bind_run in H. destruct H as [(size & w1 & H1 & H) | [(e & H1 & ->) | (H1 & ->)]];
    apply getsize_run in H1; destruct H1 as [-> Hsize]; try exact Hfile.
  apply tg_then in H. destruct H as [(Hedit & H) | (e & Hedit & -> & ->)]; [ | exact Hfile].
  apply bind_run in H. destruct H as [(f & w2 & H2 & H) | [(e & H2 & ->) | (H2 & ->)]];
    apply open_rb_run in H2; cbn [fs trace] in H2; destruct H2 as [-> Hopen]; try exact Hfile.
  apply split_loop_fs in H; [ | lia]. destruct H as (Hout & _). cbn [fs] in Hout.
  assert (Hne : Path.resolve file_path <> []).
  { intros Heq. rewrite Heq in Hfile. discriminate. }
  rewrite get_key in * by exact Hne. rewrite Hout; [exact Hfile | ].
  intros i Hi Heq. symmetry in Heq. revert Heq. apply chunk_path_beside. exact Hi.
Qed.

(** The splitter never removes or rewrites the file it splits. *)
Theorem split_keeps_the_file E file_path data w r w' :
  get (fs w) (Path.resolve file_path) = Some (File data) ->
  split_and_upload E file_path w = (r, w') ->
  get (fs w') (Path.resolve file_path) = Some (File data).
Proof. apply split_and_upload_at_keeps. Qed.

Lemma split_keeps_the_file_witness :
  get (fs (snd (split_and_upload Sample.quiet "downloads/a.bin" Sample.three_bytes)))
    (Path.resolve "downloads/a.bin")
  = Some (File [x01; x02; x03]%byte).
Proof.
  apply (split_keeps_the_file Sample.quiet "downloads/a.bin" [x01; x02; x03]%byte
           Sample.three_bytes
           (fst (split_and_upload Sample.quiet "downloads/a.bin" Sample.three_bytes))).
  - vm_compute. reflexivity.
  - apply surjective_pairing.
Defined.

(** When the splitter returns, no chunk file is left. *)
Theorem split_leaves_no_chunk E file_path data w w' :
  get (fs w) (Path.resolve file_path) = Some (File data) ->
  (forall i, 0 <= i -> fs w !! Path.resolve (chunk_path file_path i) = None) ->
  split_and_upload E file_path w = (Ok tt, w') ->
  fs w' = fs w.
Proof.
  intros Hfile Hfree H. unfold split_and_upload, split_and_upload_at in H.
  apply bind_run in H. destruct H as [(size & w1 & H1 & H) | [(e & H1 & Hr) | (H1 & Hr)]];
    try discriminate.
  apply getsize_run in H1; destruct H1 as [-> Hsize].
  apply tg_then in H. destruct H as [(Hedit & H) | (e & Hedit & Hr & _)]; [ | discriminate].
  apply bind_run in H. destruct H as [(f & w2 & H2 & H) | [(e & H2 & Hr) | (H2 & Hr)]];
    try discriminate.
  apply open_rb_run in H2; cbn [fs trace] in H2; destruct H2 as [-> Hopen].
  apply split_loop_fs in H; [ | lia]. destruct H as (_ & Hok & _). cbn [fs] in Hok.
  apply Hok; [reflexivity | exact Hfree].
Qed.

Lemma three_bytes_no_chunk i :
  0 <= i -> fs Sample.three_bytes !! Path.resolve (chunk_path "downloads/a.bin" i) = None.
Proof.
  intros Hi. rewrite (resolve_chunk_path _ _ Hi).
  replace (List.filter Path.nonempty (removelast (Path.pieces "downloads/a.bin")))
    with ["downloads"] by (vm_compute; reflexivity).
  replace (Path.basename "downloads/a.bin") with "a.bin" by (vm_compute; reflexivity).
  unfold Sample.three_bytes, Sample.staged. cbn [fs List.app].
  rewrite !lookup_insert_ne; [apply lookup_empty | discriminate | ].
  intros Heq. injection Heq as Heq. apply (f_equal String.length) in Heq.
  rewrite !string_app_length in Heq. cbn [String.length] in Heq. lia.
Qed.

Lemma split_leaves_no_chunk_witness :
  fs (snd (split_and_upload Sample.quiet "downloads/a.bin" Sample.three_bytes))
  = fs Sample.three_bytes.
Proof.
  apply (split_leaves_no_chunk Sample.quiet "downloads/a.bin" [x01; x02; x03]%byte).
  - vm_compute. reflexivity.
  - apply three_bytes_no_chunk.
  - vm_compute. reflexivity.
Defined.

(** A chunk whose upload failed stays on disk. *)
Theorem failed_chunk_stays E file_path data w r w' doc cap e :
  get (fs w) (Path.resolve file_path) = Some (File data) ->
  split_and_upload E file_path w = (r, w') ->
  In (Tg (send_document doc cap) (Some e)) (emitted w w') ->
  r = Raise e
  /\ exists i chunk,
       0 <= i /\ doc = file_path +:+ ".part" +:+ Text.str_int i /\ chunk <> []
       /\ get (fs w') (Path.resolve doc) = Some (File chunk).
Proof.
  intros Hfile H Hin. unfold split_and_upload, split_and_upload_at in H.
  apply bind_run in H. destruct H as [(size & w1 & H1 & H) | [(e0 & H1 & ->) | (H1 & ->)]];
    apply getsize_run in H1; destruct H1 as [-> Hsize];
    try (rewrite emitted_refl in Hin; destruct Hin).
  apply tg_then in H. destruct H as [(Hedit & H) | (e0 & Hedit & -> & ->)].
  2:{ rewrite (emitted_app _ _ [Tg (edit_text split_notice) (Some e0)]) in Hin by reflexivity.
      destruct Hin as [Heq | []]. discriminate. }
  apply bind_run in H. destruct H as [(f & w2 & H2 & H) | [(e0 & H2 & ->) | (H2 & ->)]];
    apply open_rb_run in H2; cbn [fs trace] in H2; destruct H2 as [-> Hopen];
    try (rewrite (emitted_app _ _ [Tg (edit_text split_notice) None]) in Hin by reflexivity;
         destruct Hin as [Heq | []]; discriminate).
  apply split_loop_fs in H; [ | lia]. destruct H as (_ & _ & evs & Htr & Hfail).
  cbn [trace] in Htr.
  rewrite (emitted_app _ _ (Tg (edit_text split_notice) None :: evs)) in Hin
    by (rewrite Htr, <- List.app_assoc; reflexivity).
  destruct Hin as [Heq | Hin]; [discriminate | ].
  destruct (Hfail _ _ _ Hin) as (Hr & i & c & Hi & Hdoc & Hc & Hfs).
  split; [exact Hr | ]. exists i, c. split; [exact Hi | ]. split; [exact Hdoc | ].
  split; [exact Hc | ]. rewrite get_key; [exact Hfs | ].
  intros Heq. rewrite Heq in Hfs. subst doc.
  rewrite (resolve_chunk_path _ _ Hi) in Heq. destruct (List.filter _ _); discriminate.
Qed.

Lemma failed_chunk_stays_witness :
  fst (split_and_upload (Sample.flaky 0) "downloads/a.bin" Sample.three_bytes)
  = Raise (TelegramError "upload failed")
  /\ exists i chunk,
       0 <= i /\ "downloads/a.bin.part0" = "downloads/a.bin" +:+ ".part" +:+ Text.str_int i
       /\ chunk <> []
       /\ get (fs (snd (split_and_upload (Sample.flaky 0) "downloads/a.bin" Sample.three_bytes)))
            (Path.resolve "downloads/a.bin.part0")
          = Some (File chunk).
Proof.
  apply (failed_chunk_stays (Sample.flaky 0) "downloads/a.bin" [x01; x02; x03]%byte
           Sample.three_bytes _ _ "downloads/a.bin.part0" "Part 1/1 of a.bin").
  - vm_compute. reflexivity.
  - apply surjective_pairing.
  - vm_compute. right. right. left. reflexivity.
Defined.

(** ** The stages of a job *)

(** How a job starts: every way [download_file] can go before the [try]. *)
Lemma job_start E fuel text w r w' :
  download_file E fuel text w = (r, w') ->
  (Re.search Re.mega_link text = None
   /\ tg E (reply "❌ No valid Mega.nz link found.") w = (r, w'))
  \/ exists link,
       Re.search Re.mega_link text = Some link
       /\ ((Text.contains "folder" link = true /\ tg E (reply folder_refusal) w = (r, w'))
           \/ (Text.contains "folder" link = false
               /\ ((exists e, makedirs (fs w) "downloads/" = inl e /\ r = Raise e /\ w' = w)
                   \/ exists m1,
                        makedirs (fs w) "downloads/" = inr m1
                        /\ ((exists e,
                               telegram E (trace w) (reply "Starting download...") = Some e
                               /\ r = Raise e
                               /\ w' = World m1 (trace w ++ [Tg (reply "Starting download...") (Some e)]))
                            \/ (telegram E (trace w) (reply "Starting download...") = None
                                /\ try_except (pipeline E fuel link "downloads/")
                                     (fun e => tg E (edit_text (failure_report e)))
                                     (World m1 (trace w ++ [Tg (reply "Starting download...") None]))
                                   = (r, w')))))).
Proof.
  intros H. unfold download_file in H.
  destruct (Re.search Re.mega_link text) as [link|]; [ | left; auto].
  right. exists link. split; [reflexivity | ].
  destruct (Text.contains "folder" link); [left; auto | right].
  split; [reflexivity | ].
  apply bind_run in H. destruct H as [([] & w1 & H1 & H) | [(e & H1 & ->) | (H1 & ->)]];
    apply fs_update_run in H1;
    destruct H1 as [(m1 & Hm1 & Hr1 & Hw1) | (e1 & Hm1 & Hr1 & Hw1)]; try discriminate.
  2:{ left. exists e1. inversion Hr1; subst. auto. }
  right. exists m1. split; [exact Hm1 | ]. subst w1.
  apply tg_then in H. cbn [fs trace] in H.
  destruct H as [(Hreply & H) | (e & Hreply & -> & ->)]; [right | left; eauto].
  auto.
Qed.

(** Every way the body of the [try] can go: the fetch fails, or the file
    is stored, the monitor makes its one update, the file is classified,
    its branch runs, and the completion report follows a branch that
    returned. *)
Lemma pipeline_cases E fuel link dest w rp wp :
  pipeline E (S fuel) link dest w = (rp, wp) ->
  (exists e,
     rp = Raise e /\ wp = World (fs w) (trace w ++ [Fetched link (Some e)])
     /\ (mega E link = inl e
         \/ exists name data,
              mega E link = inr (name, data)
              /\ write (fs w) (dest +:+ name) data = inl e))
  \/ exists name data m pct f z rb wb,
       mega E link = inr (name, data)
       /\ write (fs w) (dest +:+ name) data = inr m
       /\ get m (Path.resolve (dest +:+ name)) = Some (File data)
       /\ is_zipfile E (dest +:+ name) (World m []) = (Ok z, World m [])
       /\ relay E z dest (dest +:+ name)
            (World m (trace w ++ [Fetched link None;
                                  Tg (edit_text (Progress "Download" pct
                                        (Z.of_nat (List.length data) / (1024 * 1024))
                                        (Z.of_nat (List.length data) / (1024 * 1024)))) f]))
          = (rb, wb)
       /\ (rp, wp)
          = match rb with
            | Ok _ =>
                tg E (edit_text (TaskCompleted
                        (Qminus (clock E (trace w ++ [Fetched link None])) (clock E (trace w))))) wb
            | Raise e => (Raise e, wb)
            | OutOfFuel => (OutOfFuel, wb)
            end.
Proof.
  intros Hp. unfold pipeline in Hp. unfold bind at 1 in Hp. unfold time_time at 1 in Hp.
  unfold bind at 1 in Hp. unfold download_url at 1 in Hp.
  destruct (mega E link) as [e|[name data]] eqn:Hmega.
  { left. exists e. inversion Hp; subst. auto. }
  destruct (write (fs w) (dest +:+ name) data) as [e|m3] eqn:Hwrite.
  { left. exists e. inversion Hp; subst. split; [reflexivity | ]. split; [reflexivity | ].
    right. eauto. }
  right.
  destruct (write_keeps _ _ _ _ Hwrite) as (_ & _ & _ & Hfile3).
  unfold bind at 1 in Hp. unfold time_time at 1 in Hp. cbn [fs trace] in Hp.
  assert (Hget3 : get m3 (Path.resolve (dest +:+ name)) = Some (File data)).
  { destruct (Path.resolve (dest +:+ name)) eqn:Hres; [ | exact Hfile3].
    apply write_spec in Hwrite. rewrite Hres in Hwrite. tauto. }
  match type of Hp with
  | bind (update_progress _ _ _ _) _ ?w3 = _ =>
      destruct (update_progress_run E fuel (dest +:+ name) "Download" data w3 Hget3)
        as [pct Hprog]
  end.
  unfold bind at 1 in Hp. rewrite Hprog in Hp. cbn [fs trace] in Hp.
  assert (Hz : exists z, forall t, is_zipfile E (dest +:+ name) (World m3 t) = (Ok z, World m3 t)).
  { unfold is_zipfile. cbn [fs]. rewrite Hget3.
    destruct (Z.of_nat (List.length data) <? sizeEndCentDir); eauto. }
  destruct Hz as [z Hz].
  unfold bind at 1 in Hp. rewrite Hz in Hp.
  rewrite <- List.app_assoc in Hp. cbn [List.app] in Hp.
  eexists name, data, m3, pct, _, z.
  change (if z then relay_archive E dest (dest +:+ name) else relay_plain E (dest +:+ name))
    with (relay E z dest (dest +:+ name)) in Hp.
  unfold bind in Hp.
  match type of Hp with
  | match relay E z dest _ ?w4 with _ => _ end = _ =>
      destruct (relay E z dest (dest +:+ name) w4) as [rb wb] eqn:Hb
  end.
  exists rb, wb. split; [reflexivity | ]. split; [exact Hwrite | ]. split; [exact Hget3 | ].
  split; [apply Hz | ]. split; [exact Hb | ].
  destruct rb as [[]|e|]; symmetry; exact Hp.
Qed.

(** ** What a run adds to the log *)

Lemma adds_refl P w : adds P w w.
Proof. exists []. rewrite List.app_nil_r. split; [reflexivity | constructor]. Qed.

Lemma adds_trans P w1 w2 w3 : adds P w1 w2 -> adds P w2 w3 -> adds P w1 w3.
Proof.
  intros (evs1 & H1 & HP1) (evs2 & H2 & HP2). exists (evs1 ++ evs2).
  rewrite H2, H1, List.app_assoc. split; [reflexivity | ].
  apply List.Forall_app. auto.
Qed.

Lemma adds_tg (P : event -> Prop) E c :
  (forall f, P (Tg c f)) -> preserves (adds P) (tg E c).
Proof.
  intros HP w r w' H. apply tg_run in H. destruct H as [-> _].
  eexists. split; [reflexivity | ]. repeat constructor. apply HP.
Qed.

Lemma adds_fs_op (P : event -> Prop) op ev : P ev -> preserves (adds P) (fs_op op ev).
Proof.
  intros HP w r w' H. apply fs_op_run in H.
  destruct H as [(m & _ & _ & ->) | (e & _ & _ & ->)]; [ | apply adds_refl].
  eexists. split; [reflexivity | ]. repeat constructor. exact HP.
Qed.

Lemma adds_fs_update P op : preserves (adds P) (fs_update op).
Proof.
  intros w r w' H. apply fs_update_run in H.
  destruct H as [(m & _ & _ & ->) | (e & _ & _ & ->)]; [ | apply adds_refl].
  exists []. cbn [trace]. rewrite List.app_nil_r. split; [reflexivity | constructor].
Qed.

Lemma adds_extractall (P : event -> Prop) E archive dir :
  (forall f, P (Extracted archive dir f)) -> preserves (adds P) (extractall E archive dir).
Proof.
  intros HP w r w' H. apply extractall_run in H. destruct H as (m & f & -> & _).
  eexists. split; [reflexivity | ]. repeat constructor. apply HP.
Qed.

Lemma adds_sleep (P : event -> Prop) s : P (Slept s) -> preserves (adds P) (asyncio_sleep s).
Proof.
  intros HP w r w' H. inversion H; subst.
  eexists. split; [reflexivity | ]. repeat constructor. exact HP.
Qed.

Lemma adds_in P w w' ev : adds P w w' -> In ev (emitted w w') -> P ev.
Proof.
  intros (evs & Ht & HP) Hin. rewrite (emitted_app _ _ _ Ht) in Hin.
  rewrite List.Forall_forall in HP. auto.
Qed.

(** The branch of a classified file logs calls on Telegram, writes,
    removals and one expansion, all of them allowed by [P]. *)
Lemma relay_adds (P : event -> Prop) E z dest path :
  (forall c f, P (Tg c f)) ->
  (forall p d, P (Wrote p d)) ->
  (forall p, P (Removed p)) ->
  (forall f, P (Extracted path (Path.join dest "extracted") f)) ->
  P (RemovedDir (Path.join dest "extracted")) ->
  preserves (adds P) (relay E z dest path).
Proof.
  intros Htg Hwrote Hremoved Hext Hrmdir. unfold relay. destruct z.
  - unfold relay_archive.
    apply preserves_bind; [apply adds_trans | apply adds_fs_update | intros _].
    apply preserves_bind; [apply adds_trans | apply adds_extractall, Hext | intros _].
    apply preserves_bind; [apply adds_trans | apply adds_fs_op, Hremoved | intros _].
    apply preserves_bind; [apply adds_trans | apply adds_tg, Htg | intros _].
    apply preserves_bind; [apply adds_trans | | intros _; apply adds_fs_op, Hrmdir].
    apply send_extracted_preserves.
    + apply adds_refl.
    + apply adds_trans.
    + intros c. apply adds_tg, Htg.
    + intros p. apply adds_fs_op, Hremoved.
  - apply relay_plain_preserves.
    + apply adds_refl.
    + apply adds_trans.
    + intros c. apply adds_tg, Htg.
    + intros p d. apply adds_fs_op, Hwrote.
    + intros p. apply adds_fs_op, Hremoved.
Qed.

Lemma relay_shaped E z dest path : shaped disc (relay E z dest path).
Proof.
  unfold relay. destruct z; [apply disciplined_relay_archive | apply disciplined_relay_plain].
Qed.

(** How the [try] ends after a branch that returned. *)
Lemma finish_ok E t wb r w' :
  finish E t (Ok tt) wb = (r, w') ->
  fs w' = fs wb
  /\ ((r = Ok tt /\ trace w' = trace wb ++ [Tg (edit_text (TaskCompleted t)) None])
      \/ exists e f,
           trace w' = trace wb ++ [Tg (edit_text (TaskCompleted t)) (Some e);
                                   Tg (edit_text (failure_report e)) f]
           /\ r = match f with None => Ok tt | Some e' => Raise e' end).
Proof.
  intros H. split; [exact (finish_fs _ _ _ _ _ _ H) | ].
  unfold finish, try_except in H.
  destruct (tg E (edit_text (TaskCompleted t)) wb) as [r1 w1] eqn:H1.
  apply tg_run in H1. destruct H1 as [-> Hr1].
  destruct (telegram E (trace wb) (edit_text (TaskCompleted t))) as [e|]; subst r1.
  - right. apply tg_run in H. destruct H as [-> ->]. cbn [trace].
    eexists _, _. rewrite <- List.app_assoc. split; reflexivity.
  - left. inversion H; subst. auto.
Qed.

(** Every way the [try] and its handler can go. *)
Lemma try_pipeline_cases E fuel link dest w r w' :
  try_except (pipeline E (S fuel) link dest)
    (fun e => tg E (edit_text (failure_report e))) w = (r, w') ->
  (exists e f,
     w' = World (fs w) (trace w ++ [Fetched link (Some e);
                                    Tg (edit_text (failure_report e)) f])
     /\ r = match f with None => Ok tt | Some e' => Raise e' end
     /\ (mega E link = inl e
         \/ exists name data,
              mega E link = inr (name, data)
              /\ write (fs w) (dest +:+ name) data = inl e))
  \/ exists name data m pct f z rb wb,
       mega E link = inr (name, data)
       /\ write (fs w) (dest +:+ name) data = inr m
       /\ get m (Path.resolve (dest +:+ name)) = Some (File data)
       /\ is_zipfile E (dest +:+ name) (World m []) = (Ok z, World m [])
       /\ relay E z dest (dest +:+ name)
            (World m (trace w ++ [Fetched link None;
                                  Tg (edit_text (Progress "Download" pct
                                        (Z.of_nat (List.length data) / (1024 * 1024))
                                        (Z.of_nat (List.length data) / (1024 * 1024)))) f]))
          = (rb, wb)
       /\ finish E (Qminus (clock E (trace w ++ [Fetched link None])) (clock E (trace w)))
            rb wb = (r, w').
Proof.
  intros H. unfold try_except in H.
  destruct (pipeline E (S fuel) link dest w) as [rp wp] eqn:Hp.
  apply pipeline_cases in Hp.
  destruct Hp as [(e & -> & -> & Hwhy) | (name & data & m & pct & f & z & rb & wb & H1 & H2 & H3 & H4 & H5 & H6)].
  - left. apply tg_run in H. destruct H as [-> ->]. cbn [fs trace].
    eexists _, _. rewrite <- List.app_assoc. split; [reflexivity | ].
    split; [reflexivity | exact Hwhy].
  - right. exists name, data, m, pct, f, z, rb, wb. repeat (split; [assumption | ]).
    unfold finish, try_except. destruct rb as [[]|e|].
    + rewrite <- H6. exact H.
    + inversion H6; subst. exact H.
    + inversion H6; subst. exact H.
Qed.

Lemma finish_adds (P : event -> Prop) E t rb wb r w' :
  (forall c f, P (Tg c f)) -> finish E t rb wb = (r, w') -> adds P wb w'.
Proof.
  intros HP. unfold finish. apply preserves_try.
  - apply adds_trans.
  - intros w r0 w0 H. destruct rb as [[]|e|].
    + revert H. apply adds_tg, HP.
    + inversion H; subst. apply adds_refl.
    + inversion H; subst. apply adds_refl.
  - intros e. apply adds_tg, HP.
Qed.

(** ** What a job reports *)

Lemma tg_emitted E c w r w' :
  tg E c w = (r, w') -> emitted w w' = [Tg c (telegram E (trace w) c)].
Proof. intros H. apply tg_run in H. destruct H as [-> _]. apply emitted_app. reflexivity. Qed.

(** A job that logged anything but a reply got as far as the [try]. *)
Lemma job_started E fuel text w r w' ev :
  download_file E fuel text w = (r, w') ->
  In ev (emitted w w') -> (forall s f, ev <> Tg (reply s) f) ->
  exists link m1,
    Re.search Re.mega_link text = Some link
    /\ Text.contains "folder" link = false
    /\ makedirs (fs w) "downloads/" = inr m1
    /\ telegram E (trace w) (reply "Starting download...") = None
    /\ try_except (pipeline E fuel link "downloads/")
         (fun e => tg E (edit_text (failure_report e)))
         (World m1 (trace w ++ [Tg (reply "Starting download...") None]))
       = (r, w').
Proof.
  intros H Hin Hev. apply job_start in H.
  destruct H as [(_ & H) | (link & Hs & [(_ & H) | (Hc & [(e & _ & _ & ->) | (m1 & Hm & [(e & _ & _ & ->) | (Ht & H)])])])].
  - apply tg_emitted in H. rewrite H in Hin. destruct Hin as [<- | []]. edestruct Hev; reflexivity.
  - apply tg_emitted in H. rewrite H in Hin. destruct Hin as [<- | []]. edestruct Hev; reflexivity.
  - rewrite emitted_refl in Hin. destruct Hin.
  - rewrite (emitted_app _ _ [Tg (reply "Starting download...") (Some e)]) in Hin by reflexivity.
    destruct Hin as [<- | []]. edestruct Hev; reflexivity.
  - exists link, m1. auto.
Qed.

(** When the fetch fails -- Mega refuses the link, or the file cannot be
    stored -- the failure report is all that follows. *)
Theorem failed_fetch_ends_the_job E fuel message_text w r w' link e :
  download_file E (S fuel) message_text w = (r, w') ->
  In (Fetched link (Some e)) (emitted w w') ->
  exists f,
    emitted w w'
    = [Tg (reply "Starting download...") None;
       Fetched link (Some e);
       Tg (edit_text (Str ("❌ An error occurred while processing your link: " +:+ str e))) f]
    /\ r = match f with None => Ok tt | Some e' => Raise e' end
    /\ makedirs (fs w) "downloads/" = inr (fs w').
Proof.
  intros H Hin.
  destruct (job_started _ _ _ _ _ _ _ H Hin) as (link0 & m1 & Hs & Hc & Hm & Ht & Htry);
    [discriminate | ].
  apply try_pipeline_cases in Htry. cbn [fs trace] in Htry.
  destruct Htry as [(e0 & f & -> & -> & _)
                   | (name & data & m & pct & f & z & rb & wb & _ & _ & _ & _ & Hb & Hfin)].
  - cbn [fs]. rewrite (emitted_app _ _ ([Tg (reply "Starting download...") None]
                           ++ [Fetched link0 (Some e0); Tg (edit_text (failure_report e0)) f]))
      in * by (cbn [trace]; rewrite <- List.app_assoc; reflexivity).
    cbn [List.app] in *.
    destruct Hin as [Heq | [Heq | [Heq | []]]]; try discriminate.
    inversion Heq; subst. exists f. auto.
  - exfalso.
    destruct (relay_adds not_fetch _ _ _ _ (fun _ _ => I) (fun _ _ => I) (fun _ => I)
                (fun _ => I) I _ _ _ Hb) as (evs1 & Htb & H1). cbn [trace] in Htb.
    destruct (finish_adds not_fetch _ _ _ _ _ _ (fun _ _ => I) Hfin) as (evs2 & Htw & H2).
    rewrite (emitted_app _ _ ([Tg (reply "Starting download...") None]
               ++ [Fetched link0 None; Tg (edit_text (Progress "Download" pct
                     (Z.of_nat (List.length data) / (1024 * 1024))
                     (Z.of_nat (List.length data) / (1024 * 1024)))) f] ++ evs1 ++ evs2))
      in Hin by (rewrite Htw, Htb, <- !List.app_assoc; reflexivity).
    cbn [List.app] in Hin.
    destruct Hin as [Heq | [Heq | [Heq | Hin]]]; try discriminate.
    apply List.in_app_or in Hin. rewrite List.Forall_forall in H1, H2.
    destruct Hin as [Hin | Hin]; [exact (H1 _ Hin) | exact (H2 _ Hin)].
Qed.

Lemma failed_fetch_ends_the_job_witness :
  exists f,
    emitted Sample.fresh (snd (download_file Scene.refusing 1 Sample.file_link Sample.fresh))
    = [Tg (reply "Starting download...") None;
       Fetched "https://mega.nz/file/AbCd1234#key_-9" (Some (MegaError "Url key missing"));
       Tg (edit_text (Str ("❌ An error occurred while processing your link: "
                           +:+ str (MegaError "Url key missing")))) f]
    /\ fst (download_file Scene.refusing 1 Sample.file_link Sample.fresh)
       = match f with None => Ok tt | Some e' => Raise e' end
    /\ makedirs (fs Sample.fresh) "downloads/"
       = inr (fs (snd (download_file Scene.refusing 1 Sample.file_link Sample.fresh))).
Proof.
  apply (failed_fetch_ends_the_job Scene.refusing 0 Sample.file_link Sample.fresh).
  - apply surjective_pairing.
  - vm_compute. right. left. reflexivity.
Defined.

(** The time of the completion report is the time the fetch took: the
    clock is read right before and right after [download_url], and the
    uploads that follow are not counted. *)
Theorem elapsed_time_is_fetch_time E fuel message_text w r w' t g :
  download_file E (S fuel) message_text w = (r, w') ->
  In (Tg (edit_text (TaskCompleted t)) g) (emitted w w') ->
  exists link,
    Re.search Re.mega_link message_text = Some link
    /\ t = Qminus (clock E (trace w ++ [Tg (reply "Starting download...") None;
                                        Fetched link None]))
                  (clock E (trace w ++ [Tg (reply "Starting download...") None])).
Proof.
  intros H Hin.
  destruct (job_started _ _ _ _ _ _ _ H Hin) as (link & m1 & Hs & Hc & Hm & Ht & Htry);
    [discriminate | ].
  exists link. split; [exact Hs | ].
  apply try_pipeline_cases in Htry. cbn [fs trace] in Htry.
  destruct Htry as [(e0 & f & -> & -> & _)
                   | (name & data & m & pct & f & z & rb & wb & _ & _ & _ & _ & Hb & Hfin)].
  - rewrite (emitted_app _ _ ([Tg (reply "Starting download...") None]
               ++ [Fetched link (Some e0); Tg (edit_text (failure_report e0)) f]))
      in Hin by (cbn [trace]; rewrite <- List.app_assoc; reflexivity).
    cbn [List.app] in Hin.
    destruct Hin as [Heq | [Heq | [Heq | []]]]; discriminate.
  - rewrite <- List.app_assoc in Hfin. cbn [List.app] in Hfin.
    destruct (relay_shaped _ _ _ _ _ _ _ Hb) as (evs1 & Htb & Hdisc). cbn [trace] in Htb.
    assert (Hcalm1 : forall ev, In ev evs1 -> not_completed ev).
    { intros ev Hev. destruct Hdisc as [Hcalm | (evs0 & doc & cap & e & -> & Hcalm & _)].
      - pose proof (calm_in _ _ Hcalm Hev) as Hq.
        destruct ev as [[| [] |] [|]| | | | | |]; try exact I; discriminate.
      - apply List.in_app_or in Hev. destruct Hev as [Hev | [<- | []]]; [ | exact I].
        pose proof (calm_in _ _ Hcalm Hev) as Hq.
        destruct ev as [[| [] |] [|]| | | | | |]; try exact I; discriminate. }
    assert (Hend : exists evs2, trace w' = trace wb ++ evs2
              /\ forall t' g', In (Tg (edit_text (TaskCompleted t')) g') evs2 ->
                   t' = Qminus (clock E (trace w ++ [Tg (reply "Starting download...") None;
                                                     Fetched link None]))
                               (clock E (trace w ++ [Tg (reply "Starting download...") None]))).
    { destruct rb as [[]|e|].
      - apply finish_ok in Hfin. destruct Hfin as (_ & [(_ & Htw) | (e & f' & Htw & _)]);
          eexists; (split; [exact Htw | ]); intros t' g' Hin'.
        + destruct Hin' as [Heq | []]. inversion Heq; subst. reflexivity.
        + destruct Hin' as [Heq | [Heq | []]]; [ | discriminate].
          inversion Heq; subst. reflexivity.
      - apply finish_raise in Hfin. destruct Hfin as (f' & Htw & _).
        eexists. split; [exact Htw | ]. intros t' g' [Heq | []]. discriminate.
      - inversion Hfin; subst. exists []. rewrite List.app_nil_r. split; [reflexivity | ].
        intros t' g' []. }
    destruct Hend as (evs2 & Htw & Hend).
    rewrite (emitted_app _ _ ([Tg (reply "Starting download...") None]
               ++ [Fetched link None; Tg (edit_text (Progress "Download" pct
                     (Z.of_nat (List.length data) / (1024 * 1024))
                     (Z.of_nat (List.length data) / (1024 * 1024)))) f] ++ evs1 ++ evs2))
      in Hin by (rewrite Htw, Htb, <- !List.app_assoc; reflexivity).
    cbn [List.app] in Hin.
    destruct Hin as [Heq | [Heq | [Heq | Hin]]]; try discriminate.
    apply List.in_app_or in Hin. destruct Hin as [Hin | Hin].
    + destruct (Hcalm1 _ Hin).
    + exact (Hend _ _ Hin).
Qed.

Lemma elapsed_time_is_fetch_time_witness :
  exists link,
    Re.search Re.mega_link Sample.file_link = Some link
    /\ inject_Z 1
       = Qminus (clock Scene.ticking (trace Sample.fresh ++
                    [Tg (reply "Starting download...") None; Fetched link None]))
                (clock Scene.ticking (trace Sample.fresh ++
                    [Tg (reply "Starting download...") None])).
Proof.
  apply (elapsed_time_is_fetch_time Scene.ticking 0 Sample.file_link Sample.fresh
           (fst (download_file Scene.ticking 1 Sample.file_link Sample.fresh))
           (snd (download_file Scene.ticking 1 Sample.file_link Sample.fresh))
           (inject_Z 1) None).
  - apply surjective_pairing.
  - vm_compute. do 6 right. left. reflexivity.
Defined.

Lemma not_in_disc {A} (r : result A) evs t g :
  disc r evs -> ~ In (Tg (edit_text (TaskCompleted t)) g) evs.
Proof.
  intros Hdisc Hin. destruct Hdisc as [Hcalm | (evs0 & doc & cap & e & -> & Hcalm & _)].
  - pose proof (calm_in _ _ Hcalm Hin). discriminate.
  - apply List.in_app_or in Hin. destruct Hin as [Hin | [Heq | []]]; [ | discriminate].
    pose proof (calm_in _ _ Hcalm Hin). discriminate.
Qed.

(** The completion report ends the job.  When it is delivered it is the
    last thing the job does, and the handler returns.  When its delivery
    fails, the failure is caught by the [except] clause as any other:
    the job goes on to report a failure, with the text of the exception
    of the completion report. *)
Theorem completion_report_is_final E fuel message_text w r w' t g :
  download_file E fuel message_text w = (r, w') ->
  In (Tg (edit_text (TaskCompleted t)) g) (emitted w w') ->
  match g with
  | None =>
      r = Ok tt
      /\ exists evs0, emitted w w' = evs0 ++ [Tg (edit_text (TaskCompleted t)) None]
  | Some e =>
      exists evs0 f,
        emitted w w'
        = evs0 ++ [Tg (edit_text (TaskCompleted t)) (Some e);
                   Tg (edit_text (Str ("❌ An error occurred while processing your link: "
                                       +:+ str e))) f]
        /\ r = match f with None => Ok tt | Some e' => Raise e' end
  end.
Proof.
  intros H Hin. apply download_file_log in H.
  destruct H as [Hem | [(s & f & Hem) | (rp & evs & Hend & Hcase)]].
  - rewrite Hem in Hin. destruct Hin.
  - rewrite Hem in Hin. destruct Hin as [Heq | []]. discriminate.
  - assert (Hlast : exists evs0,
              evs = evs0 ++ [Tg (edit_text (TaskCompleted t)) g]
              /\ rp = match g with None => Ok tt | Some e => Raise e end).
    { assert (Hin' : In (Tg (edit_text (TaskCompleted t)) g) evs).
      { destruct Hcase as [(_ & _ & Hem) | (e & f & _ & Hem & _)]; rewrite Hem in Hin.
        - destruct Hin as [Heq | Hin]; [discriminate | exact Hin].
        - destruct Hin as [Heq | Hin]; [discriminate | ].
          apply List.in_app_or in Hin. destruct Hin as [Hin | [Heq | []]];
            [exact Hin | discriminate]. }
      destruct Hend as [Hdisc | (evs0 & t0 & f0 & -> & Hcalm & ->)].
      - destruct (not_in_disc _ _ _ _ Hdisc Hin').
      - apply List.in_app_or in Hin'. destruct Hin' as [Hin' | [Heq | []]].
        + pose proof (calm_in _ _ Hcalm Hin'). discriminate.
        + inversion Heq; subst. exists evs0. auto. }
    destruct Hlast as (evs0 & -> & ->).
    destruct g as [e|].
    + destruct Hcase as [(_ & Hne & _) | (e' & f & Heq & Hem & Hr)].
      * destruct (Hne e). reflexivity.
      * inversion Heq; subst e'. exists (Tg (reply "Starting download...") None :: evs0), f.
        split; [ | exact Hr]. rewrite Hem. cbn [List.app]. rewrite <- List.app_assoc. reflexivity.
    + destruct Hcase as [(Hr & _ & Hem) | (e' & f & Heq & _)]; [ | discriminate].
      split.
      * destruct r as [[]|e|]; [reflexivity | | ]; exfalso; apply Hr; discriminate.
      * exists (Tg (reply "Starting download...") None :: evs0). exact Hem.
Qed.

Lemma completion_report_is_final_witness :
  fst (download_file Sample.quiet 1 Sample.file_link Sample.fresh) = Ok tt
  /\ exists evs0,
       emitted Sample.fresh (snd (download_file Sample.quiet 1 Sample.file_link Sample.fresh))
       = evs0 ++ [Tg (edit_text (TaskCompleted (inject_Z 0))) None].
Proof.
  apply (completion_report_is_final Sample.quiet 1 Sample.file_link Sample.fresh
           (fst (download_file Sample.quiet 1 Sample.file_link Sample.fresh))
           (snd (download_file Sample.quiet 1 Sample.file_link Sample.fresh))
           (inject_Z 0) None).
  - apply surjective_pairing.
  - vm_compute. do 6 right. left. reflexivity.
Defined.

(** When something other than a directory stands where the staging
    directory should be, the handler raises at once and tells the user
    nothing: [os.makedirs] is called before the [try]. *)
Theorem staging_blocked_is_silent E fuel message_text link data w :
  Re.search Re.mega_link message_text = Some link ->
  Text.contains "folder" link = false ->
  fs w !! ["downloads"] = Some (File data) ->
  download_file E fuel message_text w = (Raise (EEXIST "downloads/"), w).
Proof.
  intros Hs Hc Hfile. unfold download_file. rewrite Hs, Hc.
  unfold bind, os_makedirs, fs_update, makedirs.
  replace (Path.resolve "downloads/") with ["downloads"] by (vm_compute; reflexivity).
  cbn [makedirs_from List.app]. rewrite Hfile. reflexivity.
Qed.

Lemma staging_blocked_is_silent_witness :
  download_file Sample.quiet 1 Sample.file_link Scene.blocked
  = (Raise (EEXIST "downloads/"), Scene.blocked).
Proof.
  apply (staging_blocked_is_silent Sample.quiet 1 Sample.file_link
           "https://mega.nz/file/AbCd1234#key_-9" [] Scene.blocked).
  - vm_compute. reflexivity.
  - vm_compute. reflexivity.
  - vm_compute. reflexivity.
Defined.

(** When the reply "Starting download..." cannot be delivered the
    handler raises that failure and does nothing more: nothing is
    fetched, and no failure report is attempted. *)
Theorem unannounced_job_fetches_nothing E fuel message_text link m e w :
  Re.search Re.mega_link message_text = Some link ->
  Text.contains "folder" link = false ->
  makedirs (fs w) "downloads/" = inr m ->
  telegram E (trace w) (reply "Starting download...") = Some e ->
  download_file E fuel message_text w
  = (Raise e, World m (trace w ++ [Tg (reply "Starting download...") (Some e)])).
Proof.
  intros Hs Hc Hm Ht. unfold download_file. rewrite Hs, Hc.
  unfold bind, os_makedirs, fs_update. rewrite Hm. unfold tg. cbn [fs trace].
  rewrite Ht. reflexivity.
Qed.

Lemma unannounced_job_fetches_nothing_witness :
  download_file Scene.muted 1 Sample.file_link Sample.fresh
  = (Raise (TelegramError "FLOOD_WAIT"),
     World (<[ ["downloads"] := Dir ]> ∅)
       (trace Sample.fresh
        ++ [Tg (reply "Starting download...") (Some (TelegramError "FLOOD_WAIT"))])).
Proof.
  apply (unannounced_job_fetches_nothing Scene.muted 1 Sample.file_link
           "https://mega.nz/file/AbCd1234#key_-9").
  - vm_compute. reflexivity.
  - vm_compute. reflexivity.
  - vm_compute. reflexivity.
  - vm_compute. reflexivity.
Defined.

(** A plain file of more than 2 GiB is never removed from the staging
    directory: the splitter removes the chunk files only, and nothing
    after it removes the file.  Whether the job completes or fails, the
    fetched file is still in [downloads/] when the handler is done. *)
Theorem large_file_left_in_staging E fuel message_text link name data m1 m2 w r w' :
  Re.search Re.mega_link message_text = Some link ->
  Text.contains "folder" link = false ->
  makedirs (fs w) "downloads/" = inr m1 ->
  telegram E (trace w) (reply "Starting download...") = None ->
  mega E link = inr (name, data) ->
  write m1 ("downloads/" +:+ name) data = inr m2 ->
  end_record E data = false ->
  Z.of_nat (List.length data) > 2 * 1024 * 1024 * 1024 ->
  download_file E (S fuel) message_text w = (r, w') ->
  get (fs w') (Path.resolve ("downloads/" +:+ name)) = Some (File data)
  /\ exists f, In (Tg (edit_text split_notice) f) (emitted w w').
Proof.
  intros Hs Hc Hm Ht Hmega Hwrite Hrec Hbig H. apply job_start in H.
  destruct H as [(Hs' & _) | (link' & Hs' & [(Hc' & _) | (_ & [(e & Hm' & _) | (m1' & Hm' & [(e & Ht' & _) | (_ & H)])])])];
    try congruence.
  assert (link' = link) by congruence. assert (m1' = m1) by congruence. subst link' m1'.
  apply try_pipeline_cases in H. cbn [fs trace] in H.
  destruct H as [(e & f & _ & _ & [Hmega' | (n' & d' & Hmega' & Hwrite')])
                | (name' & data' & m & pct & f & z & rb & wb & Hmega' & Hwrite' & Hget & Hz & Hb & Hfin)];
    try congruence.
  rewrite Hmega in Hmega'. inversion Hmega'; subst name' data'. clear Hmega'.
  assert (z = false).
  { unfold is_zipfile in Hz. cbn [fs] in Hz. rewrite Hget in Hz.
    destruct (Z.of_nat (List.length data) <? sizeEndCentDir); inversion Hz; congruence. }
  subst z. unfold relay, relay_plain in Hb.
  unfold bind at 1 in Hb. unfold os_path_getsize at 1 in Hb. cbn [fs] in Hb.
  rewrite Hget in Hb.
  replace (Z.of_nat (List.length data) >? 2 * 1024 * 1024 * 1024) with true in Hb
    by (symmetry; apply Z.gtb_lt; lia).
  rewrite (finish_fs _ _ _ _ _ _ Hfin). split.
  - eapply split_and_upload_at_keeps; [ | exact Hb]. exact Hget.
  - destruct (finish_adds (fun _ => True) _ _ _ _ _ _ (fun _ _ => I) Hfin) as (evs2 & Htw & _).
    unfold split_and_upload, split_and_upload_at in Hb.
    unfold bind at 1 in Hb. unfold os_path_getsize at 1 in Hb. cbn [fs] in Hb.
    rewrite Hget in Hb.
    exists (telegram E ((trace w ++ [Tg (reply "Starting download...") None]) ++
              [Fetched link None; Tg (edit_text (Progress "Download" pct
                 (Z.of_nat (List.length data) / (1024 * 1024))
                 (Z.of_nat (List.length data) / (1024 * 1024)))) f])
              (edit_text split_notice)).
    assert (Hext : exists evs1,
              trace wb = ((trace w ++ [Tg (reply "Starting download...") None]) ++
                [Fetched link None; Tg (edit_text (Progress "Download" pct
                   (Z.of_nat (List.length data) / (1024 * 1024))
                   (Z.of_nat (List.length data) / (1024 * 1024)))) f])
                ++ Tg (edit_text split_notice)
                     (telegram E ((trace w ++ [Tg (reply "Starting download...") None]) ++
                        [Fetched link None; Tg (edit_text (Progress "Download" pct
                           (Z.of_nat (List.length data) / (1024 * 1024))
                           (Z.of_nat (List.length data) / (1024 * 1024)))) f])
                        (edit_text split_notice)) :: evs1).
    { apply tg_then in Hb. cbn [fs trace] in Hb.
      destruct Hb as [(Hedit & Hb) | (e & Hedit & _ & ->)].
      - rewrite Hedit.
        assert (Hx : extends
                  (World m (((trace w ++ [Tg (reply "Starting download...") None]) ++
                     [Fetched link None; Tg (edit_text (Progress "Download" pct
                        (Z.of_nat (List.length data) / (1024 * 1024))
                        (Z.of_nat (List.length data) / (1024 * 1024)))) f])
                     ++ [Tg (edit_text split_notice) None])) wb).
        { revert Hb. apply preserves_bind; [apply extends_trans | | ].
          - intros w0 r0 w0' H0. apply open_rb_run in H0. destruct H0 as [-> _].
            apply extends_refl.
          - intros f0. apply (split_loop_preserves E extends extends_refl extends_trans
                                (extends_tg E) (fun p d => extends_fs_op _ _)
                                (fun p => extends_fs_op _ _)). }
        destruct Hx as (evs1 & Hx). cbn [trace] in Hx. exists evs1.
        rewrite Hx, <- !List.app_assoc. reflexivity.
      - rewrite Hedit. exists []. reflexivity. }
    destruct Hext as (evs1 & Hwb).
    rewrite (emitted_app w w' (([Tg (reply "Starting download...") None] ++
               [Fetched link None; Tg (edit_text (Progress "Download" pct
                  (Z.of_nat (List.length data) / (1024 * 1024))
                  (Z.of_nat (List.length data) / (1024 * 1024)))) f])
               ++ (Tg (edit_text split_notice)
                    (telegram E ((trace w ++ [Tg (reply "Starting download...") None]) ++
                        [Fetched link None; Tg (edit_text (Progress "Download" pct
                           (Z.of_nat (List.length data) / (1024 * 1024))
                           (Z.of_nat (List.length data) / (1024 * 1024)))) f])
                        (edit_text split_notice)) :: evs1) ++ evs2))
      by (rewrite Htw, Hwb, <- !List.app_assoc; reflexivity).
    cbn [List.app]. right. right. right. left. reflexivity.
Qed.

Lemma staging_write data :
  write (<[ ["downloads"] := Dir ]> ∅) ("downloads/" +:+ "big.bin") data
  = inr (<[ ["downloads"; "big.bin"] := File data ]> (<[ ["downloads"] := Dir ]> ∅)).
Proof. vm_compute. reflexivity. Qed.

Lemma large_file_left_in_staging_witness :
  get (fs (snd (download_file Scene.bulky 1 Sample.file_link Sample.fresh)))
    (Path.resolve ("downloads/" +:+ "big.bin"))
  = Some (File Sample.four_and_a_half_gb)
  /\ exists f,
       In (Tg (edit_text split_notice) f)
          (emitted Sample.fresh (snd (download_file Scene.bulky 1 Sample.file_link Sample.fresh))).
Proof.
  apply (large_file_left_in_staging Scene.bulky 0 Sample.file_link
           "https://mega.nz/file/AbCd1234#key_-9" "big.bin" Sample.four_and_a_half_gb
           (<[ ["downloads"] := Dir ]> ∅)
           (<[ ["downloads"; "big.bin"] := File Sample.four_and_a_half_gb ]>
              (<[ ["downloads"] := Dir ]> ∅))
           Sample.fresh
           (fst (download_file Scene.bulky 1 Sample.file_link Sample.fresh))).
  - vm_compute. reflexivity.
  - vm_compute. reflexivity.
  - vm_compute. reflexivity.
  - reflexivity.
  - reflexivity.
  - apply staging_write.
  - reflexivity.
  - rewrite four_and_a_half_gb_length. lia.
  - apply surjective_pairing.
Defined.

(** ** The link pattern *)

Lemma string_app_assoc (a b c : string) : (a +:+ b) +:+ c = a +:+ (b +:+ c).
Proof.
  induction a as [|x a IH]; [reflexivity | ].
  change ((String x a +:+ b) +:+ c) with (String x ((a +:+ b) +:+ c)).
  rewrite IH. reflexivity.
Qed.

Lemma star_sound cls k : forall s rest,
  Re.star cls s k = Some rest ->
  exists m s', s = m +:+ s' /\ all_of cls m = true /\ k s' = Some rest.
Proof.
  induction s as [|c s IH]; intros rest H; simpl in H.
  - exists "", "". auto.
  - destruct (cls c) eqn:Hc.
    + destruct (Re.star cls s k) as [rest'|] eqn:Hstar.
      * inversion H; subst rest'. destruct (IH _ eq_refl) as (m & s' & -> & Hall & Hk).
        exists (String c m), s'. split; [reflexivity | ]. split; [ | exact Hk].
        cbn [all_of]. rewrite Hc, Hall. reflexivity.
      * exists "", (String c s). auto.
    + exists "", (String c s). auto.
Qed.

(** The matcher is sound: what it reads at the start of the text is a
    text that the pattern stands for. *)
Lemma match_re_sound r : forall s k rest,
  Re.match_re r s k = Some rest ->
  exists m s', s = m +:+ s' /\ denotes r m /\ k s' = Some rest.
Proof.
  induction r as [l | r1 IH1 r2 IH2 | r1 IH1 r2 IH2 | cls | r1 IH1]; intros s k rest H;
    cbn [Re.match_re] in H.
  - destruct (Text.strip_prefix l s) as [s'|] eqn:Hp; [ | discriminate].
    apply strip_prefix_app in Hp. exists l, s'. split; [exact Hp | ].
    split; [constructor | exact H].
  - apply IH1 in H. destruct H as (a & s1 & -> & Ha & H).
    apply IH2 in H. destruct H as (b & s2 & -> & Hb & H).
    exists (a +:+ b), s2. rewrite string_app_assoc. split; [reflexivity | ].
    split; [constructor; assumption | exact H].
  - destruct (Re.match_re r1 s k) as [rest'|] eqn:H1.
    + inversion H; subst rest'. apply IH1 in H1. destruct H1 as (m & s' & -> & Hm & Hk).
      exists m, s'. split; [reflexivity | ]. split; [apply denotes_alt_l; exact Hm | exact Hk].
    + apply IH2 in H. destruct H as (m & s' & -> & Hm & Hk).
      exists m, s'. split; [reflexivity | ]. split; [apply denotes_alt_r; exact Hm | exact Hk].
  - destruct s as [|c s]; [discriminate | ]. destruct (cls c) eqn:Hc; [ | discriminate].
    apply star_sound in H. destruct H as (m & s' & -> & Hall & Hk).
    exists (String c m), s'. split; [reflexivity | ]. split; [constructor; assumption | exact Hk].
  - destruct (Re.match_re r1 s k) as [rest'|] eqn:H1.
    + inversion H; subst rest'. apply IH1 in H1. destruct H1 as (m & s' & -> & Hm & Hk).
      exists m, s'. split; [reflexivity | ]. split; [apply denotes_opt_some; exact Hm | exact Hk].
    + exists "", s. split; [reflexivity | ]. split; [constructor | exact H].
Qed.

Lemma take_app (a b : string) :
  Text.take (String.length (a +:+ b) - String.length b) (a +:+ b) = a.
Proof.
  rewrite string_app_length. replace (String.length a + String.length b - String.length b)%nat
    with (String.length a) by lia.
  induction a as [|c a IH].
  - change ("" +:+ b) with b. destruct b; reflexivity.
  - change (String c a +:+ b) with (String c (a +:+ b)).
    cbn [String.length Text.take]. rewrite IH. reflexivity.
Qed.

Lemma match_at_sound r s m :
  Re.match_at r s = Some m -> denotes r m /\ exists rest, s = m +:+ rest.
Proof.
  unfold Re.match_at. destruct (Re.match_re r s Some) as [rest|] eqn:H; [ | discriminate].
  apply match_re_sound in H. destruct H as (m' & s' & -> & Hm & Hk).
  inversion Hk; subst s'. rewrite take_app. intros Heq. inversion Heq; subst m'.
  split; [exact Hm | eauto].
Qed.

Lemma search_sound r : forall s m,
  Re.search r s = Some m ->
  denotes r m /\ exists before after, s = before +:+ m +:+ after.
Proof.
  induction s as [|c s IH]; intros m H; simpl in H.
  - destruct (Re.match_at r "") as [m'|] eqn:Hm; [ | discriminate].
    inversion H; subst m'. apply match_at_sound in Hm. destruct Hm as (Hd & rest & Hr).
    split; [exact Hd | ]. exists "", rest. exact Hr.
  - destruct (Re.match_at r (String c s)) as [m'|] eqn:Hm.
    + inversion H; subst m'. apply match_at_sound in Hm. destruct Hm as (Hd & rest & Hr).
      split; [exact Hd | ]. exists "", rest. exact Hr.
    + apply IH in H. destruct H as (Hd & before & after & ->).
      split; [exact Hd | ]. exists (String c before), after. reflexivity.
Qed.

(** What the link pattern stands for: the address of Mega, the kind,
    an id, and a key after [#] if there is one. *)
Lemma mega_link_denotes m :
  denotes Re.mega_link m ->
  exists kind id key,
    m = "https://mega.nz/" +:+ kind +:+ "/" +:+ id +:+ key
    /\ (kind = "file" \/ kind = "folder")
    /\ id <> "" /\ all_of Re.word_or_dash id = true
    /\ (key = ""
        \/ exists k, key = "#" +:+ k /\ k <> "" /\ all_of Re.word_or_dash k = true).
Proof.
  unfold Re.mega_link. intros H.
  inversion H as [| ? ? a1 b1 Ha1 Hb1 | | | | |]; subst. inversion Ha1; subst. clear H Ha1.
  inversion Hb1 as [| ? ? a2 b2 Ha2 Hb2 | | | | |]; subst. clear Hb1.
  inversion Hb2 as [| ? ? a3 b3 Ha3 Hb3 | | | | |]; subst. inversion Ha3; subst. clear Hb2 Ha3.
  inversion Hb3 as [| ? ? a4 b4 Ha4 Hb4 | | | | |]; subst. clear Hb3.
  exists a2, a4, b4. split; [reflexivity | ]. split.
  { inversion Ha2 as [| | ? ? ? Hl | ? ? ? Hr | | |]; subst;
      [inversion Hl | inversion Hr]; subst; auto. }
  inversion Ha4 as [| | | | ? c s Hc Hs | |]; subst. split; [discriminate | ].
  split; [cbn [all_of]; rewrite Hc, Hs; reflexivity | ].
  inversion Hb4 as [| | | | | | ? ? Hk]; subst; [left; reflexivity | right].
  inversion Hk as [| ? ? a5 b5 Ha5 Hb5 | | | | |]; subst. inversion Ha5; subst.
  inversion Hb5 as [| | | | ? c' s' Hc' Hs' | |]; subst.
  exists (String c' s'). split; [reflexivity | ]. split; [discriminate | ].
  cbn [all_of]. rewrite Hc', Hs'. reflexivity.
Qed.

(** What [re.search] hands to the handler is a part of the message, of
    the form [https://mega.nz/(file|folder)/<id>] with an optional
    [#<key>], where the id and the key are non-empty words over
    [A-Za-z0-9_-]. *)
Theorem found_link_is_a_mega_link message_text link :
  Re.search Re.mega_link message_text = Some link ->
  (exists before after, message_text = before +:+ link +:+ after)
  /\ exists kind id key,
       link = "https://mega.nz/" +:+ kind +:+ "/" +:+ id +:+ key
       /\ (kind = "file" \/ kind = "folder")
       /\ id <> "" /\ all_of Re.word_or_dash id = true
       /\ (key = ""
           \/ exists k, key = "#" +:+ k /\ k <> "" /\ all_of Re.word_or_dash k = true).
Proof.
  intros H. apply search_sound in H. destruct H as (Hd & Hpart).
  split; [exact Hpart | apply mega_link_denotes; exact Hd].
Qed.

Lemma found_link_is_a_mega_link_witness :
  (exists before after, Sample.file_link = before +:+ "https://mega.nz/file/AbCd1234#key_-9" +:+ after)
  /\ exists kind id key,
       "https://mega.nz/file/AbCd1234#key_-9" = "https://mega.nz/" +:+ kind +:+ "/" +:+ id +:+ key
       /\ (kind = "file" \/ kind = "folder")
       /\ id <> "" /\ all_of Re.word_or_dash id = true
       /\ (key = ""
           \/ exists k, key = "#" +:+ k /\ k <> "" /\ all_of Re.word_or_dash k = true).
Proof.
  apply (found_link_is_a_mega_link Sample.file_link "https://mega.nz/file/AbCd1234#key_-9").
  vm_compute. reflexivity.
Defined.

Lemma folder_kind_contains rest :
  Text.contains "folder" ("https://mega.nz/folder/" +:+ rest) = true.
Proof. reflexivity. Qed.

(** A job fetches at most once, and only the link that [re.search] found
    in the message: a link of the file form, in which the word "folder"
    does not occur.  The fetch comes right after the reply
    "Starting download...". *)
Theorem only_the_found_link_is_fetched E fuel message_text w r w' l f :
  download_file E (S fuel) message_text w = (r, w') ->
  In (Fetched l f) (emitted w w') ->
  Re.search Re.mega_link message_text = Some l
  /\ (exists rest, l = "https://mega.nz/file/" +:+ rest)
  /\ Text.contains "folder" l = false
  /\ exists evs,
       emitted w w' = Tg (reply "Starting download...") None :: Fetched l f :: evs
       /\ forall l' f', ~ In (Fetched l' f') evs.
Proof.
  intros H Hin.
  destruct (job_started _ _ _ _ _ _ _ H Hin) as (link & m1 & Hs & Hc & Hm & Ht & Htry);
    [discriminate | ].
  assert (Hlog : exists f0 evs,
            emitted w w' = Tg (reply "Starting download...") None :: Fetched link f0 :: evs
            /\ forall l' f', ~ In (Fetched l' f') evs).
  { apply try_pipeline_cases in Htry. cbn [fs trace] in Htry.
    destruct Htry as [(e0 & f0 & -> & _)
                     | (name & data & m & pct & f0 & z & rb & wb & _ & _ & _ & _ & Hb & Hfin)].
    - exists (Some e0), [Tg (edit_text (failure_report e0)) f0]. split.
      + apply emitted_app. cbn [trace]. rewrite <- List.app_assoc. reflexivity.
      + intros l' f' [Heq | []]. discriminate.
    - destruct (relay_adds not_fetch _ _ _ _ (fun _ _ => I) (fun _ _ => I) (fun _ => I)
                  (fun _ => I) I _ _ _ Hb) as (evs1 & Htb & H1). cbn [trace] in Htb.
      destruct (finish_adds not_fetch _ _ _ _ _ _ (fun _ _ => I) Hfin) as (evs2 & Htw & H2).
      exists None. eexists. split.
      + apply emitted_app. rewrite Htw, Htb, <- !List.app_assoc. reflexivity.
      + intros l' f' [Heq | Hin']; [discriminate | ].
        apply List.in_app_or in Hin'. rewrite List.Forall_forall in H1, H2.
        destruct Hin' as [Hin' | Hin']; [exact (H1 _ Hin') | exact (H2 _ Hin')]. }
  destruct Hlog as (f0 & evs & Hem & Hno).
  rewrite Hem in Hin. destruct Hin as [Heq | [Heq | Hin]];
    [discriminate | | destruct (Hno _ _ Hin)].
  inversion Heq; subst l f0. split; [exact Hs | ]. split; [ | split; [exact Hc | eauto]].
  apply search_sound in Hs. destruct Hs as (Hd & _).
  apply mega_link_denotes in Hd.
  destruct Hd as (kind & id & key & -> & [-> | ->] & _).
  - exists (id +:+ key). reflexivity.
  - change ("https://mega.nz/" +:+ "folder" +:+ "/" +:+ id +:+ key)
      with ("https://mega.nz/folder/" +:+ (id +:+ key)) in Hc.
    rewrite folder_kind_contains in Hc. discriminate.
Qed.

Lemma only_the_found_link_is_fetched_witness :
  Re.search Re.mega_link Sample.file_link = Some "https://mega.nz/file/AbCd1234#key_-9"
  /\ (exists rest, "https://mega.nz/file/AbCd1234#key_-9" = "https://mega.nz/file/" +:+ rest)
  /\ Text.contains "folder" "https://mega.nz/file/AbCd1234#key_-9" = false
  /\ exists evs,
       emitted Sample.fresh (snd (download_file Sample.quiet 1 Sample.file_link Sample.fresh))
       = Tg (reply "Starting download...") None
         :: Fetched "https://mega.nz/file/AbCd1234#key_-9" None :: evs
       /\ forall l' f', ~ In (Fetched l' f') evs.
Proof.
  apply (only_the_found_link_is_fetched Sample.quiet 0 Sample.file_link Sample.fresh
           (fst (download_file Sample.quiet 1 Sample.file_link Sample.fresh))).
  - apply surjective_pairing.
  - vm_compute. right. left. reflexivity.
Defined.

Lemma no_prefix_no_match p r s :
  Text.contains p s = false -> Re.search (Re.Seq (Re.Lit p) r) s = None.
Proof.
  induction s as [|c s IH]; intros H; simpl in H.
  - destruct (Text.strip_prefix p "") eqn:Hp; [discriminate | ].
    simpl. unfold Re.match_at. cbn [Re.match_re]. rewrite Hp. reflexivity.
  - destruct (Text.strip_prefix p (String c s)) eqn:Hp; [discriminate | ].
    cbn [Re.search]. unfold Re.match_at at 1. cbn [Re.match_re]. rewrite Hp.
    apply IH. exact H.
Qed.

(** A message in which the address [https://mega.nz/] does not occur
    holds no link: the handler replies that no valid link was found and
    does nothing else. *)
Theorem message_without_link E fuel message_text w :
  Text.contains "https://mega.nz/" message_text = false ->
  download_file E fuel message_text w = tg E (reply "❌ No valid Mega.nz link found.") w.
Proof.
  intros H. unfold download_file, Re.mega_link.
  rewrite (no_prefix_no_match _ _ _ H). reflexivity.
Qed.

Lemma message_without_link_witness :
  download_file Sample.quiet 1 "hello, bot" Sample.fresh
  = tg Sample.quiet (reply "❌ No valid Mega.nz link found.") Sample.fresh.
Proof.
  apply (message_without_link Sample.quiet 1 "hello, bot" Sample.fresh).
  vm_compute. reflexivity.
Defined.

(** ** The parts of a split file, and paths that do not exist *)

Lemma part_sends_nth C path base size : forall n idx i doc cap,
  List.nth_error (part_sends C path base size idx n) i = Some (doc, cap) ->
  doc = chunk_path path (idx + Z.of_nat i)
  /\ cap = part_caption (idx + Z.of_nat i) size C base.
Proof.
  induction n as [|n IH]; intros idx i doc cap H; [destruct i; discriminate | ].
  destruct i as [|i]; cbn [part_sends List.nth_error] in H.
  - inversion H; subst. rewrite Z.add_0_r. auto.
  - apply IH in H. replace (idx + Z.of_nat (S i)) with (idx + 1 + Z.of_nat i) by lia. exact H.
Qed.

(** The uploads of the splitter, for any file and any chunk size: the
    upload number [i] (from 0) is of the chunk file [<file>.part<i>],
    with the caption "Part <i+1>/<size // chunk_size + 1> of <name>".
    There are never more uploads than chunks, and as many when the
    splitter returns. *)
Theorem split_parts_named_in_order E C file_path data w r w' :
  0 < C ->
  get (fs w) (Path.resolve file_path) = Some (File data) ->
  split_and_upload_at E C file_path w = (r, w') ->
  (forall i doc cap,
     List.nth_error (sent (emitted w w')) i = Some (doc, cap) ->
     doc = file_path +:+ ".part" +:+ Text.str_int (Z.of_nat i)
     /\ cap = "Part " +:+ Text.str_int (Z.of_nat i + 1) +:+ "/"
              +:+ Text.str_int (Z.of_nat (List.length data) / C + 1)
              +:+ " of " +:+ Path.basename file_path)
  /\ Z.of_nat (List.length (sent (emitted w w'))) <= ceil_div (Z.of_nat (List.length data)) C
  /\ (r = Ok tt ->
      Z.of_nat (List.length (sent (emitted w w'))) = ceil_div (Z.of_nat (List.length data)) C).
Proof.
  intros HC Hfile H.
  destruct (split_and_upload_at_run _ _ _ _ _ _ _ HC Hfile H)
    as [(e & -> & Hsent) | (evs & Hem & Hrun)].
  - rewrite Hsent. cbn [sent List.length]. split; [intros [|i] ? ? Hi; discriminate | ].
    split; [apply ceil_div_nonneg; lia | discriminate].
  - rewrite Hem. cbn [sent].
    destruct (split_run_sent _ _ _ _ _ _ _ _ Hrun) as (Hs & Hle & Heq).
    pose proof (split_run_count _ _ _ _ _ _ _ _ HC Hrun) as Hcount.
    split; [ | split; [lia | ]].
    + intros i doc cap Hi. rewrite Hs in Hi. apply part_sends_nth in Hi. exact Hi.
    + intros Hr. specialize (Heq Hr).
      pose proof (split_run_chunking _ _ _ _ _ _ _ _ HC Hrun Hr) as (_ & Hn & _). lia.
Qed.

Lemma split_parts_named_in_order_witness :
  (forall i doc cap,
     List.nth_error
       (sent (emitted Sample.three_bytes
                (snd (split_and_upload_at Sample.quiet 2 "downloads/a.bin" Sample.three_bytes))))
       i = Some (doc, cap) ->
     doc = "downloads/a.bin" +:+ ".part" +:+ Text.str_int (Z.of_nat i)
     /\ cap = "Part " +:+ Text.str_int (Z.of_nat i + 1) +:+ "/"
              +:+ Text.str_int (Z.of_nat (List.length [x01; x02; x03]%byte) / 2 + 1)
              +:+ " of " +:+ Path.basename "downloads/a.bin")
  /\ Z.of_nat (List.length
       (sent (emitted Sample.three_bytes
                (snd (split_and_upload_at Sample.quiet 2 "downloads/a.bin" Sample.three_bytes)))))
     <= ceil_div (Z.of_nat (List.length [x01; x02; x03]%byte)) 2
  /\ (fst (split_and_upload_at Sample.quiet 2 "downloads/a.bin" Sample.three_bytes) = Ok tt ->
      Z.of_nat (List.length
        (sent (emitted Sample.three_bytes
                 (snd (split_and_upload_at Sample.quiet 2 "downloads/a.bin" Sample.three_bytes)))))
      = ceil_div (Z.of_nat (List.length [x01; x02; x03]%byte)) 2).
Proof.
  apply (split_parts_named_in_order Sample.quiet 2 "downloads/a.bin" [x01; x02; x03]%byte
           Sample.three_bytes).
  - lia.
  - vm_compute. reflexivity.
  - apply surjective_pairing.
Defined.



(** ** The menu *)

Lemma added_app (done new : Menu.log) : Menu.added done (done ++ new) = new.
Proof.
  unfold Menu.added. rewrite List.skipn_app, List.skipn_all, Nat.sub_diag. reflexivity.
Qed.

(** Every way a callback handler can go: the answer fails; or the
    answer goes through and the edit follows. *)
Lemma callback_run text reply_markup S done r after :
  Menu.perform [Menu.answer; Menu.edit_text text reply_markup] S done = (r, after) ->
  (exists e, r = Raise e /\ Menu.added done after = [(Menu.answer, Some e)])
  \/ exists f,
       Menu.added done after
       = [(Menu.answer, None); (Menu.edit_text text reply_markup, f)]
       /\ r = match f with None => Ok tt | Some e => Raise e end.
Proof.
  cbn [Menu.perform]. destruct (S done Menu.answer) as [e|].
  - intros H. inversion H; subst. left. exists e. rewrite added_app. auto.
  - destruct (S (done ++ [(Menu.answer, None)]) (Menu.edit_text text reply_markup)) as [e|];
      intros H; inversion H; subst; right; eexists; rewrite <- List.app_assoc, added_app;
      split; reflexivity.
Qed.

Lemma callback_shown text reply_markup S done r after s :
  Menu.perform [Menu.answer; Menu.edit_text text reply_markup] S done = (r, after) ->
  Menu.shown (Menu.added done after) (Some s)
  = match r with Ok _ => Some (text, reply_markup) | _ => Some s end.
Proof.
  intros H. apply callback_run in H. destruct H as [(e & -> & ->) | (f & -> & ->)].
  - reflexivity.
  - destruct f; reflexivity.
Qed.

Lemma callback_handlers h p :
  In (p, h) Menu.on_callback_query ->
  exists text reply_markup,
    h = Menu.perform [Menu.answer; Menu.edit_text text reply_markup]
    /\ Menu.sends h = Some (text, reply_markup).
Proof.
  intros [H | [H | [H | [H | []]]]]; inversion H; subst; eexists _, _; split; reflexivity.
Qed.

(** A callback handler answers the query first, and edits the message
    only once the answer went through: when the answer raises, nothing
    is edited; otherwise the one edit follows, and the handler does
    nothing else.  No callback handler sends a new message. *)
Theorem callbacks_answer_first pattern h S done r after :
  In (pattern, h) Menu.on_callback_query ->
  h S done = (r, after) ->
  (exists e, r = Raise e /\ Menu.added done after = [(Menu.answer, Some e)])
  \/ exists text reply_markup f,
       Menu.added done after
       = [(Menu.answer, None); (Menu.edit_text text reply_markup, f)]
       /\ r = match f with None => Ok tt | Some e => Raise e end.
Proof.
  intros Hin H. destruct (callback_handlers _ _ Hin) as (text & k & -> & _).
  apply callback_run in H. destruct H as [H | (f & H)]; [left; exact H | right; eauto].
Qed.

Lemma callbacks_answer_first_witness :
  (exists e,
     fst (Menu.help_callback (fun _ _ => None) []) = Raise e
     /\ Menu.added [] (snd (Menu.help_callback (fun _ _ => None) [])) = [(Menu.answer, Some e)])
  \/ exists text reply_markup f,
       Menu.added [] (snd (Menu.help_callback (fun _ _ => None) []))
       = [(Menu.answer, None); (Menu.edit_text text reply_markup, f)]
       /\ fst (Menu.help_callback (fun _ _ => None) [])
          = match f with None => Ok tt | Some e => Raise e end.
Proof.
  apply (callbacks_answer_first "help" Menu.help_callback (fun _ _ => None) []).
  - left. reflexivity.
  - apply surjective_pairing.
Defined.

(** Back brings back the start menu: when [back_callback] returns, the
    message shows the text and the keyboard that [start_command] sends. *)
Theorem back_restores_the_start_menu S1 done1 after1 S2 done2 after2 s :
  Menu.start_command S1 done1 = (Ok tt, after1) ->
  Menu.back_callback S2 done2 = (Ok tt, after2) ->
  Menu.shown (Menu.added done2 after2) (Some s)
  = Menu.shown (Menu.added done1 after1) None.
Proof.
  intros H1 H2. unfold Menu.back_callback in H2. cbv zeta in H2.
  rewrite (callback_shown _ _ _ _ _ _ s H2).
  unfold Menu.start_command in H1. cbv zeta in H1. cbn [Menu.perform] in H1.
  destruct (S1 done1 _) as [e|]; inversion H1; subst.
  rewrite added_app. reflexivity.
Qed.

Lemma back_restores_the_start_menu_witness :
  Menu.shown (Menu.added [] (snd (Menu.back_callback (fun _ _ => None) [])))
    (Some ("", None))
  = Menu.shown (Menu.added [] (snd (Menu.start_command (fun _ _ => None) []))) None.
Proof.
  apply (back_restores_the_start_menu (fun _ _ => None) [] _ (fun _ _ => None) [] _ ("", None)).
  - reflexivity.
  - reflexivity.
Defined.

Lemma dispatch_in handlers data h :
  Menu.dispatch handlers data = Some h ->
  exists pattern, In (pattern, h) handlers /\ Menu.regex pattern data = true.
Proof.
  induction handlers as [|[p h0] rest IH]; [discriminate | ]. cbn [Menu.dispatch].
  destruct (Menu.regex p data) eqn:Hp.
  - intros H. inversion H; subst. exists p. split; [left; reflexivity | exact Hp].
  - intros H. destruct (IH H) as (p' & Hin & Hp'). exists p'. split; [right; exact Hin | exact Hp'].
Qed.

Lemma reachable_sent s :
  Menu.reachable s ->
  In (Some s) (Menu.sends Menu.start_command
               :: List.map (fun ph => Menu.sends (snd ph)) Menu.on_callback_query).
Proof.
  induction 1 as [S done r after s Hrun Hshown | s s' Hreach IH Hpress].
  - left. unfold Menu.start_command in Hrun. cbv zeta in Hrun. cbn [Menu.perform] in Hrun.
    destruct (S done _) as [e|]; inversion Hrun; subst; rewrite added_app in Hshown.
    + discriminate.
    + rewrite <- Hshown. reflexivity.
  - destruct Hpress as [s b h S done r after s' Hb Hd Hrun Hshown].
    apply dispatch_in in Hd. destruct Hd as (p & Hin & _).
    destruct (callback_handlers _ _ Hin) as (text & k & -> & Hsends).
    rewrite (callback_shown _ _ _ _ _ _ s Hrun) in Hshown.
    destruct r as [[]|e|].
    + right. rewrite <- Hshown, <- Hsends.
      apply (List.in_map (fun ph => Menu.sends (snd ph)) _ _ Hin).
    + inversion Hshown; subst. exact IH.
    + inversion Hshown; subst. exact IH.
Qed.

Lemma sent_buttons_live s b :
  In (Some s) (Menu.sends Menu.start_command
               :: List.map (fun ph => Menu.sends (snd ph)) Menu.on_callback_query) ->
  In b (Menu.buttons s) ->
  exists pattern, Menu.accepting (Menu.callback_data b) = [pattern].
Proof.
  intros Hs Hb. cbn [List.map List.In snd] in Hs.
  destruct Hs as [Hs | [Hs | [Hs | [Hs | [Hs | []]]]]];
    vm_compute in Hs; inversion Hs; subst s; clear Hs;
    vm_compute in Hb;
    repeat (destruct Hb as [<- | Hb]; [eexists; vm_compute; reflexivity | ]);
    destruct Hb.
Qed.

(** The menu is closed.  Whatever buttons are pressed, and whichever
    calls fail on the way, the message shows what one of the five
    handlers sends; and every button it shows is let through by exactly
    one of the filters of the callback handlers, so that every press is
    handled, by a handler that does not depend on the order of
    registration. *)
Theorem menu_is_closed s :
  Menu.reachable s ->
  In (Some s) (Menu.sends Menu.start_command
               :: List.map (fun ph => Menu.sends (snd ph)) Menu.on_callback_query)
  /\ forall b, In b (Menu.buttons s) ->
       exists pattern,
         Menu.accepting (Menu.callback_data b) = [pattern]
         /\ exists h, Menu.dispatch Menu.on_callback_query (Menu.callback_data b) = Some h
                      /\ In (pattern, h) Menu.on_callback_query.
Proof.
  intros Hreach. pose proof (reachable_sent _ Hreach) as Hs. split; [exact Hs | ].
  intros b Hb. destruct (sent_buttons_live _ _ Hs Hb) as (p & Hp). exists p.
  split; [exact Hp | ].
  destruct (Menu.dispatch Menu.on_callback_query (Menu.callback_data b)) as [h|] eqn:Hd.
  - exists h. split; [reflexivity | ].
    apply dispatch_in in Hd. destruct Hd as (p' & Hin & Hacc).
    assert (Hin' : In p' (Menu.accepting (Menu.callback_data b))).
    { unfold Menu.accepting. apply (List.in_map fst _ (p', h)).
      apply List.filter_In. split; [exact Hin | exact Hacc]. }
    rewrite Hp in Hin'. destruct Hin' as [-> | []]. exact Hin.
  - exfalso. clear - Hp Hd. unfold Menu.accepting in Hp.
    assert (Hnone : forall hs, Menu.dispatch hs (Menu.callback_data b) = None ->
              List.filter (fun ph => Menu.regex (fst ph) (Menu.callback_data b)) hs = []).
    { induction hs as [|[q h] hs IH]; [reflexivity | ]. cbn [Menu.dispatch List.filter fst].
      destruct (Menu.regex q (Menu.callback_data b)); [discriminate | exact IH]. }
    rewrite (Hnone _ Hd) in Hp. discriminate.
Qed.

Lemma start_menu_reachable :
  Menu.reachable
    (match Menu.sends Menu.start_command with Some s => s | None => ("", None) end).
Proof.
  apply (Menu.reach_start (fun _ _ => None) [] (Ok tt)
           (snd (Menu.start_command (fun _ _ => None) []))).
  - reflexivity.
  - reflexivity.
Qed.

Lemma menu_is_closed_witness :
  In (Some (match Menu.sends Menu.start_command with Some s => s | None => ("", None) end))
     (Menu.sends Menu.start_command
      :: List.map (fun ph => Menu.sends (snd ph)) Menu.on_callback_query)
  /\ forall b,
       In b (Menu.buttons
               (match Menu.sends Menu.start_command with Some s => s | None => ("", None) end)) ->
       exists pattern,
         Menu.accepting (Menu.callback_data b) = [pattern]
         /\ exists h, Menu.dispatch Menu.on_callback_query (Menu.callback_data b) = Some h
                      /\ In (pattern, h) Menu.on_callback_query.
Proof.
  apply (menu_is_closed
           (match Menu.sends Menu.start_command with Some s => s | None => ("", None) end)).
  apply start_menu_reachable.
Defined.

(** Cancel ends the menu: once [cancel_callback] has returned, the
    message has no keyboard, so no button of it can be pressed again. *)
Theorem cancel_ends_the_menu S done after s s' :
  Menu.cancel_callback S done = (Ok tt, after) ->
  Menu.shown (Menu.added done after) (Some s) = Some s' ->
  Menu.buttons s' = [] /\ forall s'', ~ Menu.press s' s''.
Proof.
  intros Hrun Hshown. unfold Menu.cancel_callback in Hrun. cbv zeta in Hrun.
  rewrite (callback_shown _ _ _ _ _ _ s Hrun) in Hshown. inversion Hshown; subst s'.
  split; [reflexivity | ].
  intros s'' Hpress. inversion Hpress as [? b ? ? ? ? ? ? Hb]; subst. destruct Hb.
Qed.

Lemma cancel_ends_the_menu_witness :
  Menu.buttons
    (match Menu.sends Menu.cancel_callback with Some s => s | None => ("", None) end) = []
  /\ forall s'',
       ~ Menu.press
           (match Menu.sends Menu.cancel_callback with Some s => s | None => ("", None) end) s''.
Proof.
  apply (cancel_ends_the_menu (fun _ _ => None) []
           (snd (Menu.cancel_callback (fun _ _ => None) [])) ("", None)).
  - reflexivity.
  - reflexivity.
Defined.

(** ** The walk over the extracted files *)

Lemma walk_effect_refl root w : walk_effect root w w [].
Proof. intros q. left. reflexivity. Qed.

Lemma walk_effect_trans root w1 w2 w3 evs1 evs2 :
  walk_effect root w1 w2 evs1 -> walk_effect root w2 w3 evs2 ->
  walk_effect root w1 w3 (evs1 ++ evs2).
Proof.
  intros H1 H2 q. destruct (H2 q) as [Heq | (rest & doc & Hne & Hq & Hgone & Hin & Hdoc)].
  - destruct (H1 q) as [Heq1 | (rest & doc & Hne & Hq & Hgone & Hin & Hdoc)].
    + left. congruence.
    + right. exists rest, doc. repeat split; auto; [congruence | ].
      apply List.in_or_app. left. exact Hin.
  - right. exists rest, doc. repeat split; auto. apply List.in_or_app. right. exact Hin.
Qed.

(** The effect of a walk from a sub-directory is an effect of the walk
    from the directory. *)
Lemma walk_effect_sub root d w w' evs :
  Path.name_ok d = true ->
  walk_effect (Path.join root d) w w' evs -> walk_effect root w w' evs.
Proof.
  intros Hd H q. destruct (H q) as [Heq | (rest & doc & Hne & Hq & Hgone & Hin & Hdoc)];
    [left; exact Heq | right].
  exists (d :: rest), doc. rewrite (resolve_join _ _ Hd), <- List.app_assoc in Hq.
  split; [discriminate | ]. split; [exact Hq | ]. split; [exact Hgone | ].
  split; [exact Hin | exact Hdoc].
Qed.

Lemma send_files_effect E root : forall files w r w',
  (forall f, In f files -> Path.name_ok f = true) ->
  wf_fs (fs w) ->
  for_each files (fun file =>
    tg E (send_document (Path.join root file) ("Extracted file: " +:+ file)) ;;;
    os_remove (Path.join root file)) w = (r, w') ->
  wf_fs (fs w')
  /\ exists evs, trace w' = trace w ++ evs /\ walk_effect root w w' evs.
Proof.
  induction files as [|f files IH]; intros w r w' Hnames Hwf H; cbn [for_each] in H.
  { inversion H; subst. split; [exact Hwf | ]. exists []. rewrite List.app_nil_r.
    split; [reflexivity | apply walk_effect_refl]. }
  assert (Hf : Path.name_ok f = true) by (apply Hnames; left; reflexivity).
  apply bind_run in H. destruct H as [([] & w1 & H1 & H) | [(e & H1 & ->) | (H1 & ->)]].
  - apply tg_then in H1. cbn [fs trace] in H1.
    destruct H1 as [(Hsend & H1) | (e & _ & Hr & _)]; [ | discriminate].
    unfold os_remove in H1. apply fs_op_run in H1. cbn [fs trace] in H1.
    destruct H1 as [(m & Hm & _ & ->) | (e & _ & Hr & _)]; [ | discriminate].
    destruct (remove_keeps _ _ _ Hm) as (_ & _ & Hwf1 & Hother & Hgone).
    match type of H with for_each _ _ ?w1 = _ =>
      destruct (IH w1 r w' (fun g Hg => Hnames g (or_intror Hg)) (Hwf1 Hwf) H)
        as (Hwf' & evs & Htr & Heff) end.
    cbn [fs trace] in *.
    split; [exact Hwf' | ].
    exists ([Tg (send_document (Path.join root f) ("Extracted file: " +:+ f)) None;
             Removed (Path.join root f)] ++ evs).
    split; [rewrite Htr, <- !List.app_assoc; reflexivity | ].
    apply (walk_effect_trans root w
             (World m ((trace w ++ [Tg (send_document (Path.join root f)
                                          ("Extracted file: " +:+ f)) None])
                       ++ [Removed (Path.join root f)]))); [ | exact Heff].
    intros q. cbn [fs].
    destruct (decide (q = Path.resolve (Path.join root f))) as [-> | Hq];
      [right | left; apply Hother; exact Hq].
    exists [f], (Path.join root f). rewrite (resolve_join _ _ Hf).
    split; [discriminate | ]. split; [reflexivity | ].
    split; [rewrite <- (resolve_join _ _ Hf); exact Hgone | ].
    split; [ | reflexivity]. rewrite last_snoc. left. reflexivity.
  - apply bind_run in H1. destruct H1 as [([] & w1 & H1 & H2) | [(e' & H1 & He) | (H1 & He)]];
      try discriminate.
    + apply tg_run in H1. destruct H1 as [-> _].
      unfold os_remove in H2. apply fs_op_run in H2. cbn [fs trace] in H2.
      destruct H2 as [(m & _ & Hr & _) | (e' & _ & _ & ->)]; [discriminate | ].
      cbn [fs trace]. split; [exact Hwf | ]. eexists. split; [reflexivity | ].
      intros q. left. reflexivity.
    + apply tg_run in H1. destruct H1 as [-> _]. cbn [fs trace].
      split; [exact Hwf | ]. eexists. split; [reflexivity | ]. intros q. left. reflexivity.
  - exfalso. apply bind_run in H1.
    destruct H1 as [([] & w1 & H1 & H2) | [(e' & H1 & He) | (H1 & He)]]; try discriminate.
    + unfold os_remove in H2. apply fs_op_run in H2.
      destruct H2 as [(m & _ & Hr & _) | (e' & _ & Hr & _)]; discriminate.
    + apply tg_run in H1. destruct H1 as [_ Hr]. destruct (telegram E _ _); discriminate.
Qed.

Lemma scandir_run root w r w' :
  scandir root w = (r, w') ->
  w' = w
  /\ (r = Ok None
      \/ exists dirs files,
           r = Ok (Some (dirs, files))
           /\ (forall d, In d dirs -> fs w !! (Path.resolve root ++ [d]) = Some Dir)
           /\ (forall f, In f files ->
                 exists data, fs w !! (Path.resolve root ++ [f]) = Some (File data))).
Proof.
  unfold scandir. destruct (get (fs w) (Path.resolve root)) as [[data|]|];
    intros H; inversion H; subst; (split; [reflexivity | ]); try (left; reflexivity).
  right. eexists _, _. split; [reflexivity | ]. split.
  - intros d Hd. apply scandir_dirs. exact Hd.
  - intros f Hf. apply scandir_files. exact Hf.
Qed.

(** What the walk does to the file system and to the log: the only
    paths it touches are files below its root, which it removes after
    having uploaded them under their names. *)
Lemma walk_send_effect E : forall fuel root w r w',
  wf_fs (fs w) ->
  walk_send E fuel root w = (r, w') ->
  wf_fs (fs w')
  /\ exists evs, trace w' = trace w ++ evs /\ walk_effect root w w' evs.
Proof.
  induction fuel as [|fuel IH]; intros root w r w' Hwf H; cbn [walk_send] in H.
  { inversion H; subst. split; [exact Hwf | ]. exists []. rewrite List.app_nil_r.
    split; [reflexivity | apply walk_effect_refl]. }
  apply bind_run in H. destruct H as [(listing & w1 & H1 & H) | [(e & H1 & ->) | (H1 & ->)]];
    apply scandir_run in H1;
    destruct H1 as [-> [Hr | (dirs & files & Hr & Hdirs & Hfiles)]]; try discriminate.
  { inversion Hr; subst. inversion H; subst. split; [exact Hwf | ]. exists [].
    rewrite List.app_nil_r. split; [reflexivity | apply walk_effect_refl]. }
  inversion Hr; subst listing. clear Hr.
  assert (Hfn : forall f, In f files -> Path.name_ok f = true).
  { intros f Hf. destruct (Hfiles f Hf) as (data & Hdata). eapply wf_key_names; eauto. }
  assert (Hdn : forall d, In d dirs -> Path.name_ok d = true).
  { intros d Hd. eapply wf_key_names; eauto. }
  clear Hdirs Hfiles.
  assert (Hsub : forall ds w0 r0 w0',
            (forall d, In d ds -> Path.name_ok d = true) ->
            wf_fs (fs w0) ->
            for_each ds (fun d => walk_send E fuel (Path.join root d)) w0 = (r0, w0') ->
            wf_fs (fs w0')
            /\ exists evs, trace w0' = trace w0 ++ evs /\ walk_effect root w0 w0' evs).
  { induction ds as [|d ds IHds]; intros w0 r0 w0' Hn Hwf0 H0; cbn [for_each] in H0.
    { inversion H0; subst. split; [exact Hwf0 | ]. exists []. rewrite List.app_nil_r.
      split; [reflexivity | apply walk_effect_refl]. }
    assert (Hd : Path.name_ok d = true) by (apply Hn; left; reflexivity).
    apply bind_run in H0.
    destruct H0 as [([] & w2 & H2 & H0) | [(e & H2 & ->) | (H2 & ->)]];
      destruct (IH _ _ _ _ Hwf0 H2) as (Hwf2 & evs2 & Htr2 & Heff2);
      apply (walk_effect_sub _ _ _ _ _ Hd) in Heff2.
    - destruct (IHds _ _ _ (fun g Hg => Hn g (or_intror Hg)) Hwf2 H0)
        as (Hwf3 & evs3 & Htr3 & Heff3).
      split; [exact Hwf3 | ]. exists (evs2 ++ evs3).
      split; [rewrite Htr3, Htr2, List.app_assoc; reflexivity | ].
      eapply walk_effect_trans; eauto.
    - split; [exact Hwf2 | ]. exists evs2. auto.
    - split; [exact Hwf2 | ]. exists evs2. auto. }
  apply bind_run in H. destruct H as [([] & w1 & H1 & H) | [(e & H1 & ->) | (H1 & ->)]];
    destruct (send_files_effect _ _ _ _ _ _ Hfn Hwf H1) as (Hwf1 & evs1 & Htr1 & Heff1).
  - destruct (Hsub _ _ _ _ Hdn Hwf1 H) as (Hwf2 & evs2 & Htr2 & Heff2).
    split; [exact Hwf2 | ]. exists (evs1 ++ evs2).
    split; [rewrite Htr2, Htr1, List.app_assoc; reflexivity | ].
    eapply walk_effect_trans; eauto.
  - split; [exact Hwf1 | ]. exists evs1. auto.
  - split; [exact Hwf1 | ]. exists evs1. auto.
Qed.

(** Every file that lies below the directory when the walk starts is
    uploaded, under its own name, by a walk that returns. *)
Lemma send_extracted_sends E top w w' :
  wf_fs (fs w) ->
  fs w !! Path.resolve top = Some Dir ->
  send_extracted E top w = (Ok tt, w') ->
  forall p data,
    p <> [] ->
    fs w !! (Path.resolve top ++ p) = Some (File data) ->
    exists doc,
      In (Tg (send_document doc ("Extracted file: " +:+ List.last p "")) None) (emitted w w')
      /\ Path.resolve doc = Path.resolve top ++ p.
Proof.
  intros Hwf Hdir H p data Hp Hfile.
  destruct (send_extracted_run _ _ _ _ _ Hwf Hdir H) as (evs0 & (Htr0 & _ & _ & _ & Honly) & Hnone).
  unfold send_extracted in H.
  destruct (walk_send_effect _ _ _ _ _ _ Hwf H) as (_ & evs & Htr & Heff).
  rewrite (emitted_app _ _ _ Htr).
  destruct (Heff (Path.resolve top ++ p)) as [Heq | (rest & doc & Hne & Hq & Hgone & Hin & Hdoc)].
  - exfalso. rewrite Hfile in Heq. exact (Hnone eq_refl p data Hp Heq).
  - exists doc. split; [ | exact Hdoc].
    replace (List.last p "") with (List.last (Path.resolve top ++ p) ""); [exact Hin | ].
    clear - Hp. induction (Path.resolve top) as [|c l IH]; [reflexivity | ].
    cbn [List.app]. destruct (l ++ p) eqn:Hlp; [ | exact IH].
    destruct l; [destruct p; [congruence | discriminate] | discriminate].
Qed.

(** The walk is complete: when it returns, every file that lay below
    the directory has been uploaded, with its own name in the caption,
    from the path where it lay. *)
Theorem walk_uploads_every_file E top w w' p data :
  wf_fs (fs w) ->
  fs w !! Path.resolve top = Some Dir ->
  send_extracted E top w = (Ok tt, w') ->
  p <> [] ->
  fs w !! (Path.resolve top ++ p) = Some (File data) ->
  exists doc,
    In (Tg (send_document doc ("Extracted file: " +:+ List.last p "")) None) (emitted w w')
    /\ Path.resolve doc = Path.resolve top ++ p.
Proof. intros Hwf Hdir H Hp Hfile. eapply send_extracted_sends; eauto. Qed.

Lemma littered_wf : wf_fs (fs Scene.littered).
Proof.
  intros p n H. unfold Scene.littered in H. cbn [fs] in H.
  repeat (apply lookup_insert_Some in H; destruct H as [[<- <-] | [_ H]]);
    [ | | | | rewrite lookup_empty in H; discriminate];
    (split; [discriminate | ]); (split; [repeat constructor | vm_compute; reflexivity]).
Qed.

Lemma walk_uploads_every_file_witness :
  exists doc,
    In (Tg (send_document doc ("Extracted file: " +:+ List.last ["old.txt"] "")) None)
       (emitted Scene.littered
          (snd (send_extracted Sample.quiet "downloads/extracted" Scene.littered)))
    /\ Path.resolve doc = Path.resolve "downloads/extracted" ++ ["old.txt"].
Proof.
  apply (walk_uploads_every_file Sample.quiet "downloads/extracted" Scene.littered
           (snd (send_extracted Sample.quiet "downloads/extracted" Scene.littered))
           ["old.txt"] [x09]%byte).
  - apply littered_wf.
  - vm_compute. reflexivity.
  - vm_compute. reflexivity.
  - discriminate.
  - vm_compute. reflexivity.
Defined.

(** The extraction directory is shared by all jobs and the walk takes
    whatever it finds there: a file that was already below
    [downloads/extracted] when the job started -- left by an earlier job
    that failed, say -- is uploaded to the user of this job along with
    the members of the archive. *)
Theorem leftovers_are_uploaded E dest file_path data w w' p old :
  wf_fs (fs w) ->
  get (fs w) (Path.resolve file_path) = Some (File data) ->
  relay_archive E dest file_path w = (Ok tt, w') ->
  p <> [] ->
  fs w !! (Path.resolve (Path.join dest "extracted") ++ p) = Some (File old) ->
  Path.resolve file_path <> Path.resolve (Path.join dest "extracted") ++ p ->
  exists doc,
    In (Tg (send_document doc ("Extracted file: " +:+ List.last p "")) None) (emitted w w')
    /\ Path.resolve doc = Path.resolve (Path.join dest "extracted") ++ p.
Proof.
  intros Hwf Hfile H Hp Hold Hne. unfold relay_archive in H.
  set (top := Path.join dest "extracted") in *.
  assert (Htop : Path.resolve top <> []).
  { unfold top. rewrite resolve_join by reflexivity. destruct (Path.resolve dest); discriminate. }
  apply bind_run in H. destruct H as [([] & w1 & H1 & H) | [(e & _ & Hr) | (_ & Hr)]];
    try discriminate.
  apply fs_update_run in H1. destruct H1 as [(m1 & Hm1 & _ & ->) | (e & _ & Hr & _)];
    [ | discriminate].
  destruct (makedirs_keeps _ _ _ Hm1) as (Hd1 & Hf1 & Hwf1 & Hdir1).
  rewrite get_key in Hdir1 by exact Htop.
  apply bind_run in H. destruct H as [([] & w2 & H2 & H) | [(e & _ & Hr) | (_ & Hr)]];
    try discriminate.
  apply extractall_run in H2. cbn [fs trace] in H2.
  destruct H2 as (m2 & f2 & -> & Hr2 & Hd2 & Hf2 & Hwf2).
  destruct f2 as [e|]; [discriminate | ].
  apply bind_run in H. destruct H as [([] & w3 & H3 & H) | [(e & _ & Hr) | (_ & Hr)]];
    try discriminate.
  unfold os_remove in H3. apply fs_op_run in H3. cbn [fs trace] in H3.
  destruct H3 as [(m3 & Hm3 & _ & ->) | (e & _ & Hr & _)]; [ | discriminate].
  destruct (remove_keeps _ _ _ Hm3) as (Hd3 & _ & Hwf3 & Hother3 & _).
  apply tg_then in H. cbn [fs trace] in H.
  destruct H as [(_ & H) | (e & _ & Hr & _)]; [ | discriminate].
  apply bind_run in H. destruct H as [([] & w5 & H5 & H) | [(e & _ & Hr) | (_ & Hr)]];
    try discriminate.
  assert (Hold4 : exists old', m3 !! (Path.resolve top ++ p) = Some (File old')).
  { destruct (Hf1 _ _ Hold) as (o1 & Ho1). destruct (Hf2 _ _ Ho1) as (o2 & Ho2).
    exists o2. rewrite Hother3; [exact Ho2 | ]. intros Heq. apply Hne. symmetry. exact Heq. }
  destruct Hold4 as (old' & Hold4).
  match type of H5 with send_extracted _ _ ?w4 = _ =>
    destruct (send_extracted_sends E top w4 w5 (Hwf3 (Hwf2 (Hwf1 Hwf)))
                (Hd3 _ (Hd2 _ Hdir1)) H5 p old' Hp Hold4) as (doc & Hin & Hdoc);
    pose proof (send_extracted_preserves E extends extends_refl extends_trans
                  (extends_tg E) (fun path => extends_fs_op _ _) top _ _ _ H5) as (evs5 & Ht5)
  end.
  rewrite (emitted_app _ _ _ Ht5) in Hin. cbn [trace] in Ht5.
  unfold os_rmdir in H. apply fs_op_run in H.
  destruct H as [(m6 & _ & _ & ->) | (e & _ & Hr & _)]; [ | discriminate].
  exists doc. split; [ | exact Hdoc].
  rewrite (emitted_app w _ ([Extracted file_path top None] ++ [Removed file_path]
             ++ [Tg (edit_text extraction_notice) None] ++ evs5 ++ [RemovedDir top]))
    by (cbn [trace]; rewrite Ht5, <- !List.app_assoc; reflexivity).
  cbn [List.app]. right. right. right. apply List.in_or_app. left. exact Hin.
Qed.

Lemma leftovers_are_uploaded_witness :
  exists doc,
    In (Tg (send_document doc ("Extracted file: " +:+ List.last ["old.txt"] "")) None)
       (emitted Scene.littered
          (snd (relay_archive (Sample.flaky 9) "downloads/" "downloads/a.zip" Scene.littered)))
    /\ Path.resolve doc = Path.resolve (Path.join "downloads/" "extracted") ++ ["old.txt"].
Proof.
  apply (leftovers_are_uploaded (Sample.flaky 9) "downloads/" "downloads/a.zip"
           (List.repeat x00 22) Scene.littered
           (snd (relay_archive (Sample.flaky 9) "downloads/" "downloads/a.zip" Scene.littered))
           ["old.txt"] [x09]%byte).
  - apply littered_wf.
  - vm_compute. reflexivity.
  - vm_compute. reflexivity.
  - discriminate.
  - vm_compute. reflexivity.
  - vm_compute. discriminate.
Defined.

(** ** The staging area *)

Lemma under_app (top : string) p q : under top p -> under top (p ++ q).
Proof. intros (rest & ->). exists (rest ++ q). reflexivity. Qed.

Lemma confined_refl (top : string) m : confined top m m.
Proof. intros p _. reflexivity. Qed.

Lemma confined_trans (top : string) m1 m2 m3 :
  confined top m1 m2 -> confined top m2 m3 -> confined top m1 m3.
Proof. intros H1 H2 p Hp. rewrite (H2 p Hp). apply H1. exact Hp. Qed.

Lemma confined_insert (top : string) (m : fsmap) p n : under top p -> confined top m (<[p := n]> m).
Proof. intros Hp q Hq. apply lookup_insert_ne. intros <-. exact (Hq Hp). Qed.

Lemma confined_delete (top : string) (m : fsmap) p : under top p -> confined top m (delete p m).
Proof. intros Hp q Hq. apply lookup_delete_ne. intros <-. exact (Hq Hp). Qed.

Lemma write_confined (top : string) m path data m' :
  under top (Path.resolve path) -> write m path data = inr m' -> confined top m m'.
Proof.
  intros Hp H. apply write_spec in H. destruct H as (_ & _ & _ & ->).
  apply confined_insert. exact Hp.
Qed.

Lemma remove_confined (top : string) m path m' :
  under top (Path.resolve path) -> remove m path = inr m' -> confined top m m'.
Proof.
  intros Hp H. apply remove_spec in H. destruct H as (d & _ & ->).
  apply confined_delete. exact Hp.
Qed.

Lemma rmdir_confined (top : string) m path m' :
  under top (Path.resolve path) -> rmdir m path = inr m' -> confined top m m'.
Proof.
  intros Hp H. apply rmdir_spec in H. destruct H as (_ & _ & ->).
  apply confined_delete. exact Hp.
Qed.

Lemma makedirs_from_confined (top : string) path : forall todo done m m',
  under top done -> makedirs_from path done todo m = inr m' -> confined top m m'.
Proof.
  induction todo as [|c todo IH]; intros done m m' Hdone H; cbn [makedirs_from] in H.
  - inversion H; subst. apply confined_refl.
  - destruct (m !! (done ++ [c])) as [[d|]|] eqn:Hl; [discriminate | | ].
    + apply (IH _ _ _ (under_app _ _ _ Hdone) H).
    + eapply confined_trans; [ | apply (IH _ _ _ (under_app _ _ _ Hdone) H)].
      apply confined_insert. apply under_app. exact Hdone.
Qed.

(** [makedirs] towards a path of the staging area only makes
    directories of the staging area. *)
Lemma makedirs_top_confined (top : string) path todo m m' :
  todo = [] \/ under top todo ->
  makedirs_from path [] todo m = inr m' -> confined top m m'.
Proof.
  intros [-> | (rest & ->)] H.
  - inversion H; subst. apply confined_refl.
  - cbn [makedirs_from List.app] in H.
    destruct (m !! [top]) as [[d|]|] eqn:Hl; [discriminate | | ].
    + apply (makedirs_from_confined top path rest [top]); [exists []; reflexivity | exact H].
    + eapply confined_trans;
        [ | apply (makedirs_from_confined top path rest [top]); [exists []; reflexivity | exact H]].
      apply confined_insert. exists []. reflexivity.
Qed.

Lemma makedirs_confined (top : string) m path m' :
  under top (Path.resolve path) -> makedirs m path = inr m' -> confined top m m'.
Proof. intros Hp. apply makedirs_top_confined. right. exact Hp. Qed.

(** [os.path.join(a, b)] for a relative [b] names what [b] names, seen
    from [a]. *)
Lemma resolve_join_app a b :
  Path.starts_with_slash b = false ->
  Path.resolve (Path.join a b) = Path.resolve a ++ Path.resolve b.
Proof.
  intros Hb. unfold Path.join. rewrite Hb.
  pose proof (pieces_nonempty a) as Hne. pose proof (pieces_nonempty b) as Hnb.
  destruct (negb (Path.nonempty a) || Path.ends_with_slash a) eqn:Hcase.
  - unfold Path.resolve. rewrite pieces_app.
    assert (Hlast : List.last (Path.pieces a) "" = "").
    { apply orb_prop in Hcase. destruct Hcase as [Hempty | Hslash].
      - destruct a; [reflexivity | discriminate].
      - apply ends_with_slash_last. exact Hslash. }
    rewrite Hlast. change ("" +:+ ?x) with x.
    replace (List.hd "" (Path.pieces b) :: List.tl (Path.pieces b)) with (Path.pieces b)
      by (destruct (Path.pieces b); [congruence | reflexivity]).
    rewrite List.filter_app. f_equal.
    rewrite (List.app_removelast_last "" Hne) at 2. rewrite Hlast.
    rewrite List.filter_app. simpl. rewrite List.app_nil_r. reflexivity.
  - unfold Path.resolve. rewrite pieces_app.
    change (Path.pieces ("/" +:+ b)) with ("" :: Path.pieces b).
    cbn [List.hd List.tl]. rewrite append_empty_r.
    change (?l ++ ?x :: Path.pieces b) with (l ++ [x] ++ Path.pieces b).
    rewrite List.app_assoc, <- (List.app_removelast_last "" Hne).
    apply List.filter_app.
Qed.

Lemma concat_starts sep l :
  List.Forall (fun c => Path.starts_with_slash c = false /\ Path.nonempty c = true) l ->
  Path.starts_with_slash (String.concat sep l) = false.
Proof.
  intros H. destruct H as [|c l [Hc Hn] Hl]; [reflexivity | ].
  destruct c as [|x c]; [discriminate | ].
  destruct l; [exact Hc | ]. cbn [String.concat].
  change (String x c +:+ ?s) with (String x (c +:+ s)). exact Hc.
Qed.

Lemma arcname_relative name : Path.starts_with_slash (arcname name) = false.
Proof.
  unfold arcname. apply concat_starts.
  pose proof (pieces_all_slash_free name) as H.
  induction H as [|c l Hc Hl IH]; [constructor | ]. cbn [List.filter].
  destruct (valid_part c) eqn:Hv; [ | exact IH]. constructor; [ | exact IH].
  destruct c as [|x c]; [discriminate | ]. split; [ | reflexivity].
  cbn [Path.slash_free] in Hc. cbn [Path.starts_with_slash].
  destruct (Ascii.eqb x Path.slash); [discriminate | reflexivity].
Qed.

Lemma parent_under (top : string) p : under top p -> parent p = [] \/ under top (parent p).
Proof.
  intros (rest & ->). unfold parent. destruct rest as [|c rest]; [left; reflexivity | right].
  exists (removelast (c :: rest)). reflexivity.
Qed.

Lemma extract_member_confined (top : string) dir mb m m' :
  under top (Path.resolve dir) ->
  extract_member dir mb m = inr m' -> confined top m m'.
Proof.
  intros Hdir H. unfold extract_member in H.
  assert (Htarget : under top (Path.resolve (Path.join dir (arcname (fst mb))))).
  { rewrite resolve_join_app by apply arcname_relative. apply under_app. exact Hdir. }
  destruct (makedirs_from _ [] _ m) as [e|m1] eqn:Hm1; [discriminate | ].
  apply (makedirs_top_confined top) in Hm1; [ | apply parent_under; exact Htarget].
  eapply confined_trans; [exact Hm1 | ].
  destruct (snd mb) as [data|].
  - eapply write_confined; eauto.
  - destruct (get m1 _) as [[d|]|]; inversion H; subst;
      [apply confined_refl | apply confined_insert; exact Htarget].
Qed.

Lemma extract_members_confined (top : string) dir : forall mbs m m' err,
  under top (Path.resolve dir) ->
  extract_members dir mbs m = (m', err) -> confined top m m'.
Proof.
  induction mbs as [|mb mbs IH]; intros m m' err Hdir H; cbn [extract_members] in H.
  - inversion H; subst. apply confined_refl.
  - destruct (extract_member dir mb m) as [e|m1] eqn:H1.
    + inversion H; subst. apply confined_refl.
    + eapply confined_trans; [eapply extract_member_confined; eauto | eapply IH; eauto].
Qed.

Lemma stays_in_refl (top : string) w : stays_in top w w.
Proof. intros Hwf. split; [exact Hwf | apply confined_refl]. Qed.

Lemma stays_in_trans (top : string) w1 w2 w3 :
  stays_in top w1 w2 -> stays_in top w2 w3 -> stays_in top w1 w3.
Proof.
  intros H1 H2 Hwf. destruct (H1 Hwf) as [Hwf2 Hc1]. destruct (H2 Hwf2) as [Hwf3 Hc2].
  split; [exact Hwf3 | eapply confined_trans; eauto].
Qed.

Lemma stays_in_same (top : string) w w' : fs w' = fs w -> stays_in top w w'.
Proof. intros Heq Hwf. rewrite Heq. split; [exact Hwf | apply confined_refl]. Qed.

Lemma stays_in_tg (top : string) E c : preserves (stays_in top) (tg E c).
Proof. intros w r w' H. apply tg_run in H. destruct H as [-> _]. apply stays_in_same. reflexivity. Qed.

Lemma stays_in_sleep (top : string) s : preserves (stays_in top) (asyncio_sleep s).
Proof. intros w r w' H. inversion H; subst. apply stays_in_same. reflexivity. Qed.

Lemma stays_in_fs_op (top : string) op ev :
  (forall m m', op m = inr m' -> (wf_fs m -> wf_fs m') /\ confined top m m') ->
  preserves (stays_in top) (fs_op op ev).
Proof.
  intros Hop w r w' H. apply fs_op_run in H.
  destruct H as [(m & Hm & _ & ->) | (e & _ & _ & ->)]; [ | apply stays_in_refl].
  intros Hwf. destruct (Hop _ _ Hm) as [Hwf' Hc]. cbn [fs]. auto.
Qed.

Lemma stays_in_write (top : string) path data :
  under top (Path.resolve path) -> preserves (stays_in top) (write_file path data).
Proof.
  intros Hp. apply stays_in_fs_op. intros m m' H. split.
  - apply (write_keeps _ _ _ _ H).
  - eapply write_confined; eauto.
Qed.

Lemma stays_in_remove (top : string) path :
  under top (Path.resolve path) -> preserves (stays_in top) (os_remove path).
Proof.
  intros Hp. apply stays_in_fs_op. intros m m' H. split.
  - apply (remove_keeps _ _ _ H).
  - eapply remove_confined; eauto.
Qed.

Lemma stays_in_rmdir (top : string) path :
  under top (Path.resolve path) -> preserves (stays_in top) (os_rmdir path).
Proof.
  intros Hp. apply stays_in_fs_op. intros m m' H. split.
  - apply (rmdir_keeps _ _ _ H).
  - eapply rmdir_confined; eauto.
Qed.

Lemma stays_in_makedirs (top : string) path :
  under top (Path.resolve path) -> preserves (stays_in top) (os_makedirs path).
Proof.
  intros Hp w r w' H. apply fs_update_run in H.
  destruct H as [(m & Hm & _ & ->) | (e & _ & _ & ->)]; [ | apply stays_in_refl].
  intros Hwf. cbn [fs]. split.
  - apply (makedirs_keeps _ _ _ Hm). exact Hwf.
  - eapply makedirs_confined; eauto.
Qed.

Lemma stays_in_extractall (top : string) E archive dir :
  under top (Path.resolve dir) -> preserves (stays_in top) (extractall E archive dir).
Proof.
  intros Hdir w r w' H Hwf.
  destruct (extractall_run _ _ _ _ _ _ H) as (m & f & Hw & _ & _ & _ & Hwf').
  split; [rewrite Hw; cbn [fs]; auto | ].
  unfold extractall in H. destruct (get (fs w) (Path.resolve archive)) as [[data|]|].
  - destruct (unzip E data) as [mbs failure].
    destruct (extract_members dir mbs (fs w)) as [m0 err] eqn:Hm0.
    apply (extract_members_confined top) in Hm0; [ | exact Hdir].
    destruct err; destruct failure; inversion H; subst; exact Hm0.
  - inversion H; subst. apply confined_refl.
  - inversion H; subst. apply confined_refl.
Qed.

Lemma stays_in_download (top : string) E link dest :
  (forall name, under top (Path.resolve (dest +:+ name))) ->
  preserves (stays_in top) (download_url E link dest).
Proof.
  intros Hdest w r w' H. apply download_url_run in H.
  destruct H as [(name & data & m & _ & Hwrite & _ & ->) | (e & _ & ->)];
    [ | apply stays_in_same; reflexivity].
  intros Hwf. cbn [fs]. split.
  - apply (write_keeps _ _ _ _ Hwrite). exact Hwf.
  - eapply write_confined; eauto.
Qed.

Lemma stays_in_split_loop (top : string) E C path base size :
  (forall i, 0 <= i -> under top (Path.resolve (chunk_path path i))) ->
  forall fuel f idx, 0 <= idx ->
    preserves (stays_in top) (split_loop E C fuel path base size f idx).
Proof.
  intros Hparts. induction fuel as [|fuel IH]; intros f idx Hidx; cbn [split_loop].
  - apply preserves_out_of_fuel. apply stays_in_refl.
  - destruct (read C f) as [chunk f']. destruct chunk as [|b chunk].
    + apply preserves_ret. apply stays_in_refl.
    + apply preserves_bind; [apply stays_in_trans | apply stays_in_write, Hparts, Hidx | intros _].
      apply preserves_bind; [apply stays_in_trans | apply stays_in_tg | intros _].
      apply preserves_bind; [apply stays_in_trans | apply stays_in_remove, Hparts, Hidx | intros _].
      apply IH. lia.
Qed.

Lemma stays_in_split (top : string) E C path :
  (forall i, 0 <= i -> under top (Path.resolve (chunk_path path i))) ->
  preserves (stays_in top) (split_and_upload_at E C path).
Proof.
  intros Hparts. unfold split_and_upload_at.
  apply preserves_bind; [apply stays_in_trans | | intros size].
  { apply preserves_pure; [apply stays_in_refl | apply pure_getsize]. }
  apply preserves_bind; [apply stays_in_trans | apply stays_in_tg | intros _].
  apply preserves_bind; [apply stays_in_trans | | intros f].
  { apply preserves_pure; [apply stays_in_refl | apply pure_open_rb]. }
  apply stays_in_split_loop; [exact Hparts | lia].
Qed.

Lemma stays_in_walk (top : string) E fuel root :
  under top (Path.resolve root) -> preserves (stays_in top) (walk_send E fuel root).
Proof.
  intros Hroot w r w' H Hwf.
  destruct (walk_send_effect _ _ _ _ _ _ Hwf H) as (Hwf' & evs & _ & Heff).
  split; [exact Hwf' | ]. intros p Hp.
  destruct (Heff p) as [Heq | (rest & doc & _ & -> & _)]; [exact Heq | ].
  destruct Hp. apply under_app. exact Hroot.
Qed.

Lemma stays_in_relay_plain (top : string) E path :
  under top (Path.resolve path) ->
  (forall i, 0 <= i -> under top (Path.resolve (chunk_path path i))) ->
  preserves (stays_in top) (relay_plain E path).
Proof.
  intros Hpath Hparts. unfold relay_plain.
  apply preserves_bind; [apply stays_in_trans | | intros size].
  { apply preserves_pure; [apply stays_in_refl | apply pure_getsize]. }
  destruct (size >? 2 * 1024 * 1024 * 1024).
  - apply stays_in_split. exact Hparts.
  - apply preserves_bind; [apply stays_in_trans | apply stays_in_tg | intros _].
    apply preserves_bind; [apply stays_in_trans | apply stays_in_tg | intros _].
    apply stays_in_remove. exact Hpath.
Qed.

Lemma stays_in_relay_archive (top : string) E dest path :
  under top (Path.resolve path) ->
  under top (Path.resolve (Path.join dest "extracted")) ->
  preserves (stays_in top) (relay_archive E dest path).
Proof.
  intros Hpath Hdir. unfold relay_archive.
  apply preserves_bind; [apply stays_in_trans | apply stays_in_makedirs, Hdir | intros _].
  apply preserves_bind; [apply stays_in_trans | apply stays_in_extractall, Hdir | intros _].
  apply preserves_bind; [apply stays_in_trans | apply stays_in_remove, Hpath | intros _].
  apply preserves_bind; [apply stays_in_trans | apply stays_in_tg | intros _].
  apply preserves_bind; [apply stays_in_trans | | intros _; apply stays_in_rmdir, Hdir].
  intros w r w' H. unfold send_extracted in H. revert H. apply stays_in_walk. exact Hdir.
Qed.

(** A bind whose continuation is run on the values the first part can
    return. *)
Lemma preserves_bind_val {A B} (R : world -> world -> Prop) (P : A -> Prop)
    (m : M A) (f : A -> M B) :
  (forall w1 w2 w3, R w1 w2 -> R w2 w3 -> R w1 w3) ->
  preserves R m ->
  (forall w a w', m w = (Ok a, w') -> P a) ->
  (forall a, P a -> preserves R (f a)) ->
  preserves R (bind m f).
Proof.
  intros Htrans Hm HP Hf w r w' H. apply bind_run in H.
  destruct H as [(a & w1 & H1 & H) | [(e & H1 & ->) | (H1 & ->)]].
  - eapply Htrans; [eapply Hm; eauto | eapply Hf; eauto].
  - eapply Hm; eauto.
  - eapply Hm; eauto.
Qed.

Lemma resolve_staged name :
  Path.resolve ("downloads/" +:+ name) = "downloads" :: Path.resolve name.
Proof.
  unfold Path.resolve. rewrite pieces_app.
  change (Path.pieces "downloads/") with ["downloads"; ""].
  cbn [List.removelast List.last List.app]. change ("" +:+ ?x) with x.
  pose proof (pieces_nonempty name). destruct (Path.pieces name); [congruence | reflexivity].
Qed.

Lemma staged_chunks name i :
  0 <= i -> under "downloads" (Path.resolve (chunk_path ("downloads/" +:+ name) i)).
Proof.
  intros Hi. rewrite (resolve_chunk_path _ _ Hi). apply under_app.
  rewrite pieces_app. change (Path.pieces "downloads/") with ["downloads"; ""].
  cbn [List.removelast List.last List.app]. change ("" +:+ ?x) with x.
  pose proof (pieces_nonempty name) as Hne.
  destruct (Path.pieces name) as [|h t]; [congruence | ]. cbn [List.hd List.tl].
  exists (List.filter Path.nonempty (removelast (h :: t))).
  destruct t; reflexivity.
Qed.

Lemma stays_in_pipeline E fuel link :
  preserves (stays_in "downloads") (pipeline E fuel link "downloads/").
Proof.
  unfold pipeline.
  apply preserves_bind; [apply stays_in_trans | | intros start_time].
  { apply preserves_pure; [apply stays_in_refl | apply pure_time]. }
  apply (preserves_bind_val _ (fun path => exists name, path = "downloads/" +:+ name));
    [apply stays_in_trans | | | ].
  { apply stays_in_download. intros name. rewrite resolve_staged. eexists. reflexivity. }
  { intros w a w' H. apply download_url_run in H.
    destruct H as [(name & data & m & _ & _ & Ha & _) | (e & He & _)]; [ | discriminate].
    inversion Ha; subst. eauto. }
  intros path (name & ->).
  apply preserves_bind; [apply stays_in_trans | | intros end_time].
  { apply preserves_pure; [apply stays_in_refl | apply pure_time]. }
  apply preserves_bind; [apply stays_in_trans | | intros _].
  { apply update_progress_preserves;
      [apply stays_in_refl | apply stays_in_trans | intros c; apply stays_in_tg
       | intros s; apply stays_in_sleep]. }
  apply preserves_bind; [apply stays_in_trans | | intros z].
  { apply preserves_pure; [apply stays_in_refl | apply pure_is_zipfile]. }
  apply preserves_bind; [apply stays_in_trans | | intros _; apply stays_in_tg].
  assert (Hpath : under "downloads" (Path.resolve ("downloads/" +:+ name))).
  { rewrite resolve_staged. eexists. reflexivity. }
  destruct z.
  - apply stays_in_relay_archive; [exact Hpath | ]. exists ["extracted"]. reflexivity.
  - apply stays_in_relay_plain; [exact Hpath | ]. intros i Hi. apply staged_chunks. exact Hi.
Qed.

(** A job stays in its staging area.  On a well-formed file system,
    and with a Mega that gives files plain names, no path outside
    [downloads/] is created, rewritten or removed, whatever the message,
    whatever Telegram answers and whatever the archive holds (the
    members of an archive are stored under sanitised names). *)
Theorem job_stays_in_staging E fuel message_text w r w' :
  wf_fs (fs w) ->
  (forall link name data,
     mega E link = inr (name, data) -> Path.name_ok name = true /\ valid_part name = true) ->
  download_file E fuel message_text w = (r, w') ->
  wf_fs (fs w')
  /\ forall p, (forall rest, p <> "downloads" :: rest) -> fs w' !! p = fs w !! p.
Proof.
  intros Hwf _ H.
  assert (Hstay : stays_in "downloads" w w').
  { revert H. unfold download_file.
    destruct (Re.search Re.mega_link message_text) as [link|]; [ | apply stays_in_tg].
    destruct (Text.contains "folder" link); [apply stays_in_tg | ].
    apply preserves_bind; [apply stays_in_trans | | intros _].
    { apply stays_in_makedirs. exists []. reflexivity. }
    apply preserves_bind; [apply stays_in_trans | apply stays_in_tg | intros _].
    apply preserves_try; [apply stays_in_trans | apply stays_in_pipeline | ].
    intros e. apply stays_in_tg. }
  destruct (Hstay Hwf) as [Hwf' Hc]. split; [exact Hwf' | ].
  intros p Hp. apply Hc. intros (rest & ->). exact (Hp rest eq_refl).
Qed.

Lemma job_stays_in_staging_witness :
  wf_fs (fs (snd (download_file Sample.quiet 1 Sample.file_link Sample.fresh)))
  /\ forall p, (forall rest, p <> "downloads" :: rest) ->
       fs (snd (download_file Sample.quiet 1 Sample.file_link Sample.fresh)) !! p
       = fs Sample.fresh !! p.
Proof.
  apply (job_stays_in_staging Sample.quiet 1 Sample.file_link Sample.fresh
           (fst (download_file Sample.quiet 1 Sample.file_link Sample.fresh))).
  - apply wf_empty.
  - intros link name data H. inversion H; subst. split; reflexivity.
  - apply surjective_pairing.
Defined.

(** ** The events of a job *)

Section Alphabet.

Variable E : env.
Variable P : event -> Prop.
Hypothesis P_wrote : forall path data, P (Wrote path data).
Hypothesis P_removed : forall path, P (Removed path).
Hypothesis P_sent : forall doc cap f, P (Tg (send_document doc cap) f).
Hypothesis P_split_notice : forall f, P (Tg (edit_text split_notice) f).
Hypothesis P_upload_notice : forall f, P (Tg (edit_text upload_notice) f).
Hypothesis P_extraction_notice : forall f, P (Tg (edit_text extraction_notice) f).
Hypothesis P_extracted : forall archive dir f, P (Extracted archive dir f).
Hypothesis P_removed_dir : forall path, P (RemovedDir path).

Lemma split_loop_emits C path base size : forall fuel f idx,
  preserves (adds P) (split_loop E C fuel path base size f idx).
Proof.
  induction fuel as [|fuel IH]; intros f idx; cbn [split_loop].
  - apply preserves_out_of_fuel. apply adds_refl.
  - destruct (read C f) as [chunk f']. destruct chunk as [|b chunk].
    + apply preserves_ret. apply adds_refl.
    + apply preserves_bind; [apply adds_trans | apply adds_fs_op, P_wrote | intros _].
      apply preserves_bind; [apply adds_trans | apply adds_tg, P_sent | intros _].
      apply preserves_bind; [apply adds_trans | apply adds_fs_op, P_removed | intros _].
      apply IH.
Qed.

Lemma split_and_upload_at_emits C path : preserves (adds P) (split_and_upload_at E C path).
Proof.
  unfold split_and_upload_at.
  apply preserves_bind; [apply adds_trans | | intros size].
  { apply preserves_pure; [apply adds_refl | apply pure_getsize]. }
  apply preserves_bind; [apply adds_trans | apply adds_tg, P_split_notice | intros _].
  apply preserves_bind; [apply adds_trans | | intros f; apply split_loop_emits].
  apply preserves_pure; [apply adds_refl | apply pure_open_rb].
Qed.

Lemma walk_send_emits : forall fuel root, preserves (adds P) (walk_send E fuel root).
Proof.
  induction fuel as [|fuel IH]; intros root; cbn [walk_send].
  - apply preserves_out_of_fuel. apply adds_refl.
  - apply preserves_bind; [apply adds_trans | | intros listing].
    { apply preserves_pure; [apply adds_refl | apply pure_scandir]. }
    destruct listing as [[dirs files]|]; [ | apply preserves_ret, adds_refl].
    apply preserves_bind; [apply adds_trans | | intros _].
    + apply preserves_for_each; [apply adds_refl | apply adds_trans | intros file].
      apply preserves_bind; [apply adds_trans | apply adds_tg, P_sent | intros _].
      apply adds_fs_op, P_removed.
    + apply preserves_for_each; [apply adds_refl | apply adds_trans | intros d]. apply IH.
Qed.

Lemma relay_emits z dest path : preserves (adds P) (relay E z dest path).
Proof.
  unfold relay. destruct z.
  - unfold relay_archive.
    apply preserves_bind; [apply adds_trans | apply adds_fs_update | intros _].
    apply preserves_bind; [apply adds_trans | apply adds_extractall, P_extracted | intros _].
    apply preserves_bind; [apply adds_trans | apply adds_fs_op, P_removed | intros _].
    apply preserves_bind; [apply adds_trans | apply adds_tg, P_extraction_notice | intros _].
    apply preserves_bind; [apply adds_trans | | intros _; apply adds_fs_op, P_removed_dir].
    intros w r w' H. unfold send_extracted in H. revert H. apply walk_send_emits.
  - unfold relay_plain.
    apply preserves_bind; [apply adds_trans | | intros size].
    { apply preserves_pure; [apply adds_refl | apply pure_getsize]. }
    destruct (size >? 2 * 1024 * 1024 * 1024); [apply split_and_upload_at_emits | ].
    apply preserves_bind; [apply adds_trans | apply adds_tg, P_upload_notice | intros _].
    apply preserves_bind; [apply adds_trans | apply adds_tg, P_sent | intros _].
    apply adds_fs_op, P_removed.
Qed.

Hypothesis P_progress : forall task pct cur tot f, P (Tg (edit_text (Progress task pct cur tot)) f).
Hypothesis P_slept : forall s, P (Slept s).
Hypothesis P_fetched : forall link f, P (Fetched link f).
Hypothesis P_completed : forall t f, P (Tg (edit_text (TaskCompleted t)) f).
Hypothesis P_failure : forall e f, P (Tg (edit_text (failure_report e)) f).

Lemma update_progress_emits fuel path task :
  preserves (adds P) (update_progress E fuel path task).
Proof.
  unfold update_progress.
  apply preserves_bind; [apply adds_trans | | intros size].
  { apply preserves_pure; [apply adds_refl | apply pure_getsize]. }
  induction fuel as [|fuel IH]; cbn [progress_loop].
  - apply preserves_out_of_fuel. apply adds_refl.
  - apply preserves_bind; [apply adds_trans | | intros there].
    { apply preserves_pure; [apply adds_refl | ]. intros w. unfold os_path_exists.
      destruct (get (fs w) (Path.resolve path)); reflexivity. }
    destruct there; [ | apply preserves_ret, adds_refl].
    apply preserves_bind; [apply adds_trans | | intros cur].
    { apply preserves_pure; [apply adds_refl | apply pure_getsize]. }
    apply preserves_bind; [apply adds_trans | | intros _].
    { apply preserves_try; [apply adds_trans | apply adds_tg, P_progress | ].
      intros e. apply preserves_ret, adds_refl. }
    destruct (cur >=? size); [apply preserves_ret, adds_refl | ].
    apply preserves_bind; [apply adds_trans | apply adds_sleep, P_slept | intros _].
    exact IH.
Qed.

Lemma guarded_pipeline_emits fuel link dest :
  preserves (adds P)
    (try_except (pipeline E fuel link dest) (fun e => tg E (edit_text (failure_report e)))).
Proof.
  apply preserves_try; [apply adds_trans | | intros e; apply adds_tg, P_failure].
  unfold pipeline.
  apply preserves_bind; [apply adds_trans | | intros start_time].
  { apply preserves_pure; [apply adds_refl | apply pure_time]. }
  apply preserves_bind; [apply adds_trans | | intros path].
  { intros w r w' H. apply download_url_run in H.
    destruct H as [(name & data & m & _ & _ & _ & ->) | (e & _ & ->)];
      (eexists; split; [reflexivity | ]; repeat constructor; apply P_fetched). }
  apply preserves_bind; [apply adds_trans | | intros end_time].
  { apply preserves_pure; [apply adds_refl | apply pure_time]. }
  apply preserves_bind; [apply adds_trans | apply update_progress_emits | intros _].
  apply preserves_bind; [apply adds_trans | | intros z].
  { apply preserves_pure; [apply adds_refl | apply pure_is_zipfile]. }
  apply preserves_bind; [apply adds_trans | | intros _; apply adds_tg, P_completed].
  apply (relay_emits z).
Qed.

Lemma finish_emits t rb : preserves (adds P) (finish E t rb).
Proof.
  unfold finish. apply preserves_try; [apply adds_trans | | intros e; apply adds_tg, P_failure].
  intros w r w' H. destruct rb as [[]|e|].
  - revert H. apply adds_tg, P_completed.
  - inversion H; subst. apply adds_refl.
  - inversion H; subst. apply adds_refl.
Qed.

End Alphabet.

(** A job sends one message and edits it from then on: the reply is the
    first thing the handler does after having made the staging
    directory, and nothing it does afterwards is a reply.  The reply is
    one of three: no link, folder refused, or "Starting download...". *)
Theorem one_reply_per_job E fuel message_text w r w' s f :
  download_file E fuel message_text w = (r, w') ->
  In (Tg (reply s) f) (emitted w w') ->
  (s = "❌ No valid Mega.nz link found."
   \/ s = "❌ Folder downloads are not supported at the moment. Please provide a file link."
   \/ s = "Starting download...")
  /\ exists rest,
       emitted w w' = Tg (reply s) f :: rest
       /\ forall s' f', ~ In (Tg (reply s') f') rest.
Proof.
  intros H Hin. apply job_start in H.
  destruct H as [(_ & H) | (link & Hs & [(_ & H) | (Hc & [(e & _ & _ & ->) | (m1 & Hm & [(e & _ & _ & ->) | (Ht & H)])])])].
  - apply tg_emitted in H. rewrite H in *. destruct Hin as [Heq | []]. inversion Heq; subst.
    split; [left; reflexivity | ]. exists []. split; [reflexivity | intros ? ? []].
  - apply tg_emitted in H. rewrite H in *. destruct Hin as [Heq | []]. inversion Heq; subst.
    split; [right; left; reflexivity | ]. exists []. split; [reflexivity | intros ? ? []].
  - rewrite emitted_refl in Hin. destruct Hin.
  - rewrite (emitted_app _ _ [Tg (reply "Starting download...") (Some e)]) in * by reflexivity.
    destruct Hin as [Heq | []]. inversion Heq; subst.
    split; [right; right; reflexivity | ]. exists []. split; [reflexivity | intros ? ? []].
  - assert (Hadds : adds not_reply
              (World m1 (trace w ++ [Tg (reply "Starting download...") None])) w').
    { revert H. apply (guarded_pipeline_emits E not_reply); intros; exact I. }
    destruct Hadds as (evs & Htr & Hall). cbn [trace] in Htr.
    rewrite (emitted_app _ _ (Tg (reply "Starting download...") None :: evs)) in *
      by (rewrite Htr, <- List.app_assoc; reflexivity).
    rewrite List.Forall_forall in Hall.
    destruct Hin as [Heq | Hin]; [ | destruct (Hall _ Hin)].
    inversion Heq; subst. split; [right; right; reflexivity | ].
    exists evs. split; [reflexivity | ]. intros s' f' Hin'. exact (Hall _ Hin').
Qed.

Lemma one_reply_per_job_witness :
  ("Starting download..." = "❌ No valid Mega.nz link found."
   \/ "Starting download..."
      = "❌ Folder downloads are not supported at the moment. Please provide a file link."
   \/ "Starting download..." = "Starting download...")
  /\ exists rest,
       emitted Sample.fresh (snd (download_file Sample.quiet 1 Sample.file_link Sample.fresh))
       = Tg (reply "Starting download...") None :: rest
       /\ forall s' f', ~ In (Tg (reply s') f') rest.
Proof.
  apply (one_reply_per_job Sample.quiet 1 Sample.file_link Sample.fresh
           (fst (download_file Sample.quiet 1 Sample.file_link Sample.fresh))).
  - apply surjective_pairing.
  - vm_compute. left. reflexivity.
Defined.

(** The progress message never shows a download in progress.  The
    monitor is called once [download_url] has returned, so the one
    progress update of a job comes right after the fetch, it is about
    the download, and the size it shows as current is the size of the
    whole file. *)
Theorem progress_comes_after_the_fetch E fuel message_text w r w' task pct cur tot f :
  download_file E (S fuel) message_text w = (r, w') ->
  In (Tg (edit_text (Progress task pct cur tot)) f) (emitted w w') ->
  task = "Download" /\ cur = tot
  /\ exists link rest,
       emitted w w'
       = Tg (reply "Starting download...") None :: Fetched link None
         :: Tg (edit_text (Progress task pct cur tot)) f :: rest
       /\ forall task' pct' cur' tot' f',
            ~ In (Tg (edit_text (Progress task' pct' cur' tot')) f') rest.
Proof.
  intros H Hin.
  destruct (job_started _ _ _ _ _ _ _ H Hin) as (link & m1 & Hs & Hc & Hm & Ht & Htry);
    [discriminate | ].
  apply try_pipeline_cases in Htry. cbn [fs trace] in Htry.
  destruct Htry as [(e0 & f0 & -> & _)
                   | (name & data & m & pct0 & f0 & z & rb & wb & _ & _ & _ & _ & Hb & Hfin)].
  - rewrite (emitted_app _ _ ([Tg (reply "Starting download...") None]
               ++ [Fetched link (Some e0); Tg (edit_text (failure_report e0)) f0]))
      in Hin by (cbn [trace]; rewrite <- List.app_assoc; reflexivity).
    cbn [List.app] in Hin.
    destruct Hin as [Heq | [Heq | [Heq | []]]]; discriminate.
  - assert (H1 : adds not_progress
              (World m ((trace w ++ [Tg (reply "Starting download...") None]) ++
                 [Fetched link None; Tg (edit_text (Progress "Download" pct0
                    (Z.of_nat (List.length data) / (1024 * 1024))
                    (Z.of_nat (List.length data) / (1024 * 1024)))) f0])) wb).
    { revert Hb. apply (relay_emits E not_progress); intros; exact I. }
    assert (H2 : adds not_progress wb w').
    { revert Hfin. apply (finish_emits E not_progress); intros; exact I. }
    destruct H1 as (evs1 & Htb & Hall1). destruct H2 as (evs2 & Htw & Hall2).
    cbn [trace] in Htb.
    rewrite (emitted_app _ _ ([Tg (reply "Starting download...") None]
               ++ [Fetched link None; Tg (edit_text (Progress "Download" pct0
                     (Z.of_nat (List.length data) / (1024 * 1024))
                     (Z.of_nat (List.length data) / (1024 * 1024)))) f0] ++ evs1 ++ evs2))
      in * by (rewrite Htw, Htb, <- !List.app_assoc; reflexivity).
    cbn [List.app] in *.
    assert (Hrest : forall task' pct' cur' tot' f',
              ~ In (Tg (edit_text (Progress task' pct' cur' tot')) f') (evs1 ++ evs2)).
    { intros ? ? ? ? ? Hin'. apply List.in_app_or in Hin'.
      rewrite List.Forall_forall in Hall1, Hall2.
      destruct Hin' as [Hin' | Hin']; [exact (Hall1 _ Hin') | exact (Hall2 _ Hin')]. }
    destruct Hin as [Heq | [Heq | [Heq | Hin]]]; try discriminate; [ | destruct (Hrest _ _ _ _ _ Hin)].
    inversion Heq; subst. split; [reflexivity | ]. split; [reflexivity | ].
    exists link, (evs1 ++ evs2). split; [reflexivity | exact Hrest].
Qed.

Lemma progress_comes_after_the_fetch_witness :
  "Download" = "Download" /\ 0 = 0
  /\ exists link rest,
       emitted Sample.fresh (snd (download_file Sample.quiet 1 Sample.file_link Sample.fresh))
       = Tg (reply "Starting download...") None :: Fetched link None
         :: Tg (edit_text (Progress "Download" (300 # 3) 0 0)) None :: rest
       /\ forall task' pct' cur' tot' f',
            ~ In (Tg (edit_text (Progress task' pct' cur' tot')) f') rest.
Proof.
  apply (progress_comes_after_the_fetch Sample.quiet 0 Sample.file_link Sample.fresh
           (fst (download_file Sample.quiet 1 Sample.file_link Sample.fresh))).
  - apply surjective_pairing.
  - vm_compute. right. right. left. reflexivity.
Defined.
